(** * Adaptive generation dispatch layer and scheduled publishing loop

    A shallow embedding of
    - the generation helpers of the core package ([trimTokens],
      [truncateTiktoken], [splitText], [generateText] and the retrying
      wrappers around it, [generateImage]), which this snapshot holds in
      [force-twitter-post.js];
    - the scheduled image plugin ([generateImageLoop],
      [generateAndPostImage], [postImageToTwitter]), held in
      [packages/core/src/services/textGeneration.ts];
    - the tweet extraction helper [extractTweetContent] of
      [test-json-parsing.js];
    followed by the properties the specification states about them.

    Conventions.
    - A JavaScript string is the list of its UTF-16 code units ([jsstring]);
      [lit] turns an ASCII literal into one.
    - JavaScript numbers that the code uses as integers (token budgets,
      timestamps, delays, sizes) are in [Z]; [NaN], where it can arise, is
      [None].  Where the code computes with numbers that need not be small
      (the interval settings and the random draw of the publishing loop)
      each operation is rounded to the nearest double.
    - A call that may throw returns an [outcome]; a [while (true)] loop is
      run with a bound on its iterations and answers [Running] when the
      bound is reached before the loop exits.
    - What the modelled files import from elsewhere (the tokenizer of
      js-tiktoken, the parsers of [parsing.ts], the tables of [models.ts],
      the constants of [types.ts]) is collected in the record [Imports];
      the services they talk to (text transport, RenderNet, cache, Twitter)
      are arguments of the functions that use them. *)

From Stdlib Require Import ZArith NArith List Lia Bool String Ascii.
From stdpp Require Import prelude gmap strings.
Import ListNotations.
Open Scope Z_scope.

(* ================================================================= *)
(** ** Strings, errors and outcomes *)

Definition jsstring := list N.

Definition lit (s : string) : jsstring :=
  map N_of_ascii (list_ascii_of_string s).
Arguments lit : simpl never.

(** [!s] for a string. *)
Definition str_falsy (s : jsstring) : bool :=
  match s with [] => true | _ => false end.

(** [!v] for a value that is a string, [null] or [undefined]. *)
Definition opt_falsy (v : option jsstring) : bool :=
  match v with None => true | Some s => str_falsy s end.

Definition jsstring_eqb (a b : jsstring) : bool :=
  bool_decide (a = b).

(** An [Error]: with a fixed message, or with a message put together at
    run time. *)
Inductive JsError :=
| MkError (message : string)
| ErrorText (message : jsstring).

Inductive outcome (A : Type) :=
| Ret (a : A)
| Throw (e : JsError).
Arguments Ret {A} a.
Arguments Throw {A} e.

(** [Array.prototype.slice(start)] and [String.prototype.slice(start)]:
    a negative [start] counts from the end, everything is clamped to the
    bounds. *)
Definition slice_from {A : Type} (start : Z) (l : list A) : list A :=
  let len := Z.of_nat (length l) in
  let k := if start <? 0 then Z.max (len + start) 0 else Z.min start len in
  drop (Z.to_nat k) l.

(** [String.prototype.substring(start, end)]: both indices are clamped to
    [0 .. length] and swapped when [start > end]. *)
Definition substring {A : Type} (s e : Z) (l : list A) : list A :=
  let len := Z.of_nat (length l) in
  let s' := Z.min (Z.max s 0) len in
  let e' := Z.min (Z.max e 0) len in
  let lo := Z.min s' e' in
  let hi := Z.max s' e' in
  take (Z.to_nat (hi - lo)) (drop (Z.to_nat lo) l).

(** Code unit of an ASCII character. *)
Definition cu (a : ascii) : N := N_of_ascii a.

(** The class [\s] of a regular expression, which is also what [trim]
    strips: WhiteSpace and LineTerminator code units. *)
Definition is_space (c : N) : bool :=
  ((9 <=? c) && (c <=? 13) || (c =? 32) || (c =? 160) || (c =? 5760)
   || (8192 <=? c) && (c <=? 8202) || (c =? 8232) || (c =? 8233)
   || (c =? 8239) || (c =? 8287) || (c =? 12288) || (c =? 65279))%N.

Fixpoint trimStart (s : jsstring) : jsstring :=
  match s with
  | c :: t => if is_space c then trimStart t else s
  | [] => []
  end.

Definition trimEnd (s : jsstring) : jsstring := rev (trimStart (rev s)).

Definition trim (s : jsstring) : jsstring := trimEnd (trimStart s).

(** ASCII lower-casing; with the [i] flag and no [u] flag a pattern letter
    matches exactly its two ASCII cases. *)
Definition lower (c : N) : N :=
  if ((65 <=? c) && (c <=? 90))%N then (c + 32)%N else c.

(* ================================================================= *)
(** ** Regular expressions

    The patterns of the modelled code, with the backtracking semantics of
    the language: quantifiers are greedy, alternatives are tried in
    order, the match is the leftmost one.  One capture group is tracked
    (no pattern of the code reads more than one). *)

Inductive re :=
| Eps
| Cls (p : N -> bool)     (* one code unit of a class *)
| Star (p : N -> bool)    (* [p*] over a class *)
| Seq (a b : re)
| Alt (a b : re)
| Cap (a : re)            (* the capture group *)
| Eoi.                    (* [$] *)

Fixpoint star_k {X : Type} (p : N -> bool) (s : jsstring)
    (k : jsstring -> option X) : option X :=
  match s with
  | c :: t =>
    if p c then
      match star_k p t k with
      | Some x => Some x
      | None => k s
      end
    else k s
  | [] => k []
  end.

Fixpoint mre {X : Type} (r : re) (s : jsstring) (cap : option jsstring)
    (k : jsstring -> option jsstring -> option X) : option X :=
  match r with
  | Eps => k s cap
  | Cls p =>
    match s with
    | c :: t => if p c then k t cap else None
    | [] => None
    end
  | Star p => star_k p s (fun s' => k s' cap)
  | Seq a b => mre a s cap (fun s' cap' => mre b s' cap' k)
  | Alt a b =>
    match mre a s cap k with
    | Some x => Some x
    | None => mre b s cap k
    end
  | Cap a =>
    mre a s cap (fun s' _ => k s' (Some (take (length s - length s')%nat s)))
  | Eoi =>
    match s with
    | [] => k [] cap
    | _ :: _ => None
    end
  end.

Definition Plus (p : N -> bool) : re := Seq (Cls p) (Star p).
Definition Opt (a : re) : re := Alt a Eps.

Definition chr_is (a : ascii) : N -> bool := fun c => (c =? cu a)%N.
Definition chr_isnt (a : ascii) : N -> bool := fun c => negb (c =? cu a)%N.
Definition is_ci (c0 : N) : N -> bool := fun c => (lower c =? lower c0)%N.

Fixpoint str_re (cs : jsstring) : re :=
  match cs with
  | [] => Eps
  | c :: t => Seq (Cls (N.eqb c)) (str_re t)
  end.

Fixpoint str_re_ci (cs : jsstring) : re :=
  match cs with
  | [] => Eps
  | c :: t => Seq (Cls (is_ci c)) (str_re_ci t)
  end.

Fixpoint seqs (rs : list re) : re :=
  match rs with
  | [] => Eps
  | r :: t => Seq r (seqs t)
  end.

(** The result of [exec]: index, whole match, group 1, and what follows
    the match in the input. *)
Record MatchResult := {
  m_index : nat;
  m_0 : jsstring;
  m_1 : option jsstring;
  m_rest : jsstring
}.

(** A match starting at the first code unit of [s]. *)
Definition match_here (r : re) (idx : nat) (s : jsstring) : option MatchResult :=
  mre r s None (fun rest cap =>
    Some {| m_index := idx;
            m_0 := take (length s - length rest)%nat s;
            m_1 := cap;
            m_rest := rest |}).

(** [s.match(r)] for a pattern without [^] and without the [g] flag. *)
Fixpoint search_from (r : re) (idx : nat) (s : jsstring) : option MatchResult :=
  match match_here r idx s with
  | Some m => Some m
  | None =>
    match s with
    | [] => None
    | _ :: t => search_from r (S idx) t
    end
  end.

Definition str_match (r : re) (s : jsstring) : option MatchResult :=
  search_from r 0 s.

(** [s.replace(r, '')] for a pattern without the [g] flag; [anchored]
    tells whether the pattern starts with [^]. *)
Definition replace_empty (anchored : bool) (r : re) (s : jsstring) : jsstring :=
  match (if anchored then match_here r 0 s else str_match r s) with
  | Some m => take (m_index m) s ++ m_rest m
  | None => s
  end.

(* ================================================================= *)
(** ** The runtime and the imports *)

Record ModelSettings := {
  ms_stop : option (list jsstring);
  maxInputTokens : Z
}.

Record ImageModelSettings := { ims_name : option jsstring }.

(** [IAgentRuntime], as far as the modelled functions read it. *)
Record Runtime := {
  modelProvider : jsstring;
  imageModelProvider : jsstring;
  settings : gmap string jsstring
}.

Definition getSetting (rt : Runtime) (key : string) : option jsstring :=
  settings rt !! key.

(** A [js-tiktoken] encoding. *)
Record Encoding := {
  encode : jsstring -> outcome (list N);
  decode : list N -> outcome jsstring
}.

Inductive ShouldRespond := RESPOND | IGNORE | STOP.

Record ActionResponse := {
  ar_like : bool; ar_retweet : bool; ar_quote : bool; ar_reply : bool
}.

(** [Content], as built by [generateMessageResponse]; [c_rest] stands for
    whatever else a parsed object carries. *)
Record Content := {
  c_user : option jsstring;
  c_text : option jsstring;
  c_action : option jsstring;
  c_rest : list (jsstring * jsstring)
}.

(** The arguments [generateText] is called with. *)
Inductive StopEntry :=
| StopStr (s : jsstring)
| StopArr (l : list jsstring).

Record TextRequest := {
  tr_context : jsstring;
  tr_modelClass : jsstring;
  tr_stop : option (list StopEntry)
}.

Record Imports := {
  (* js-tiktoken *)
  encodingForModel : jsstring -> outcome Encoding;
  (* types.ts *)
  TokenizerType_TikToken : jsstring;
  ModelProviderName_RENDERNET : jsstring;
  (* models.ts *)
  getModelSettings : jsstring -> jsstring -> ModelSettings;
  getImageModelSettings : jsstring -> option ImageModelSettings;
  (* parsing.ts; [None] is [null] *)
  parseShouldRespondFromText : jsstring -> option ShouldRespond;
  parseBooleanFromText : jsstring -> option bool;
  parseJsonArrayFromText : jsstring -> option (list jsstring);
  parseJSONObjectFromText : jsstring -> option Content;
  parseActionResponseFromText : jsstring -> option ActionResponse
}.

(* ================================================================= *)
(** ** Context budgeter: [trimTokens] and [truncateTiktoken] *)

(** [context.slice(-maxTokens * 4)], the fallback of the [catch] block. *)
Definition charFallback (context : jsstring) (maxTokens : Z) : jsstring :=
  slice_from (- maxTokens * 4) context.

Definition truncateTiktoken (im : Imports) (model context : jsstring)
    (maxTokens : Z) : jsstring :=
  match encodingForModel im model with
  | Throw _ => charFallback context maxTokens
  | Ret encoding =>
    match encode encoding context with
    | Throw _ => charFallback context maxTokens
    | Ret tokens =>
      if Z.of_nat (length tokens) <=? maxTokens then context
      else
        let truncatedTokens := slice_from (- maxTokens) tokens in
        match decode encoding truncatedTokens with
        | Throw _ => charFallback context maxTokens
        | Ret text => text
        end
    end
  end.

Definition gpt_4o : jsstring := lit "gpt-4o".

Definition trimTokens (im : Imports) (rt : Runtime) (context : jsstring)
    (maxTokens : Z) : outcome jsstring :=
  if str_falsy context then Ret []
  else if maxTokens <=? 0 then Throw (MkError "maxTokens must be positive")
  else
    let tokenizerModel := getSetting rt "TOKENIZER_MODEL" in
    let tokenizerType := getSetting rt "TOKENIZER_TYPE" in
    if opt_falsy tokenizerModel || opt_falsy tokenizerType then
      Ret (truncateTiktoken im gpt_4o context maxTokens)
    else if bool_decide (tokenizerType = Some (TokenizerType_TikToken im)) then
      Ret (truncateTiktoken im (default [] tokenizerModel) context maxTokens)
    else Ret (truncateTiktoken im gpt_4o context maxTokens).

(** The tiktoken model [trimTokens] ends up using. *)
Definition tokenizerModelOf (im : Imports) (rt : Runtime) : jsstring :=
  let tokenizerModel := getSetting rt "TOKENIZER_MODEL" in
  let tokenizerType := getSetting rt "TOKENIZER_TYPE" in
  if opt_falsy tokenizerModel || opt_falsy tokenizerType then gpt_4o
  else if bool_decide (tokenizerType = Some (TokenizerType_TikToken im)) then
    default [] tokenizerModel
  else gpt_4o.

(** Number of tokens of a text, when the tokenizer accepts it. *)
Definition tokenCount (enc : Encoding) (t : jsstring) : option Z :=
  match encode enc t with
  | Ret toks => Some (Z.of_nat (length toks))
  | Throw _ => None
  end.

(** The last [n] elements of a list. *)
Definition lastn {A : Type} (n : Z) (l : list A) : list A :=
  drop (length l - Z.to_nat n)%nat l.

(* ================================================================= *)
(** ** [splitText] and [splitChunks] *)

(** The loop of [splitText]; [None] when it is still running after
    [fuel] iterations. *)
Fixpoint splitText_loop (fuel : nat) (content : jsstring)
    (chunkSize bleed : Z) (start : Z) (chunks : list jsstring)
    : option (list jsstring) :=
  if start <? Z.of_nat (length content) then
    match fuel with
    | O => None
    | S fuel' =>
      let end_ := Z.min (start + chunkSize) (Z.of_nat (length content)) in
      splitText_loop fuel' content chunkSize bleed (end_ - bleed)
        (chunks ++ [substring start end_ content])
    end
  else Some chunks.

Definition splitText (fuel : nat) (content : jsstring) (chunkSize bleed : Z)
    : option (list jsstring) :=
  splitText_loop fuel content chunkSize bleed 0 [].

(** [splitChunks(content, chunkSize = 1500, bleed = 100)]. *)
Definition splitChunks (fuel : nat) (content : jsstring)
    (chunkSize bleed : option Z) : option (list jsstring) :=
  splitText fuel content (default 1500 chunkSize) (default 100 bleed).

(* ================================================================= *)
(** ** [generateText] and the retrying wrappers *)

Inductive Event :=
| LogError (message : string)
| Wait (ms : Z).

(** [waits evs]: the delays of the [setTimeout] waits, in order. *)
Fixpoint waits (evs : list Event) : list Z :=
  match evs with
  | [] => []
  | Wait ms :: t => ms :: waits t
  | LogError _ :: t => waits t
  end.

(** [errorsLogged label evs]: how many times [label] was logged. *)
Fixpoint errorsLogged (label : string) (evs : list Event) : nat :=
  match evs with
  | [] => O
  | LogError m :: t =>
    if bool_decide (m = label) then S (errorsLogged label t)
    else errorsLogged label t
  | Wait _ :: t => errorsLogged label t
  end.

(** The transport: [tp k req] is what the [try] block of the [k]-th call
    of [generateText] comes to, the text of the provider or the error
    thrown on the way ([trimTokens], provider call). *)
Definition Transport := nat -> TextRequest -> outcome jsstring.

Definition generateText (tp : Transport) (k : nat) (req : TextRequest)
    : outcome jsstring * list Event :=
  if str_falsy (tr_context req) then
    (Ret [], [LogError "generateText context is empty"])
  else
    match tp k req with
    | Ret response => (Ret response, [])
    | Throw error => (Throw error, [LogError "Error in generateText:"])
    end.

Inductive LoopResult (A : Type) :=
| Returned (a : A)
| Thrown (e : JsError)
| Running.
Arguments Returned {A} a.
Arguments Thrown {A} e.
Arguments Running {A}.

(** The loop shared by [generateShouldRespond], [generateTrueOrFalse],
    [generateTextArray], [generateObjectDeprecated], [generateObjectArray]
    and [generateTweetActions]:
<<
    let retryDelay = 1000;
    while (true) {
        try { ...; if (parsedResponse) return parsedResponse; }
        catch (error) { elizaLogger.error(label, error); }
        await new Promise((resolve) => setTimeout(resolve, retryDelay));
        retryDelay *= 2;
    }
>>
    [attempt k] is the [try] block of iteration [k]. *)
Section RetryLoop.
Context {A : Type}.
Variable attempt : nat -> outcome (option A) * list Event.
Variable label : string.

Fixpoint retryLoop (fuel k : nat) (retryDelay : Z)
    : LoopResult A * list Event :=
  match fuel with
  | O => (Running, [])
  | S fuel' =>
    match attempt k with
    | (Ret (Some v), ev) => (Returned v, ev)
    | (Ret None, ev) =>
      let '(r, ev') := retryLoop fuel' (S k) (retryDelay * 2) in
      (r, ev ++ Wait retryDelay :: ev')
    | (Throw _, ev) =>
      let '(r, ev') := retryLoop fuel' (S k) (retryDelay * 2) in
      (r, ev ++ LogError label :: Wait retryDelay :: ev')
    end
  end.
End RetryLoop.

(** One [try] block: the call of [generateText] followed by the parser. *)
Definition textAttempt {A : Type} (tp : Transport) (req : TextRequest)
    (parse : jsstring -> option A) (k : nat)
    : outcome (option A) * list Event :=
  match generateText tp k req with
  | (Ret response, ev) => (Ret (parse response), ev)
  | (Throw e, ev) => (Throw e, ev)
  end.

Definition request (context modelClass : jsstring)
    (stop : option (list StopEntry)) : TextRequest :=
  {| tr_context := context; tr_modelClass := modelClass; tr_stop := stop |}.

Definition generateShouldRespond (im : Imports) (tp : Transport) (fuel : nat)
    (context modelClass : jsstring) : LoopResult ShouldRespond * list Event :=
  retryLoop
    (textAttempt tp (request context modelClass None)
       (fun response => parseShouldRespondFromText im (trim response)))
    "Error in generateShouldRespond:" fuel 0 1000.

(** [Array.from(new Set(l))] on strings: first occurrences, in order. *)
Fixpoint uniq (seen l : list jsstring) : list jsstring :=
  match l with
  | [] => []
  | x :: t =>
    if bool_decide (x ∈ seen) then uniq seen t else x :: uniq (x :: seen) t
  end.

(** [Array.from(new Set([...(modelSettings.stop || []), ["\n"]]))]. *)
Definition trueOrFalseStop (ms : ModelSettings) : list StopEntry :=
  map StopStr (uniq [] (default [] (ms_stop ms))) ++ [StopArr [[10%N]]].

Definition generateTrueOrFalse (im : Imports) (rt : Runtime) (tp : Transport)
    (fuel : nat) (context modelClass : jsstring)
    : LoopResult bool * list Event :=
  let modelSettings := getModelSettings im (modelProvider rt) modelClass in
  let stop := trueOrFalseStop modelSettings in
  retryLoop
    (textAttempt tp (request context modelClass (Some stop))
       (fun response => parseBooleanFromText im (trim response)))
    "Error in generateTrueOrFalse:" fuel 0 1000.

Definition generateTextArray (im : Imports) (tp : Transport) (fuel : nat)
    (context modelClass : jsstring) : LoopResult (list jsstring) * list Event :=
  if str_falsy context then
    (Returned [], [LogError "generateTextArray context is empty"])
  else
    retryLoop
      (textAttempt tp (request context modelClass None)
         (parseJsonArrayFromText im))
      "Error in generateTextArray:" fuel 0 1000.

(** Answers [null] ([None]) on an empty context. *)
Definition generateObjectDeprecated (im : Imports) (tp : Transport)
    (fuel : nat) (context modelClass : jsstring)
    : LoopResult (option Content) * list Event :=
  if str_falsy context then
    (Returned None, [LogError "generateObjectDeprecated context is empty"])
  else
    retryLoop
      (textAttempt tp (request context modelClass None)
         (fun response => Some <$> parseJSONObjectFromText im response))
      "Error in generateObject:" fuel 0 1000.

Definition generateObjectArray (im : Imports) (tp : Transport) (fuel : nat)
    (context modelClass : jsstring) : LoopResult (list jsstring) * list Event :=
  if str_falsy context then
    (Returned [], [LogError "generateObjectArray context is empty"])
  else
    retryLoop
      (textAttempt tp (request context modelClass None)
         (parseJsonArrayFromText im))
      "Error in generateTextArray:" fuel 0 1000.

Definition generateTweetActions (im : Imports) (tp : Transport) (fuel : nat)
    (context modelClass : jsstring) : LoopResult ActionResponse * list Event :=
  retryLoop
    (textAttempt tp (request context modelClass None)
       (fun response => parseActionResponseFromText im (trim response)))
    "Error in generateTweetActions:" fuel 0 1000.

(** The fallback patterns of [generateMessageResponse].  Writing Q for the
    class of the double and the single quote, they are
    [/Q action Q \s* : \s* Q ([A-Z_]+) Q/i] and
    [/Q text Q \s* : \s* Q ([^Q]+) Q/i] (without the blanks). *)
Definition is_quote (c : N) : bool := ((c =? 34) || (c =? 39))%N.

Definition is_action_char (c : N) : bool :=
  ((65 <=? c) && (c <=? 90) || (97 <=? c) && (c <=? 122) || (c =? 95))%N.

Definition actionPattern : re :=
  seqs [Cls is_quote; str_re_ci (lit "action"); Cls is_quote;
        Star is_space; Cls (chr_is ":"); Star is_space;
        Cls is_quote; Cap (Plus is_action_char); Cls is_quote].

Definition textPattern : re :=
  seqs [Cls is_quote; str_re_ci (lit "text"); Cls is_quote;
        Star is_space; Cls (chr_is ":"); Star is_space;
        Cls is_quote; Cap (Plus (fun c => negb (is_quote c))); Cls is_quote].

(** What one iteration of [generateMessageResponse] makes of a response:
    the parsed object, else the object rebuilt from the two patterns,
    else [None] (the [continue]). *)
Definition parseMessage (im : Imports) (response : jsstring)
    : option Content :=
  match parseJSONObjectFromText im response with
  | Some parsedContent => Some parsedContent
  | None =>
    match str_match actionPattern response, str_match textPattern response with
    | Some actionMatch, Some textMatch =>
      Some {| c_user := Some (lit "Eliza");
              c_text := m_1 textMatch;
              c_action := m_1 actionMatch;
              c_rest := [] |}
    | _, _ => None
    end
  end.

(** The loop of [generateMessageResponse]: a response that does not parse
    leads to [continue], with no wait; a thrown error doubles
    [retryLength] and then waits that long. *)
Fixpoint messageLoop (im : Imports) (tp : Transport) (req : TextRequest)
    (fuel k : nat) (retryLength : Z) : LoopResult Content * list Event :=
  match fuel with
  | O => (Running, [])
  | S fuel' =>
    match generateText tp k req with
    | (Ret response, ev) =>
      match parseMessage im response with
      | Some parsedContent => (Returned parsedContent, ev)
      | None =>
        let '(r, ev') := messageLoop im tp req fuel' (S k) retryLength in
        (r, ev ++ ev')
      end
    | (Throw _, ev) =>
      let retryLength' := retryLength * 2 in
      let '(r, ev') := messageLoop im tp req fuel' (S k) retryLength' in
      (r, ev ++ LogError "ERROR:" :: Wait retryLength' :: ev')
    end
  end.

Definition generateMessageResponse (im : Imports) (rt : Runtime)
    (tp : Transport) (fuel : nat) (context modelClass : jsstring)
    : LoopResult Content * list Event :=
  let modelSettings := getModelSettings im (modelProvider rt) modelClass in
  let max_context_length := maxInputTokens modelSettings in
  match trimTokens im rt context max_context_length with
  | Throw e => (Thrown e, [])
  | Ret context' =>
    messageLoop im tp (request context' modelClass None) fuel 0 1000
  end.

(** The delays [1000 * 2^0 ... 1000 * 2^(N-1)], as exact integers (a
    double holds [1000 * 2^k] exactly for every [k] below 1014). *)
Definition backoffDelays (N : nat) : list Z :=
  map (fun i => 1000 * 2 ^ Z.of_nat i) (seq 0 N).

(* ================================================================= *)
(** ** [generateObject] and [handleProvider] *)

(** The members of [ModelProviderName] that the two dispatchers name;
    [OtherProvider] stands for every other value. *)
Inductive ModelProviderName :=
| OPENAI | ETERNALAI | ALI_BAILIAN | VOLENGINE | LLAMACLOUD | TOGETHER
| NANOGPT | AKASH_CHAT_API | LMSTUDIO | ANTHROPIC | CLAUDE_VERTEX | GROK
| GROQ | LLAMALOCAL | GOOGLE | MISTRAL | REDPILL | OPENROUTER | OLLAMA
| DEEPSEEK | LIVEPEER | SECRETAI | NEARAI | HYPERBOLIC | NINETEEN_AI
| HEURIST | GAIANET | ATOMA | GALADRIEL | INFERA | VENICE | NVIDIA | BEDROCK
| OtherProvider (name : jsstring).

(** The handlers defined next to [handleProvider]. *)
Inductive ObjectHandler :=
| handleOpenAI | handleAnthropic | handleGrok | handleGroq
| callGenerateObjectDeprecated
| handleGoogle | handleMistral | handleRedPill | handleOpenRouter
| handleOllama | handleDeepSeek | handleBedrock | handleLivepeer
| handleSecretAi | handleNearAi.

(** The [switch] of [handleProvider]: the handler called, or the throw
    of the [default] case.  [provider] is the text the runtime holds and
    [memberOf] tells which member of [ModelProviderName] it is. *)
Definition handleProvider (memberOf : jsstring -> ModelProviderName)
    (provider : jsstring) : outcome ObjectHandler :=
  match memberOf provider with
  | OPENAI | ETERNALAI | ALI_BAILIAN | VOLENGINE | LLAMACLOUD | TOGETHER
  | NANOGPT | AKASH_CHAT_API | LMSTUDIO => Ret handleOpenAI
  | ANTHROPIC | CLAUDE_VERTEX => Ret handleAnthropic
  | GROK => Ret handleGrok
  | GROQ => Ret handleGroq
  | LLAMALOCAL => Ret callGenerateObjectDeprecated
  | GOOGLE => Ret handleGoogle
  | MISTRAL => Ret handleMistral
  | REDPILL => Ret handleRedPill
  | OPENROUTER => Ret handleOpenRouter
  | OLLAMA => Ret handleOllama
  | DEEPSEEK => Ret handleDeepSeek
  | LIVEPEER => Ret handleLivepeer
  | SECRETAI => Ret handleSecretAi
  | NEARAI => Ret handleNearAi
  | _ => Throw (ErrorText (lit "Unsupported provider: " ++ provider))
  end.

(** The [case] blocks of the provider [switch] of [generateText]: the
    block shared by the OpenAI-compatible providers, a block of its own,
    or the [default] case, which throws. *)
Inductive TextCase :=
| OpenAICompatible
| OwnCase (provider : ModelProviderName).

Definition generateText_case (provider : ModelProviderName) : option TextCase :=
  match provider with
  | OPENAI | ALI_BAILIAN | VOLENGINE | LLAMACLOUD | NANOGPT | HYPERBOLIC
  | TOGETHER | NINETEEN_AI | AKASH_CHAT_API | LMSTUDIO | NEARAI =>
    Some OpenAICompatible
  | OtherProvider _ => None
  | p => Some (OwnCase p)
  end.

(** [generateObject]; [memberOf] tells which member of
    [ModelProviderName] the runtime's [modelProvider] is, and [call h
    context] is what the handler [h] comes to on the trimmed context.
    The log entries carry the fixed part of what is logged. *)
Definition generateObject {R : Type} (im : Imports) (rt : Runtime)
    (memberOf : jsstring -> ModelProviderName)
    (call : ObjectHandler -> jsstring -> outcome R)
    (context modelClass : jsstring) : outcome R * list Event :=
  if str_falsy context then
    (Throw (MkError "generateObject context is empty"),
     [LogError "generateObject context is empty"])
  else
    let provider := modelProvider rt in
    let modelSettings := getModelSettings im (modelProvider rt) modelClass in
    let max_context_length := maxInputTokens modelSettings in
    match trimTokens im rt context max_context_length with
    | Throw error => (Throw error, [LogError "Error in generateObject:"])
    | Ret context' =>
      match handleProvider memberOf provider with
      | Throw error =>
        (Throw error,
         [LogError "Unsupported provider"; LogError "Error in generateObject:"])
      | Ret handler =>
        match call handler context' with
        | Ret response => (Ret response, [])
        | Throw error => (Throw error, [LogError "Error in generateObject:"])
        end
      end
    end.

(* ================================================================= *)
(** ** [generateImage] *)

(** The fields of [data] the function reads; numeric options are integers
    here. *)
Record ImageData := {
  prompt : jsstring;
  width : Z;
  height : Z;
  count : option Z;
  negativePrompt : option jsstring;
  numIterations : option Z;
  guidanceScale : option Z
}.

(** [v || d] for an optional number and for an optional string. *)
Definition num_or (v : option Z) (d : Z) : Z :=
  match v with
  | Some n => if n =? 0 then d else n
  | None => d
  end.

Definition str_or (v : option jsstring) (d : jsstring) : jsstring :=
  match v with
  | Some s => if str_falsy s then d else s
  | None => d
  end.

Record RenderNetBody := {
  aspect_ratio : jsstring;
  batch_size : Z;
  cfg_scale : Z;
  rn_model : jsstring;
  positive : jsstring;
  negative : jsstring;
  steps : Z;
  quality : jsstring
}.

(** An HTTP exchange: [fetch] rejects ([Throw]), or answers with [ok]
    false, or answers with a body whose reading ([json()], [blob()]) may
    itself reject. *)
Inductive HttpResponse (A : Type) :=
| NotOk (status : Z) (text : jsstring)
| OkBody (body : outcome A).
Arguments NotOk {A} status text.
Arguments OkBody {A} body.

(** [result.data.generation_id] of the submission answer. *)
Record SubmitBody := { generation_id : option jsstring }.

Record MediaItem := {
  mi_type : option jsstring;
  mi_url : option jsstring
}.

(** A status answer: [data?.result], [data?.media] when it is an array,
    and [JSON.stringify(err)]. *)
Record StatusBody := {
  sb_result : option jsstring;
  sb_media : option (list MediaItem);
  sb_err : jsstring
}.

(** The RenderNet service as [generateImage] meets it; [poll k] is the
    answer to the [k]-th status request (counted from 1), and
    [settledAt url] is the time at which the download of [url] is
    settled, its image read or its failure known (the downloads run side
    by side). *)
Record RenderNet := {
  submit : jsstring -> jsstring -> RenderNetBody
           -> outcome (HttpResponse SubmitBody);
  poll : nat -> jsstring -> jsstring -> outcome (HttpResponse StatusBody);
  fetchImage : jsstring -> outcome (HttpResponse jsstring);
  settledAt : jsstring -> nat
}.

Inductive ImageEvent :=
| ILog (level : string) (message : jsstring)
| HttpPost (url apiKey : jsstring) (body : RenderNetBody)
| Sleep (ms : Z)
| GetStatus (url apiKey : jsstring)
| GetImage (url : jsstring).

Inductive ImageError :=
| ApiKeyNotSet
| ApiError (status : Z) (text : jsstring)
| InvalidResponseFormat
| GenerationFailed (err : jsstring)
| NoValidResult
| NoImages
| Caught (e : JsError).

Record ImageResult := {
  success : bool;
  data : option (list jsstring);
  error : option ImageError
}.

Definition failure (e : ImageError) : ImageResult :=
  {| success := false; data := None; error := Some e |}.

Definition rendernetUrl : jsstring :=
  lit "https://api.rendernet.ai/pub/v1/generations".

Definition standardizedAspectRatio (d : ImageData) : jsstring :=
  if width d =? height d then lit "1:1"
  else if width d >? height d then lit "3:2" else lit "2:3".

Definition rendernetBody (model : jsstring) (d : ImageData) : RenderNetBody :=
  {| aspect_ratio := standardizedAspectRatio d;
     batch_size := num_or (count d) 1;
     cfg_scale := num_or (guidanceScale d) 7;
     rn_model := str_or (Some model) (lit "JuggernautXL");
     positive := prompt d;
     negative := str_or (negativePrompt d)
                   (lit "nsfw, deformed, extra limbs, bad anatomy");
     steps := num_or (numIterations d) 30;
     quality := lit "Plus" |}.

Definition maxAttempts : nat := 30.
Arguments maxAttempts : simpl never.

(** How the polling loop is left. *)
Inductive PollExit :=
| LoopDone (generationResult : option StatusBody)   (* [break] or budget spent *)
| JobFailed (err : jsstring)                        (* the [return] on "failed" *)
| PollThrew (e : JsError).                          (* to the outer [catch] *)

(** The polling loop; [remaining] is [maxAttempts - attempts]. *)
Fixpoint pollLoop (rn : RenderNet) (url apiKey : jsstring)
    (remaining attempts : nat) (generationResult : option StatusBody)
    : PollExit * list ImageEvent :=
  match remaining with
  | O => (LoopDone generationResult, [])
  | S remaining' =>
    let attempts' := S attempts in
    let request := [Sleep 2000; GetStatus url apiKey] in
    match poll rn attempts' url apiKey with
    | Throw e => (PollThrew e, request)
    | Ret (NotOk _ _) =>
      let '(x, ev) := pollLoop rn url apiKey remaining' attempts' generationResult in
      (x, request ++ ev)
    | Ret (OkBody (Throw e)) => (PollThrew e, request)
    | Ret (OkBody (Ret g)) =>
      if bool_decide (sb_result g = Some (lit "completed")) then
        (LoopDone (Some g), request)
      else if bool_decide (sb_result g = Some (lit "failed")) then
        (JobFailed (sb_err g),
         request ++ [ILog "error" (lit "RenderNet generation failed: " ++ sb_err g)])
      else
        let '(x, ev) := pollLoop rn url apiKey remaining' attempts' (Some g) in
        (x, request ++ ev)
    end
  end.

Definition is_image (item : MediaItem) : bool :=
  bool_decide (mi_type item = Some (lit "image")) && negb (opt_falsy (mi_url item)).

(** One element of [base64Promises]. *)
Definition fetchBase64 (rn : RenderNet) (item : MediaItem) : outcome jsstring :=
  match fetchImage rn (default [] (mi_url item)) with
  | Throw e => Throw e
  | Ret (NotOk _ statusText) =>
    Throw (ErrorText (lit "Failed to fetch image: " ++ statusText))
  | Ret (OkBody (Throw e)) => Throw e
  | Ret (OkBody (Ret base64)) => Ret (lit "data:image/png;base64," ++ base64)
  end.

(** An element of [base64Promises] with the time at which it settles. *)
Definition download (rn : RenderNet) (item : MediaItem)
    : nat * outcome jsstring :=
  (settledAt rn (default [] (mi_url item)), fetchBase64 rn item).

(** The rejection that comes first in time, if any; of two that come at
    the same time, the one of the earlier promise. *)
Fixpoint firstRejection {A : Type} (l : list (nat * outcome A))
    : option (nat * JsError) :=
  match l with
  | [] => None
  | (t, o) :: rest =>
    match o with
    | Ret _ => firstRejection rest
    | Throw e =>
      match firstRejection rest with
      | Some (t', e') => if (t' <? t)%nat then Some (t', e') else Some (t, e)
      | None => Some (t, e)
      end
    end
  end.

Definition fulfilled {A : Type} (l : list (nat * outcome A)) : list A :=
  omap (fun p => match snd p with Ret a => Some a | Throw _ => None end) l.

(** [Promise.all] over promises given with the times at which they
    settle: all the values, in the order of the promises, or the first
    rejection. *)
Definition promiseAll {A : Type} (l : list (nat * outcome A))
    : outcome (list A) :=
  match firstRejection l with
  | Some (_, e) => Throw e
  | None => Ret (fulfilled l)
  end.

(** What follows the polling loop. *)
Definition collectImages (rn : RenderNet) (generationResult : option StatusBody)
    : ImageResult * list ImageEvent :=
  match generationResult with
  | None =>
    (failure NoValidResult,
     [ILog "error" (lit "Failed to get valid generation result from RenderNet")])
  | Some g =>
    match sb_media g with
    | None =>
      (failure NoValidResult,
       [ILog "error" (lit "Failed to get valid generation result from RenderNet")])
    | Some media =>
      let images := List.filter is_image media in
      let fetches := map (fun item => GetImage (default [] (mi_url item))) images in
      match promiseAll (map (download rn) images) with
      | Throw e => (failure (Caught e), fetches)
      | Ret base64s =>
        if (length base64s =? 0)%nat then
          (failure NoImages,
           fetches ++ [ILog "error" (lit "No images generated by RenderNet")])
        else
          ({| success := true; data := Some base64s; error := None |}, fetches)
      end
    end
  end.

(** The [try] block of [generateImage]. *)
Definition generateImageBody (rn : RenderNet) (model : jsstring)
    (apiKey : option jsstring) (d : ImageData) : ImageResult * list ImageEvent :=
  if opt_falsy apiKey then
    (failure ApiKeyNotSet, [ILog "error" (lit "RENDERNET_API_KEY is not set")])
  else
    let key := default [] apiKey in
    let body := rendernetBody model d in
    let post := [ILog "info" (lit "Generating image with RenderNet");
                 HttpPost rendernetUrl key body] in
    match submit rn rendernetUrl key body with
    | Throw e => (failure (Caught e), post)
    | Ret (NotOk status errorText) =>
      (failure (ApiError status errorText),
       post ++ [ILog "error" (lit "RenderNet API error: " ++ errorText)])
    | Ret (OkBody (Throw e)) => (failure (Caught e), post)
    | Ret (OkBody (Ret result)) =>
      if opt_falsy (generation_id result) then
        (failure InvalidResponseFormat,
         post ++ [ILog "error" (lit "Invalid response format from RenderNet AI")])
      else
        let generationId := default [] (generation_id result) in
        let statusUrl := rendernetUrl ++ lit "/" ++ generationId in
        match pollLoop rn statusUrl key maxAttempts 0 None with
        | (PollThrew e, ev) => (failure (Caught e), post ++ ev)
        | (JobFailed err, ev) => (failure (GenerationFailed err), post ++ ev)
        | (LoopDone generationResult, ev) =>
          let '(r, ev') := collectImages rn generationResult in
          (r, post ++ ev ++ ev')
        end
    end.

(** [renderNetSettings?.name || "JuggernautXL"]. *)
Definition renderNetModel (im : Imports) : jsstring :=
  let renderNetSettings :=
    getImageModelSettings im (ModelProviderName_RENDERNET im) in
  str_or (renderNetSettings ≫= ims_name) (lit "JuggernautXL").

Definition generateImage (im : Imports) (rt : Runtime) (rn : RenderNet)
    (d : ImageData) : ImageResult * list ImageEvent :=
  let originalProvider := imageModelProvider rt in
  let model := renderNetModel im in
  let apiKey := getSetting rt "RENDERNET_API_KEY" in
  let '(r, ev) := generateImageBody rn model apiKey d in
  (r,
   [ILog "info" (lit "Original provider setting was: " ++ originalProvider);
    ILog "info" (lit "FORCING IMAGE GENERATION WITH RENDERNET.AI - NEVER USING OPENAI");
    ILog "info" (lit "Generating image with RenderNet.ai, requestedProvider: "
                 ++ originalProvider ++ lit ", model: " ++ model)] ++ ev).

(** The status requests and all the HTTP requests of a trace. *)
Definition polls (evs : list ImageEvent) : nat :=
  length (List.filter
            (fun e => match e with GetStatus _ _ => true | _ => false end) evs).

Definition requests (evs : list ImageEvent) : list ImageEvent :=
  List.filter (fun e => match e with ILog _ _ => false | _ => true end) evs.

(** The sleeps, the submissions and the image downloads of a trace. *)
Definition sleeps (evs : list ImageEvent) : list Z :=
  omap (fun e => match e with Sleep ms => Some ms | _ => None end) evs.

Definition submissions (evs : list ImageEvent)
    : list (jsstring * jsstring * RenderNetBody) :=
  omap (fun e => match e with
                 | HttpPost url key body => Some (url, key, body)
                 | _ => None
                 end) evs.

Definition imageFetches (evs : list ImageEvent) : list jsstring :=
  omap (fun e => match e with GetImage url => Some url | _ => None end) evs.

(** A PNG data URL. *)
Definition dataUrl (s : jsstring) : Prop :=
  exists base64, s = lit "data:image/png;base64," ++ base64.

(** A status answer that leaves the job in progress: [ok] false, or a
    body whose [result] is neither "completed" nor "failed". *)
Definition pending (o : outcome (HttpResponse StatusBody)) : Prop :=
  match o with
  | Ret (NotOk _ _) => True
  | Ret (OkBody (Ret g)) =>
    sb_result g <> Some (lit "completed") /\ sb_result g <> Some (lit "failed")
  | _ => False
  end.

(** The last status body seen, if any, carries no media array. *)
Definition carriesNoMedia (g : option StatusBody) : Prop :=
  match g with
  | Some b => sb_media b = None
  | None => True
  end.

(** A pending answer that carries no media array. *)
Definition noMedia (o : outcome (HttpResponse StatusBody)) : Prop :=
  match o with
  | Ret (OkBody (Ret g)) => sb_media g = None
  | _ => True
  end.

(* ================================================================= *)
(** ** The scheduled publishing loop *)

(** Numbers are IEEE 754 doubles.  A double is written here as the
    fraction [(n, d)] it is equal to, [d] a power of two, and an integer
    valued double as that integer.  Every operation yields the double
    nearest to its exact result, ties going to the even significand;
    magnitudes from [2^1024] on, where the engine answers [Infinity], are
    outside the model. *)

(** The integer nearest to [a / b], for [b > 0]; the even one of two. *)
Definition roundHalfEven (a b : Z) : Z :=
  let f := a / b in
  let rem := a mod b in
  if 2 * rem <? b then f
  else if b <? 2 * rem then f + 1
  else if Z.even f then f else f + 1.

(** The [k] with [2^k <= a / b < 2^(k+1)], for [a, b > 0]. *)
Definition binade (a b : Z) : Z :=
  if b <=? a then Z.log2 (a / b) else - Z.log2_up ((b + a - 1) / a).

(** The double nearest to [a / b], for [a >= 0] and [b > 0]: 53
    significant bits, and no bit below [2^-1074]. *)
Definition nearestDouble (a b : Z) : Z * Z :=
  if a =? 0 then (0, 1)
  else
    let k := binade a b in
    if k <=? 52 then
      let t := Z.min (52 - k) 1074 in
      (roundHalfEven (a * 2 ^ t) b, 2 ^ t)
    else
      let s := k - 52 in
      (2 ^ s * roundHalfEven a (b * 2 ^ s), 1).

Definition double_of (a b : Z) : Z * Z :=
  if a <? 0 then let '(n, d) := nearestDouble (- a) b in (- n, d)
  else nearestDouble a b.

Definition Math_floor (x : Z * Z) : Z := fst x / snd x.

(** The double nearest to an integer; it is an integer again. *)
Definition toDouble (z : Z) : Z := Math_floor (double_of z 1).

(** [parseInt(s)] with no radix; [None] is [NaN]. *)
Definition digitOf (c : N) : option Z :=
  if ((48 <=? c) && (c <=? 57))%N then Some (Z.of_N c - 48)
  else if ((97 <=? lower c) && (lower c <=? 102))%N then Some (Z.of_N (lower c) - 87)
  else None.

Fixpoint digitsIn (radix acc : Z) (s : jsstring) : Z :=
  match s with
  | c :: t =>
    match digitOf c with
    | Some v => if v <? radix then digitsIn radix (acc * radix + v) t else acc
    | None => acc
    end
  | [] => acc
  end.

Definition startsWithDigit (radix : Z) (s : jsstring) : bool :=
  match s with
  | c :: _ =>
    match digitOf c with
    | Some v => v <? radix
    | None => false
    end
  | [] => false
  end.

Definition parseInt (s : jsstring) : option Z :=
  let s1 := trimStart s in
  let '(sign, s2) :=
    match s1 with
    | 45%N :: t => (-1, t)
    | 43%N :: t => (1, t)
    | _ => (1, s1)
    end in
  let '(radix, s3) :=
    match s2 with
    | 48%N :: x :: t => if (lower x =? 120)%N then (16, t) else (10, s2)
    | _ => (10, s2)
    end in
  if startsWithDigit radix s3 then Some (toDouble (sign * digitsIn radix 0 s3))
  else None.

Definition DEFAULT_IMAGE_INTERVAL_MIN : jsstring := lit "120".
Definition DEFAULT_IMAGE_INTERVAL_MAX : jsstring := lit "240".

Definition lastImagePostKey : string := "twitter/scheduled/lastImagePost".

(** How the Twitter integration found among the services and clients of
    the runtime exposes [postTweet]. *)
Inductive TwitterClient :=
| OwnPostTweet        (* [twitterClient.postTweet] *)
| NestedPostTweet     (* [twitterClient.client.postTweet] *)
| NoPostTweet.

(** What one cycle meets outside the plugin. *)
Record CycleEnv := {
  now : Z;                                  (* [Date.now()] *)
  random_num : Z;                           (* [Math.random()] is the double *)
  random_den : Z;                           (*   [random_num / random_den] *)
  cacheGetError : option JsError;           (* [cacheManager.get] rejects *)
  cacheSetError : option JsError;           (* [cacheManager.set] rejects *)
  textService : option (outcome jsstring);  (* the text service and its answer *)
  imageOutcome : outcome ImageResult;       (* [generateImage] *)
  saveOutcome : outcome jsstring;           (* [saveImageLocally] *)
  fileExists : bool;                        (* [fs.existsSync(imagePath)] *)
  twitterClient : option TwitterClient;
  readFile : outcome unit;                  (* [fs.readFileSync(imagePath)] *)
  postTweet : jsstring -> outcome unit;
  scraperLogin : outcome bool;              (* [login], then [isLoggedIn()] *)
  sendTweet : jsstring -> outcome bool      (* is [tweetResult] truthy *)
}.

Inductive CycleEvent :=
| CLog (level : string) (message : string)
| SaveImage (imageData : jsstring)
| PostTweet (text : jsstring)
| SendTweet (text : jsstring)
| CacheSet (key : string) (timestamp : Z)
| SetTimeout (ms : option Z).

Definition fallbackPrompt : jsstring :=
  lit "A suggestive but tasteful silhouette of a woman in a doorway, backlit with golden light, creating a mysterious and alluring atmosphere. The composition has a film noir quality with dramatic shadows and a sense of anticipation.".

Definition generateImagePrompt (env : CycleEnv) : outcome jsstring :=
  match textService env with
  | Some (Ret response) => Ret (trim response)
  | Some (Throw e) => Throw e
  | None => Ret fallbackPrompt
  end.

(** The caption, cut to 200 code units with an ellipsis, and the hashtag. *)
Definition tweetTextOf (caption : jsstring) : jsstring :=
  let maxCaptionLength := 200 in
  (if Z.of_nat (length caption) >? maxCaptionLength
   then substring 0 (maxCaptionLength - 3) caption ++ lit "..."
   else caption) ++ lit " #ElizaAI".

Definition postErrorLog : list CycleEvent :=
  [CLog "error" "Error posting image to Twitter:"].

Definition postImageToTwitter (rt : Runtime) (env : CycleEnv)
    (caption : jsstring) : list CycleEvent :=
  let twitterEnabled :=
    negb (opt_falsy (getSetting rt "TWITTER_USERNAME")) &&
    negb (bool_decide (getSetting rt "ENABLE_IMAGE_POSTING" = Some (lit "false"))) in
  if negb twitterEnabled then [CLog "info" "Twitter posting is disabled"]
  else if negb (fileExists env) then [CLog "error" "Image file not found"]
  else
    match twitterClient env with
    | Some client =>
      let tweetText := tweetTextOf caption in
      match readFile env with
      | Throw _ => postErrorLog
      | Ret _ =>
        match client with
        | OwnPostTweet | NestedPostTweet =>
          match postTweet env tweetText with
          | Ret _ => [PostTweet tweetText]
          | Throw _ => PostTweet tweetText :: postErrorLog
          end
        | NoPostTweet =>
          [CLog "error" "Twitter client doesn't have postTweet method"]
        end
      end
    | None =>
      if opt_falsy (getSetting rt "TWITTER_USERNAME") ||
         opt_falsy (getSetting rt "TWITTER_PASSWORD") then
        [CLog "error" "Twitter credentials not configured"]
      else
        match scraperLogin env with
        | Throw _ => postErrorLog
        | Ret false => [CLog "error" "Failed to login to Twitter"]
        | Ret true =>
          let tweetText := tweetTextOf caption in
          match readFile env with
          | Throw _ => postErrorLog
          | Ret _ =>
            match sendTweet env tweetText with
            | Throw _ => SendTweet tweetText :: postErrorLog
            | Ret true =>
              [SendTweet tweetText;
               CLog "info" "Successfully posted tweet with image directly"]
            | Ret false =>
              [SendTweet tweetText; CLog "error" "Failed to post tweet directly"]
            end
          end
        end
    end.

Definition pipelineErrorLog : list CycleEvent :=
  [CLog "error" "Error generating and posting image:"].

(** [generateAndPostImage] catches everything: it never throws. *)
Definition generateAndPostImage (rt : Runtime) (env : CycleEnv)
    : list CycleEvent :=
  match generateImagePrompt env with
  | Throw _ => pipelineErrorLog
  | Ret imagePrompt =>
    match imageOutcome env with
    | Throw _ => pipelineErrorLog
    | Ret imageResult =>
      match success imageResult, data imageResult with
      | true, Some (imageUrl :: _) =>
        match saveOutcome env with
        | Throw _ => SaveImage imageUrl :: pipelineErrorLog
        | Ret localPath =>
          SaveImage imageUrl :: postImageToTwitter rt env imagePrompt
        end
      | _, _ => [CLog "error" "Failed to generate image"]
      end
    end
  end.

(** [Math.floor(Math.random() * (maxMinutes - minMinutes + 1)) + minMinutes],
    each operation in doubles. *)
Definition randomMinutesOf (env : CycleEnv) (minMinutes maxMinutes : option Z)
    : option Z :=
  match minMinutes, maxMinutes with
  | Some lo, Some hi =>
    let n := toDouble (toDouble (hi - lo) + 1) in
    let product := double_of (random_num env * n) (random_den env) in
    Some (toDouble (Math_floor product + lo))
  | _, _ => None
  end.

(** [randomMinutes * 60 * 1000]. *)
Definition minutesToMs (randomMinutes : Z) : Z :=
  toDouble (toDouble (randomMinutes * 60) * 1000).

Definition recoveryDelay : Z := 15 * 60 * 1000.

(** One run of [generateImageLoop]: the cache afterwards and what was
    done.  A comparison with [NaN] is false.  [Date.now()] is an integer
    below [2^53] in magnitude, and such a number is above the double
    nearest to [lastPostTimestamp + delay] exactly when it is above that
    sum itself (the lemma [above_double_sum] below), so the comparison
    is written on the sum. *)
Definition generateImageLoop (rt : Runtime) (env : CycleEnv)
    (cache : gmap string Z) : gmap string Z * list CycleEvent :=
  let recover :=
    [CLog "error" "Error in image generation loop:";
     SetTimeout (Some recoveryDelay)] in
  match cacheGetError env with
  | Some _ => (cache, recover)
  | None =>
    let lastPostTimestamp := default 0 (cache !! lastImagePostKey) in
    let minMinutes :=
      parseInt (str_or (getSetting rt "IMAGE_POST_INTERVAL_MIN")
                  DEFAULT_IMAGE_INTERVAL_MIN) in
    let maxMinutes :=
      parseInt (str_or (getSetting rt "IMAGE_POST_INTERVAL_MAX")
                  DEFAULT_IMAGE_INTERVAL_MAX) in
    let randomMinutes := randomMinutesOf env minMinutes maxMinutes in
    let delay := minutesToMs <$> randomMinutes in
    let due :=
      match delay with
      | Some dl => now env >? lastPostTimestamp + dl
      | None => false
      end in
    let nextDelay := minutesToMs <$> randomMinutes in
    let reschedule :=
      [SetTimeout nextDelay; CLog "info" "Next image generation scheduled"] in
    if due then
      let work :=
        CLog "info" "Generating and posting scheduled image"
        :: generateAndPostImage rt env in
      match cacheSetError env with
      | Some _ => (cache, work ++ recover)
      | None =>
        (<[lastImagePostKey := now env]> cache,
         work ++ CacheSet lastImagePostKey (now env) :: reschedule)
      end
    else (cache, reschedule)
  end.

(** The delay a cycle chooses, in milliseconds. *)
Definition chosenDelay (rt : Runtime) (env : CycleEnv) : option Z :=
  minutesToMs <$>
    randomMinutesOf env
      (parseInt (str_or (getSetting rt "IMAGE_POST_INTERVAL_MIN")
                   DEFAULT_IMAGE_INTERVAL_MIN))
      (parseInt (str_or (getSetting rt "IMAGE_POST_INTERVAL_MAX")
                   DEFAULT_IMAGE_INTERVAL_MAX)).

(** What a trace shows: the tweets sent, the delays scheduled, the
    watermark writes, and whether the publishing pipeline was run. *)
Definition tweets (evs : list CycleEvent) : list jsstring :=
  omap (fun e => match e with
                 | PostTweet t | SendTweet t => Some t
                 | _ => None
                 end) evs.

Definition scheduled (evs : list CycleEvent) : list (option Z) :=
  omap (fun e => match e with SetTimeout ms => Some ms | _ => None end) evs.

Definition watermarkWrites (evs : list CycleEvent) : list Z :=
  omap (fun e => match e with CacheSet _ ts => Some ts | _ => None end) evs.

Definition savedImages (evs : list CycleEvent) : list jsstring :=
  omap (fun e => match e with SaveImage d => Some d | _ => None end) evs.

(** The collaborators of the pipeline all succeed: a prompt is produced,
    an image is generated and saved, and the Twitter integration posts. *)
Definition pipelineSucceeds (rt : Runtime) (env : CycleEnv) : Prop :=
  (exists p, generateImagePrompt env = Ret p) /\
  (exists url rest,
     imageOutcome env =
       Ret {| success := true; data := Some (url :: rest); error := None |}) /\
  (exists path, saveOutcome env = Ret path) /\
  opt_falsy (getSetting rt "TWITTER_USERNAME") = false /\
  getSetting rt "ENABLE_IMAGE_POSTING" <> Some (lit "false") /\
  fileExists env = true /\
  twitterClient env = Some OwnPostTweet /\
  readFile env = Ret () /\
  (forall t, postTweet env t = Ret ()).

(* ================================================================= *)
(** ** [extractTweetContent] *)

(** The double quote, and [lit] with every tilde standing for one. *)
Definition dq : N := 34%N.

Definition qlit (s : string) : jsstring :=
  map (fun c => if (c =? 126)%N then dq else c) (lit s).

Definition is_dq (c : N) : bool := (c =? dq)%N.
Definition not_dq (c : N) : bool := negb (c =? dq)%N.

(** [JSON.parse] on a text of the shape the first pattern admits, an
    object with the single member [text] holding a string; the value of
    that member, or [None] when [JSON.parse] throws a SyntaxError. *)
Definition json_ws (c : N) : bool :=
  ((c =? 32) || (c =? 9) || (c =? 10) || (c =? 13))%N.

Fixpoint skip_json_ws (s : jsstring) : jsstring :=
  match s with
  | c :: t => if json_ws c then skip_json_ws t else s
  | [] => []
  end.

Definition hexOf (c : N) : option N :=
  if ((48 <=? c) && (c <=? 57))%N then Some (c - 48)%N
  else if ((97 <=? lower c) && (lower c <=? 102))%N then Some (lower c - 87)%N
  else None.

(** The characters of a JSON string up to its closing quote, escapes
    decoded, and what follows the quote. *)
Fixpoint json_string_body (s : jsstring) : option (jsstring * jsstring) :=
  match s with
  | [] => None
  | c :: t =>
    if (c =? dq)%N then Some ([], t)
    else if (c =? 92)%N then
      match t with
      | e :: t1 =>
        if (e =? 117)%N then
          match t1 with
          | h1 :: h2 :: h3 :: h4 :: t2 =>
            match hexOf h1, hexOf h2, hexOf h3, hexOf h4 with
            | Some a, Some b, Some c3, Some d =>
              match json_string_body t2 with
              | Some (r, rest) =>
                Some ((a * 4096 + b * 256 + c3 * 16 + d)%N :: r, rest)
              | None => None
              end
            | _, _, _, _ => None
            end
          | _ => None
          end
        else
          let decoded :=
            if (e =? dq)%N then Some dq
            else if (e =? 92)%N then Some 92%N
            else if (e =? 47)%N then Some 47%N
            else if (e =? 98)%N then Some 8%N
            else if (e =? 102)%N then Some 12%N
            else if (e =? 110)%N then Some 10%N
            else if (e =? 114)%N then Some 13%N
            else if (e =? 116)%N then Some 9%N
            else None in
          match decoded, json_string_body t1 with
          | Some x, Some (r, rest) => Some (x :: r, rest)
          | _, _ => None
          end
      | [] => None
      end
    else if (c <? 32)%N then None
    else
      match json_string_body t with
      | Some (r, rest) => Some (c :: r, rest)
      | None => None
      end
  end.

Definition expect (cs : jsstring) (s : jsstring) : option jsstring :=
  if bool_decide (take (length cs) s = cs) then Some (drop (length cs) s)
  else None.

Definition JSON_parse_text (s : jsstring) : option jsstring :=
  s1 ← expect (lit "{") (skip_json_ws s);
  s2 ← expect (qlit "~text~") (skip_json_ws s1);
  s3 ← expect (lit ":") (skip_json_ws s2);
  s4 ← expect [dq] (skip_json_ws s3);
  '(text, s5) ← json_string_body s4;
  s6 ← expect (lit "}") (skip_json_ws s5);
  if str_falsy (skip_json_ws s6) then Some text else None.

(** Writing Q for the double quote: [/\{\s*QtextQ\s*:\s*Q([^Q]* )Q\s*\}/]. *)
Definition jsonRegex : re :=
  seqs [Cls (chr_is "{"); Star is_space;
        Cls is_dq; str_re (lit "text"); Cls is_dq;
        Star is_space; Cls (chr_is ":"); Star is_space;
        Cls is_dq; Cap (Star not_dq); Cls is_dq;
        Star is_space; Cls (chr_is "}")].

(** [/\{[^\}]*QtextQ\s*:\s*Q([^Q]* )Q[^\}]*\}/], with Q as above. *)
Definition actionJsonRegex : re :=
  seqs [Cls (chr_is "{"); Star (chr_isnt "}");
        Cls is_dq; str_re (lit "text"); Cls is_dq;
        Star is_space; Cls (chr_is ":"); Star is_space;
        Cls is_dq; Cap (Star not_dq); Cls is_dq;
        Star (chr_isnt "}"); Cls (chr_is "}")].

Definition is_word (c : N) : bool :=
  ((97 <=? lower c) && (lower c <=? 122) || (48 <=? c) && (c <=? 57)
   || (c =? 95))%N.

(** The five patterns of [prefixesToRemove], with whether each starts
    with [^]:
    [/^Here is the (response|tweet)[^:]*:\s*/i],
    [/^Here('s| is) a tweet[^:]*:\s*/i],
    [/^Tweet from @?[a-zA-Z0-9_]+:\s*/i],
    [/^\s*```json\s*/] and [/\s*```\s*$/]. *)
Definition prefixesToRemove : list (bool * re) :=
  [(true, seqs [str_re_ci (lit "Here is the ");
                Alt (str_re_ci (lit "response")) (str_re_ci (lit "tweet"));
                Star (chr_isnt ":"); Cls (chr_is ":"); Star is_space]);
   (true, seqs [str_re_ci (lit "Here");
                Alt (str_re_ci (lit "'s")) (str_re_ci (lit " is"));
                str_re_ci (lit " a tweet");
                Star (chr_isnt ":"); Cls (chr_is ":"); Star is_space]);
   (true, seqs [str_re_ci (lit "Tweet from "); Opt (Cls (chr_is "@"));
                Plus is_word; Cls (chr_is ":"); Star is_space]);
   (true, seqs [Star is_space; str_re (lit "```json"); Star is_space]);
   (false, seqs [Star is_space; str_re (lit "```"); Star is_space; Eoi])].

(** Strategy 3: strip the known prefixes and use the text directly. *)
Definition strategy3 (responseText : jsstring) : option jsstring :=
  if Z.of_nat (length responseText) <? 280 then
    let cleanedText :=
      fold_left (fun text p => replace_empty (fst p) (snd p) text)
                prefixesToRemove responseText in
    if bool_decide (cleanedText = responseText) then None
    else Some (trim cleanedText)
  else None.

(** Strategy 2: the action-style format. *)
Definition strategy2 (responseText : jsstring) : option jsstring :=
  match str_match actionJsonRegex responseText with
  | Some actionMatch =>
    if opt_falsy (m_1 actionMatch) then strategy3 responseText
    else Some (trim (default [] (m_1 actionMatch)))
  | None => strategy3 responseText
  end.

(** [extractTweetContent]; [None] is [null]. *)
Definition extractTweetContent (responseText : jsstring) : option jsstring :=
  match str_match jsonRegex responseText with
  | Some jsonMatch =>
    match JSON_parse_text (m_0 jsonMatch) with
    | Some text =>
      if str_falsy text then strategy2 responseText
      else Some (trim text)
    | None =>
      if opt_falsy (m_1 jsonMatch) then strategy2 responseText
      else Some (trim (default [] (m_1 jsonMatch)))
    end
  | None => strategy2 responseText
  end.

(** A text with no white space at either end. *)
Definition trimmed (s : jsstring) : Prop :=
  (forall c r, s = c :: r -> is_space c = false) /\
  (forall r c, s = r ++ [c] -> is_space c = false).

(** A code unit that stands for itself inside JSON quotes and is not a
    double quote: no backslash, no control character. *)
Definition plain (c : N) : bool :=
  negb (c =? dq)%N && negb (c =? 92)%N && negb (c <? 32)%N.

(* ================================================================= *)
(** ** [TextGenerationService] *)

(** An object as its callers see it: the callable properties by name.
    Calling a property the object does not have throws a TypeError. *)
Definition ServiceObject := gmap string (jsstring -> outcome jsstring).

Definition callMethod (service : ServiceObject) (name : string)
    (arg : jsstring) : outcome jsstring :=
  match service !! name with
  | Some method => method arg
  | None => Throw (MkError "TypeError: not a function")
  end.

(** [queueTextCompletion]: [generateText] on the large model class, what
    it throws being logged and thrown again. *)
Definition queueTextCompletion (tp : Transport) (k : nat) (context : jsstring)
    : outcome jsstring * list Event :=
  match generateText tp k (request context (lit "large") None) with
  | (Ret text, ev) => (Ret text, ev)
  | (Throw error, ev) => (Throw error, ev ++ [LogError "Error in queueTextCompletion:"])
  end.

(** The methods of an instance of [TextGenerationService];
    [queueMessageCompletion] stands for the call of [generateObject]. *)
Definition TextGenerationService (tp : Transport)
    (queueMessageCompletion : jsstring -> outcome jsstring) : ServiceObject :=
  <["initialize" := fun _ => Ret []]>
  (<["initializeModel" := fun _ => Ret []]>
  (<["queueMessageCompletion" := queueMessageCompletion]>
  (<["queueTextCompletion" := fun context => fst (queueTextCompletion tp 0 context)]>
  (<["getEmbeddingResponse" := fun _ => Ret []]> ∅)))).

Definition IMAGE_PROMPT_TEMPLATE : jsstring :=
  lit "
Create a detailed, vivid, and engaging image description that would work well for an AI image generator.
The description should be sexually suggestive but not explicit, focusing on flirty innuendo rather than explicit content.
Create a scene that hints at sexuality while remaining tasteful and appropriate for social media platforms.
Use descriptive language that creates a clear mental image with details about setting, mood, and composition.
The description should be 2-3 sentences long and focus on a single coherent scene.
".

(** What [generateImagePrompt] gets from the service registered under
    [ServiceType.TEXT_GENERATION], if any: it calls the service's
    [generateText]. *)
Definition promptFrom (service : option ServiceObject)
    : option (outcome jsstring) :=
  (fun s => callMethod s "generateText" IMAGE_PROMPT_TEMPLATE) <$> service.

(* ================================================================= *)
(** ** [saveImageLocally] *)

(** The file system and the network as [saveImageLocally] meets them;
    [fromBase64] is [Buffer.from(s, "base64")]. *)
Record SaveEnv := {
  cwd : jsstring;
  pathJoin : list jsstring -> jsstring;
  existsSync : jsstring -> bool;
  mkdirSync : jsstring -> outcome unit;
  httpGet : jsstring -> outcome (HttpResponse (list N));
  fromBase64 : jsstring -> list N;
  writeFileSync : jsstring -> list N -> outcome unit
}.

Inductive SaveEvent :=
| Mkdir (dir : jsstring)
| Fetch (url : jsstring)
| WriteFile (path : jsstring) (bytes : list N)
| SLog (message : jsstring).

Definition startsWith (prefix s : jsstring) : bool :=
  bool_decide (take (length prefix) s = prefix).

(** [/^data:image\/\w+;base64,/]. *)
Definition dataUrlHeader : re :=
  seqs [str_re (lit "data:image/"); Plus is_word; str_re (lit ";base64,")].

Definition writeImage (env : SaveEnv) (filepath : jsstring) (bytes : list N)
    (done : list SaveEvent) : outcome jsstring * list SaveEvent :=
  match writeFileSync env filepath bytes with
  | Throw e => (Throw e, done ++ [WriteFile filepath bytes])
  | Ret _ =>
    (Ret filepath,
     done ++ [WriteFile filepath bytes; SLog (lit "Image saved to: " ++ filepath)])
  end.

Definition saveImageTo (env : SaveEnv) (imageData filepath : jsstring)
    (done : list SaveEvent) : outcome jsstring * list SaveEvent :=
  if startsWith (lit "http") imageData then
    match httpGet env imageData with
    | Throw e => (Throw e, done ++ [Fetch imageData])
    | Ret (NotOk _ statusText) =>
      (Throw (ErrorText (lit "Failed to fetch image: " ++ statusText)),
       done ++ [Fetch imageData])
    | Ret (OkBody (Throw e)) => (Throw e, done ++ [Fetch imageData])
    | Ret (OkBody (Ret arrayBuffer)) =>
      writeImage env filepath arrayBuffer (done ++ [Fetch imageData])
    end
  else
    let base64Image := replace_empty true dataUrlHeader imageData in
    writeImage env filepath (fromBase64 env base64Image) done.

Definition saveImageLocally (env : SaveEnv) (imageData filename : jsstring)
    : outcome jsstring * list SaveEvent :=
  let imageDir := pathJoin env [cwd env; lit "agent"; lit "generatedImages"] in
  let filepath := pathJoin env [imageDir; filename ++ lit ".png"] in
  if existsSync env imageDir then saveImageTo env imageData filepath []
  else
    match mkdirSync env imageDir with
    | Throw e => (Throw e, [Mkdir imageDir])
    | Ret _ => saveImageTo env imageData filepath [Mkdir imageDir]
    end.

(** The downloads and the files written of a trace. *)
Definition fetched (evs : list SaveEvent) : list jsstring :=
  omap (fun e => match e with Fetch url => Some url | _ => None end) evs.

Definition written (evs : list SaveEvent) : list (jsstring * list N) :=
  omap (fun e => match e with
                 | WriteFile path bytes => Some (path, bytes)
                 | _ => None
                 end) evs.

(* ================================================================= *)
(** ** A byte-level tokenizer

    The encoding of a byte-pair vocabulary without merges: one token per
    UTF-8 byte.  Decoding replaces a byte that is not part of a
    well-formed sequence by U+FFFD, as the [TextDecoder] behind
    [decode] does.  Code units are encoded one by one (sequences of up
    to three bytes). *)

Module Utf8Bytes.

Definition encode_cu (c : N) : list N :=
  if (c <? 128)%N then [c]
  else if (c <? 2048)%N then [(192 + c / 64)%N; (128 + c mod 64)%N]
  else [(224 + c / 4096)%N; (128 + (c / 64) mod 64)%N; (128 + c mod 64)%N].

Definition is_cont (b : N) : bool := (128 <=? b)%N && (b <? 192)%N.

Fixpoint decode_bytes (bs : list N) : jsstring :=
  match bs with
  | [] => []
  | b :: r =>
    if (b <? 128)%N then b :: decode_bytes r
    else if (194 <=? b)%N && (b <? 224)%N then
      match r with
      | b1 :: r1 =>
        if is_cont b1 then ((b - 192) * 64 + (b1 - 128))%N :: decode_bytes r1
        else 65533%N :: decode_bytes r
      | [] => [65533%N]
      end
    else if (224 <=? b)%N && (b <? 240)%N then
      match r with
      | b1 :: b2 :: r2 =>
        if is_cont b1 && is_cont b2 then
          ((b - 224) * 4096 + (b1 - 128) * 64 + (b2 - 128))%N :: decode_bytes r2
        else 65533%N :: decode_bytes r
      | _ => 65533%N :: decode_bytes r
      end
    else 65533%N :: decode_bytes r
  end.

Definition encoding : Encoding := {|
  encode := fun s => Ret (flat_map encode_cu s);
  decode := fun bs => Ret (decode_bytes bs)
|}.

End Utf8Bytes.

(* ================================================================= *)
(** ** Sample environments *)

(** Imports and a runtime to run the definitions on. *)
Definition sampleImports : Imports := {|
  encodingForModel := fun _ => Ret Utf8Bytes.encoding;
  TokenizerType_TikToken := lit "tiktoken";
  ModelProviderName_RENDERNET := lit "rendernet";
  getModelSettings := fun _ _ => {| ms_stop := None; maxInputTokens := 128000 |};
  getImageModelSettings := fun _ => None;
  parseShouldRespondFromText := fun s =>
    if jsstring_eqb s (lit "RESPOND") then Some RESPOND
    else if jsstring_eqb s (lit "IGNORE") then Some IGNORE
    else if jsstring_eqb s (lit "STOP") then Some STOP else None;
  parseBooleanFromText := fun s =>
    if jsstring_eqb s (lit "YES") then Some true
    else if jsstring_eqb s (lit "NO") then Some false else None;
  parseJsonArrayFromText := fun _ => None;
  parseJSONObjectFromText := fun _ => None;
  parseActionResponseFromText := fun _ => None
|}.

Definition sampleRuntime : Runtime := {|
  modelProvider := lit "openai";
  imageModelProvider := lit "openai";
  settings := <["RENDERNET_API_KEY" := lit "test-key"]> ∅
|}.

(** A transport whose first answer does not parse, whose second call
    throws and whose later answers are a plain verdict. *)
Definition flakyTransport : Transport := fun k _ =>
  match k with
  | O => Ret (lit "let me think")
  | S O => Throw (MkError "socket hang up")
  | _ => Ret (lit " RESPOND ")
  end.

(** A transport whose first two calls throw. *)
Definition failingTwice : Transport := fun k _ =>
  match k with
  | O => Throw (MkError "ECONNRESET")
  | S O => Throw (MkError "rate limited")
  | _ => Ret (lit "YES")
  end.

(** A transport whose first answer carries no object and whose later
    answers carry one. *)
Definition proseThenObject : Transport := fun k _ =>
  match k with
  | O => Ret (lit "I would rather not say.")
  | _ => Ret (lit "Here: { 'text': 'hi', 'action': 'NONE' }")
  end.

(** A RenderNet service that accepts the job, answers "processing" to the
    first [k - 1] status requests and [final] from the [k]-th on, and
    serves every image. *)
Definition renderNetAfter (k : nat) (final : StatusBody) : RenderNet := {|
  submit := fun _ _ _ =>
    Ret (OkBody (Ret {| generation_id := Some (lit "gen-1") |}));
  poll := fun j _ _ =>
    if (j <? k)%nat then
      Ret (OkBody (Ret {| sb_result := Some (lit "processing");
                          sb_media := None; sb_err := lit "null" |}))
    else Ret (OkBody (Ret final));
  fetchImage := fun _ => Ret (OkBody (Ret (lit "iVBORw0KGgo=")));
  settledAt := fun _ => 1%nat
|}.

Definition oneImage : list MediaItem :=
  [{| mi_type := Some (lit "image");
      mi_url := Some (lit "https://cdn.rendernet.ai/a.png") |}].

Definition sampleImage : ImageData := {|
  prompt := lit "A test image of a sunset over mountains";
  width := 512; height := 512;
  count := None; negativePrompt := None;
  numIterations := None; guidanceScale := None
|}.

(** A cycle in which everything works. *)
Definition workingEnv : CycleEnv := {|
  now := 1700000000000;
  random_num := 1; random_den := 2;
  cacheGetError := None; cacheSetError := None;
  textService := Some (Ret (lit " a lighthouse at dusk "));
  imageOutcome :=
    Ret {| success := true;
           data := Some [lit "data:image/png;base64,iVBORw0KGgo="];
           error := None |};
  saveOutcome := Ret (lit "agent/generatedImages/scheduled_image_1.png");
  fileExists := true;
  twitterClient := Some OwnPostTweet;
  readFile := Ret ();
  postTweet := fun _ => Ret ();
  scraperLogin := Ret true;
  sendTweet := fun _ => Ret true
|}.

(** The same cycle, except that image generation fails. *)
Definition failedImageEnv : CycleEnv := {|
  now := 1700000000000;
  random_num := 1; random_den := 2;
  cacheGetError := None; cacheSetError := None;
  textService := Some (Ret (lit " a lighthouse at dusk "));
  imageOutcome := Ret (failure NoValidResult);
  saveOutcome := Ret (lit "agent/generatedImages/scheduled_image_1.png");
  fileExists := true;
  twitterClient := Some OwnPostTweet;
  readFile := Ret ();
  postTweet := fun _ => Ret ();
  scraperLogin := Ret true;
  sendTweet := fun _ => Ret true
|}.

Definition twitterRuntime : Runtime := {|
  modelProvider := lit "openai";
  imageModelProvider := lit "openai";
  settings := <["TWITTER_USERNAME" := lit "eliza"]>
              (<["RENDERNET_API_KEY" := lit "test-key"]> ∅)
|}.

(** The sample imports with a tokenizer that cannot be loaded, and with
    a model whose input budget is zero. *)
Definition noTokenizerImports : Imports := {|
  encodingForModel := fun _ => Throw (MkError "Unknown model");
  TokenizerType_TikToken := TokenizerType_TikToken sampleImports;
  ModelProviderName_RENDERNET := ModelProviderName_RENDERNET sampleImports;
  getModelSettings := getModelSettings sampleImports;
  getImageModelSettings := getImageModelSettings sampleImports;
  parseShouldRespondFromText := parseShouldRespondFromText sampleImports;
  parseBooleanFromText := parseBooleanFromText sampleImports;
  parseJsonArrayFromText := parseJsonArrayFromText sampleImports;
  parseJSONObjectFromText := parseJSONObjectFromText sampleImports;
  parseActionResponseFromText := parseActionResponseFromText sampleImports
|}.

Definition zeroBudgetImports : Imports := {|
  encodingForModel := encodingForModel sampleImports;
  TokenizerType_TikToken := TokenizerType_TikToken sampleImports;
  ModelProviderName_RENDERNET := ModelProviderName_RENDERNET sampleImports;
  getModelSettings := fun _ _ => {| ms_stop := None; maxInputTokens := 0 |};
  getImageModelSettings := getImageModelSettings sampleImports;
  parseShouldRespondFromText := parseShouldRespondFromText sampleImports;
  parseBooleanFromText := parseBooleanFromText sampleImports;
  parseJsonArrayFromText := parseJsonArrayFromText sampleImports;
  parseJSONObjectFromText := parseJSONObjectFromText sampleImports;
  parseActionResponseFromText := parseActionResponseFromText sampleImports
|}.

(** A RenderNet service whose job completes at once with two images, the
    second of which cannot be downloaded. *)
Definition twoImages : list MediaItem :=
  [{| mi_type := Some (lit "image");
      mi_url := Some (lit "https://cdn.rendernet.ai/a.png") |};
   {| mi_type := Some (lit "image");
      mi_url := Some (lit "https://cdn.rendernet.ai/b.png") |}].

Definition renderNetLosingSecond : RenderNet := {|
  submit := fun _ _ _ =>
    Ret (OkBody (Ret {| generation_id := Some (lit "gen-1") |}));
  poll := fun _ _ _ =>
    Ret (OkBody (Ret {| sb_result := Some (lit "completed");
                        sb_media := Some twoImages; sb_err := lit "null" |}));
  fetchImage := fun url =>
    if jsstring_eqb url (lit "https://cdn.rendernet.ai/a.png")
    then Ret (OkBody (Ret (lit "iVBORw0KGgo=")))
    else Ret (NotOk 404 (lit "Not Found"));
  settledAt := fun url =>
    if jsstring_eqb url (lit "https://cdn.rendernet.ai/a.png") then 2%nat
    else 1%nat
|}.

(** Reading the provider names the sample runtimes use. *)
Definition sampleMemberOf (name : jsstring) : ModelProviderName :=
  if jsstring_eqb name (lit "openai") then OPENAI
  else if jsstring_eqb name (lit "bedrock") then BEDROCK
  else OtherProvider name.

Definition bedrockRuntime : Runtime := {|
  modelProvider := lit "bedrock";
  imageModelProvider := lit "openai";
  settings := ∅
|}.

(** The working cycle with an instance of [TextGenerationService] as
    the text service. *)
Definition serviceEnv : CycleEnv := {|
  now := 1700000000000;
  random_num := 1; random_den := 2;
  cacheGetError := None; cacheSetError := None;
  textService :=
    promptFrom (Some (TextGenerationService
                        (fun _ _ => Ret (lit "a lighthouse at dusk"))
                        (fun _ => Ret (lit "{}"))));
  imageOutcome :=
    Ret {| success := true;
           data := Some [lit "data:image/png;base64,iVBORw0KGgo="];
           error := None |};
  saveOutcome := Ret (lit "agent/generatedImages/scheduled_image_1.png");
  fileExists := true;
  twitterClient := Some OwnPostTweet;
  readFile := Ret ();
  postTweet := fun _ => Ret ();
  scraperLogin := Ret true;
  sendTweet := fun _ => Ret true
|}.

(** A disk on which the image directory is missing and everything
    works; Base64 decoding is left as the identity. *)
Definition freshDisk : SaveEnv := {|
  cwd := lit "/srv/eliza";
  pathJoin := fun parts =>
    match parts with
    | [] => lit "."
    | p :: ps => fold_left (fun acc q => acc ++ lit "/" ++ q) ps p
    end;
  existsSync := fun _ => false;
  mkdirSync := fun _ => Ret ();
  httpGet := fun _ => Ret (NotOk 404 (lit "Not Found"));
  fromBase64 := fun s => s;
  writeFileSync := fun _ _ => Ret ()
|}.



(** The working cycle run [elapsed] ms later, with [Math.random()]
    yielding [num / 128]. *)
Definition laterEnv (elapsed num : Z) : CycleEnv := {|
  now := 1700000000000 + elapsed;
  random_num := num; random_den := 128;
  cacheGetError := None; cacheSetError := None;
  textService := Some (Ret (lit " a lighthouse at dusk "));
  imageOutcome :=
    Ret {| success := true;
           data := Some [lit "data:image/png;base64,iVBORw0KGgo="];
           error := None |};
  saveOutcome := Ret (lit "agent/generatedImages/scheduled_image_2.png");
  fileExists := true;
  twitterClient := Some OwnPostTweet;
  readFile := Ret ();
  postTweet := fun _ => Ret ();
  scraperLogin := Ret true;
  sendTweet := fun _ => Ret true
|}.

(** The working cycle, except that the cache cannot be written. *)
Definition readOnlyCacheEnv : CycleEnv := {|
  now := 1700000000000;
  random_num := 1; random_den := 2;
  cacheGetError := None; cacheSetError := Some (MkError "EROFS");
  textService := Some (Ret (lit " a lighthouse at dusk "));
  imageOutcome :=
    Ret {| success := true;
           data := Some [lit "data:image/png;base64,iVBORw0KGgo="];
           error := None |};
  saveOutcome := Ret (lit "agent/generatedImages/scheduled_image_1.png");
  fileExists := true;
  twitterClient := Some OwnPostTweet;
  readFile := Ret ();
  postTweet := fun _ => Ret ();
  scraperLogin := Ret true;
  sendTweet := fun _ => Ret true
|}.

(** A runtime whose minimum interval is not a number. *)
Definition wordyRuntime : Runtime := {|
  modelProvider := lit "openai";
  imageModelProvider := lit "openai";
  settings := <["IMAGE_POST_INTERVAL_MIN" := lit "two hours"]>
              (<["TWITTER_USERNAME" := lit "eliza"]> ∅)
|}.

(* ================================================================= *)
(** ** What the wrappers are expected to do *)

(** An attempt that yields nothing: a null parse or a thrown error. *)
Definition failedAttempt {A : Type} (o : outcome (option A)) : Prop :=
  o = Ret None \/ exists e, o = Throw e.

(** A wrapper backs off: after [N] failed attempts and a successful one it
    returns the value, having waited [1000 * 2^0 ... 1000 * 2^(N-1)]; and
    no number of failed attempts makes it give up. *)
Definition BacksOff {A : Type}
    (attempt : nat -> outcome (option A) * list Event)
    (run : nat -> LoopResult A * list Event) : Prop :=
  (forall N v,
     (forall i, (i < N)%nat -> failedAttempt (fst (attempt i))) ->
     fst (attempt N) = Ret (Some v) ->
     forall fuel, (N < fuel)%nat ->
       fst (run fuel) = Returned v /\
       waits (snd (run fuel)) = backoffDelays N) /\
  ((forall i, failedAttempt (fst (attempt i))) ->
     forall fuel, fst (run fuel) = Running).

(** A wrapper swallows what [generateText] throws: it never throws
    itself, and after [N] throwing calls and a successful attempt it
    returns the value, having logged [label] once per throw. *)
Definition SwallowsThrows {A : Type} (tp : Transport) (req : TextRequest)
    (attempt : nat -> outcome (option A) * list Event)
    (run : nat -> LoopResult A * list Event) (label : string) : Prop :=
  (forall fuel e, fst (run fuel) <> Thrown e) /\
  (forall N v,
     (forall i, (i < N)%nat ->
        exists e, fst (generateText tp i req) = Throw e) ->
     fst (attempt N) = Ret (Some v) ->
     forall fuel, (N < fuel)%nat ->
       fst (run fuel) = Returned v /\
       errorsLogged label (snd (run fuel)) = N).

(* ================================================================= *)
(** * Properties *)

(* ----------------------------------------------------------------- *)
(** ** Context budgeter *)

Lemma slice_from_neg_lastn {A : Type} (n : Z) (l : list A) :
  0 < n -> slice_from (- n) l = lastn n l.
Proof.
  intros Hn. unfold slice_from, lastn.
  replace (- n <? 0) with true by (symmetry; apply Z.ltb_lt; lia).
  f_equal. lia.
Qed.

Lemma lastn_length {A : Type} (n : Z) (l : list A) :
  0 <= n <= Z.of_nat (length l) -> Z.of_nat (length (lastn n l)) = n.
Proof.
  intros Hn. unfold lastn. rewrite length_drop. lia.
Qed.


Lemma trimTokens_nonempty im rt context maxTokens :
  context <> [] -> 0 < maxTokens ->
  trimTokens im rt context maxTokens =
  Ret (truncateTiktoken im (tokenizerModelOf im rt) context maxTokens).
Proof.
  intros Hc Hm. unfold trimTokens, tokenizerModelOf.
  destruct context as [|c cs]; [congruence|]. simpl.
  replace (maxTokens <=? 0) with false by (symmetry; apply Z.leb_gt; lia).
  destruct (opt_falsy _ || opt_falsy _); [reflexivity|].
  destruct (bool_decide _); reflexivity.
Qed.

Lemma truncateTiktoken_within im model enc context maxTokens toks :
  encodingForModel im model = Ret enc ->
  encode enc context = Ret toks ->
  Z.of_nat (length toks) <= maxTokens ->
  truncateTiktoken im model context maxTokens = context.
Proof.
  intros He Ht Hle. unfold truncateTiktoken. rewrite He, Ht.
  replace (Z.of_nat (length toks) <=? maxTokens) with true
    by (symmetry; apply Z.leb_le; lia).
  reflexivity.
Qed.

Lemma truncateTiktoken_over im model enc context maxTokens toks text :
  encodingForModel im model = Ret enc ->
  encode enc context = Ret toks ->
  0 < maxTokens < Z.of_nat (length toks) ->
  decode enc (lastn maxTokens toks) = Ret text ->
  truncateTiktoken im model context maxTokens = text.
Proof.
  intros He Ht Hlt Hd. unfold truncateTiktoken. rewrite He, Ht.
  replace (Z.of_nat (length toks) <=? maxTokens) with false
    by (symmetry; apply Z.leb_gt; lia).
  cbv zeta. rewrite slice_from_neg_lastn by lia. rewrite Hd. reflexivity.
Qed.

(** C6, as stated, fails: the empty-context test comes first, so an empty
    text with a zero budget is answered with the empty text and no error. *)
Lemma trimTokens_empty_zero_budget :
  trimTokens sampleImports sampleRuntime (lit "") 0 = Ret (lit "").
Proof. reflexivity. Qed.

(** C6 (amended): an empty context is answered with the empty text,
    whatever the budget; a non-empty context with a budget [<= 0] throws
    "maxTokens must be positive". *)
Theorem trimTokens_guards im rt :
  (forall n, trimTokens im rt [] n = Ret []) /\
  (forall T maxTokens, T <> [] -> maxTokens <= 0 ->
     trimTokens im rt T maxTokens =
     Throw (MkError "maxTokens must be positive")).
Proof.
  split.
  - intros n. reflexivity.
  - intros T maxTokens HT Hm. unfold trimTokens.
    destruct T as [|c cs]; [congruence|]. simpl.
    replace (maxTokens <=? 0) with true by (symmetry; apply Z.leb_le; lia).
    reflexivity.
Qed.

Lemma trimTokens_guards_witness :
  trimTokens sampleImports sampleRuntime (lit "") 7 = Ret (lit "") /\
  trimTokens sampleImports sampleRuntime (lit "some context") 0 =
    Throw (MkError "maxTokens must be positive").
Proof.
  destruct (trimTokens_guards sampleImports sampleRuntime) as [He Hz].
  split.
  - apply (He 7).
  - apply (Hz (lit "some context") 0); [discriminate | lia].
Defined.

(** C5, as stated, fails in its last clause: with a byte-level tokenizer
    the text "é" has two tokens; trimmed to one token it becomes the
    replacement character, which has three. *)
Lemma trimTokens_retokenized_longer :
  let T := [233%N] in
  tokenCount Utf8Bytes.encoding T = Some 2 /\
  trimTokens sampleImports sampleRuntime T 1 = Ret [65533%N] /\
  tokenCount Utf8Bytes.encoding [65533%N] = Some 3.
Proof. vm_compute. auto. Qed.

(** C5 (amended): for a budget [maxTokens > 0] and a text the selected
    tokenizer encodes into [toks]: when [toks] has at most [maxTokens]
    tokens the text is returned unchanged; when it has more and the text
    is not empty, the result is the decoding of the last [maxTokens]
    tokens, the tokens before them being dropped; and the result has
    exactly [maxTokens] tokens, hence no more than the budget, when the
    tokenizer encodes that decoding back into the tokens kept. *)
Theorem trimTokens_keeps_tail im rt enc T maxTokens toks :
  0 < maxTokens ->
  encodingForModel im (tokenizerModelOf im rt) = Ret enc ->
  encode enc T = Ret toks ->
  (Z.of_nat (length toks) <= maxTokens ->
     trimTokens im rt T maxTokens = Ret T) /\
  (maxTokens < Z.of_nat (length toks) -> T <> [] ->
     forall text, decode enc (lastn maxTokens toks) = Ret text ->
       trimTokens im rt T maxTokens = Ret text /\
       (exists dropped, toks = dropped ++ lastn maxTokens toks /\
          Z.of_nat (length (lastn maxTokens toks)) = maxTokens) /\
       (encode enc text = Ret (lastn maxTokens toks) ->
          exists n, tokenCount enc text = Some n /\ n <= maxTokens)).
Proof.
  intros Hm He Ht. split.
  - intros Hle. destruct T as [|c cs]; [reflexivity|].
    rewrite trimTokens_nonempty by (congruence || lia).
    f_equal. eapply truncateTiktoken_within; eauto.
  - intros Hlt HT text Hd. split; [|split].
    + rewrite trimTokens_nonempty by (assumption || lia).
      f_equal. eapply truncateTiktoken_over; eauto; lia.
    + exists (take (length toks - Z.to_nat maxTokens)%nat toks).
      split.
      * unfold lastn. symmetry. apply take_drop.
      * apply lastn_length. lia.
    + intros Hrt. unfold tokenCount. rewrite Hrt.
      eexists. split; [reflexivity|].
      rewrite lastn_length; lia.
Qed.

Lemma trimTokens_keeps_tail_witness :
  trimTokens sampleImports sampleRuntime (lit "hi") 5 = Ret (lit "hi") /\
  trimTokens sampleImports sampleRuntime (lit "hello world") 5 =
    Ret (lit "world") /\
  (exists n, tokenCount Utf8Bytes.encoding (lit "world") = Some n /\ n <= 5).
Proof.
  split; [|split].
  - refine (proj1 (trimTokens_keeps_tail sampleImports sampleRuntime
      Utf8Bytes.encoding (lit "hi") 5 (lit "hi") _ _ _) _);
      [lia | reflexivity | reflexivity | vm_compute; discriminate].
  - refine (proj1 (proj2 (trimTokens_keeps_tail sampleImports sampleRuntime
      Utf8Bytes.encoding (lit "hello world") 5 (lit "hello world") _ _ _)
      _ _ (lit "world") _));
      [lia | reflexivity | reflexivity | vm_compute; reflexivity
      | discriminate | reflexivity].
  - refine (proj2 (proj2 (proj2 (trimTokens_keeps_tail sampleImports
      sampleRuntime Utf8Bytes.encoding (lit "hello world") 5
      (lit "hello world") _ _ _) _ _ (lit "world") _)) _);
      [lia | reflexivity | reflexivity | vm_compute; reflexivity
      | discriminate | reflexivity | reflexivity].
Defined.

(* ----------------------------------------------------------------- *)
(** ** [splitText] *)

(** With no overlap the loop ends: the definitions do return chunks. *)
Example splitText_no_bleed :
  splitText 10 (lit "abcdef") 4 0 = Some [lit "abcd"; lit "ef"].
Proof. reflexivity. Qed.

Lemma splitText_loop_runs fuel : forall content chunkSize bleed start chunks,
  0 < bleed -> start < Z.of_nat (length content) ->
  splitText_loop fuel content chunkSize bleed start chunks = None.
Proof.
  induction fuel as [|fuel IH]; intros content chunkSize bleed start chunks Hb Hs;
    simpl; destruct (Z.ltb_spec start (Z.of_nat (length content))); try lia.
  - reflexivity.
  - apply IH; lia.
Qed.

(** C9 (what the code does): with a positive overlap [splitText] never
    leaves its loop on a non-empty content, whatever the chunk size: after
    each chunk [start] is [end - bleed], which stays below
    [content.length].  The same holds for [splitChunks] with its default
    overlap of 100. *)
Theorem splitText_never_returns content chunkSize bleed :
  content <> [] -> 0 < bleed ->
  forall fuel,
    splitText fuel content chunkSize bleed = None /\
    splitChunks fuel content (Some chunkSize) None = None.
Proof.
  intros Hc Hb fuel.
  assert (Hlen : 0 < Z.of_nat (length content)).
  { destruct content; [congruence | simpl; lia]. }
  split.
  - apply splitText_loop_runs; assumption.
  - apply splitText_loop_runs; simpl; lia.
Qed.

Lemma splitText_never_returns_witness :
  splitText 1000 (lit "a") 1500 100 = None /\
  splitChunks 1000 (lit "a") (Some 1500) None = None.
Proof.
  apply (splitText_never_returns (lit "a") 1500 100); [discriminate | lia].
Defined.

(* ----------------------------------------------------------------- *)
(** ** The retrying wrappers *)

Lemma waits_app a b : waits (a ++ b) = waits a ++ waits b.
Proof.
  induction a as [|[m|ms] a IH]; simpl; [reflexivity | assumption |].
  now rewrite IH.
Qed.

Lemma errorsLogged_app label a b :
  errorsLogged label (a ++ b) = (errorsLogged label a + errorsLogged label b)%nat.
Proof.
  induction a as [|[m|ms] a IH]; simpl; [reflexivity | | assumption].
  destruct (bool_decide (m = label)); simpl; now rewrite IH.
Qed.

Lemma generateText_events tp k req :
  waits (snd (generateText tp k req)) = [] /\
  forall label, label <> "Error in generateText:"%string ->
    label <> "generateText context is empty"%string ->
    errorsLogged label (snd (generateText tp k req)) = O.
Proof.
  unfold generateText.
  destruct (str_falsy (tr_context req)); [|destruct (tp k req)]; simpl;
    (split; [reflexivity|]); intros label H1 H2; try reflexivity;
    rewrite bool_decide_eq_false_2; congruence.
Qed.

Lemma textAttempt_events {A : Type} tp req (parse : jsstring -> option A) k :
  snd (textAttempt tp req parse k) = snd (generateText tp k req).
Proof.
  unfold textAttempt. destruct (generateText tp k req) as [[r|e] ev]; reflexivity.
Qed.


Section RetryLoopFacts.
Context {A : Type}.
Variable attempt : nat -> outcome (option A) * list Event.
Variable label : string.
Hypothesis attempt_waits : forall k, waits (snd (attempt k)) = [].

Lemma retryLoop_first_success N : forall k d v fuel,
  (forall i, (i < N)%nat -> failedAttempt (fst (attempt (k + i)))) ->
  fst (attempt (k + N)) = Ret (Some v) ->
  (N < fuel)%nat ->
  fst (retryLoop attempt label fuel k d) = Returned v /\
  waits (snd (retryLoop attempt label fuel k d)) =
    map (fun i => d * 2 ^ Z.of_nat i) (seq 0 N).
Proof.
  induction N as [|N IH]; intros k d v fuel Hfail Hok Hfuel;
    (destruct fuel as [|fuel]; [lia|]); simpl.
  - rewrite Nat.add_0_r in Hok. specialize (attempt_waits k).
    destruct (attempt k) as [[[x|]|e] ev]; simpl in *; try discriminate.
    inversion Hok; subst. auto.
  - assert (Hk : failedAttempt (fst (attempt k))).
    { specialize (Hfail O). rewrite Nat.add_0_r in Hfail. apply Hfail. lia. }
    destruct (IH (S k) (d * 2) v fuel) as [Hr Hw].
    { intros i Hi. replace (S k + i)%nat with (k + S i)%nat by lia.
      apply Hfail. lia. }
    { replace (S k + N)%nat with (k + S N)%nat by lia. exact Hok. }
    { lia. }
    assert (Hshift : map (fun i => d * 2 * 2 ^ Z.of_nat i) (seq 0 N) =
                     map (fun i => d * 2 ^ Z.of_nat i) (seq 1 N)).
    { rewrite <- seq_shift, map_map. apply map_ext. intros i.
      rewrite Nat2Z.inj_succ, Z.pow_succ_r by lia. lia. }
    specialize (attempt_waits k).
    destruct (attempt k) as [[[x|]|e] ev]; simpl in *.
    + destruct Hk as [Hk|[e Hk]]; discriminate.
    + destruct (retryLoop attempt label fuel (S k) (d * 2)) as [r ev'].
      simpl in *. split; [assumption|].
      rewrite waits_app, attempt_waits. simpl.
      rewrite Hw, Hshift, Z.mul_1_r. reflexivity.
    + destruct (retryLoop attempt label fuel (S k) (d * 2)) as [r ev'].
      simpl in *. split; [assumption|].
      rewrite waits_app, attempt_waits. simpl.
      rewrite Hw, Hshift, Z.mul_1_r. reflexivity.
Qed.

Lemma retryLoop_all_fail fuel : forall k d,
  (forall i, failedAttempt (fst (attempt (k + i)))) ->
  fst (retryLoop attempt label fuel k d) = Running.
Proof.
  induction fuel as [|fuel IH]; intros k d Hfail; simpl; [reflexivity|].
  assert (Hk : failedAttempt (fst (attempt k))).
  { specialize (Hfail O). now rewrite Nat.add_0_r in Hfail. }
  assert (Hrec : fst (retryLoop attempt label fuel (S k) (d * 2)) = Running).
  { apply IH. intros i. replace (S k + i)%nat with (k + S i)%nat by lia.
    apply Hfail. }
  destruct (attempt k) as [[[x|]|e] ev]; simpl in *.
  - destruct Hk as [Hk|[e Hk]]; discriminate.
  - destruct (retryLoop attempt label fuel (S k) (d * 2)); assumption.
  - destruct (retryLoop attempt label fuel (S k) (d * 2)); assumption.
Qed.

Lemma retryLoop_backs_off :
  BacksOff attempt (fun fuel => retryLoop attempt label fuel 0 1000).
Proof.
  split.
  - intros N v Hfail Hok fuel Hfuel.
    apply (retryLoop_first_success N 0%nat 1000 v fuel); auto.
  - intros Hfail fuel. apply retryLoop_all_fail. intros i. apply Hfail.
Qed.

Lemma retryLoop_never_thrown fuel : forall k d e,
  fst (retryLoop attempt label fuel k d) <> Thrown e.
Proof.
  induction fuel as [|fuel IH]; intros k d e; simpl; [discriminate|].
  specialize (IH (S k) (d * 2) e).
  destruct (attempt k) as [[[x|]|e'] ev]; simpl; try discriminate;
    destruct (retryLoop attempt label fuel (S k) (d * 2)); assumption.
Qed.

Hypothesis attempt_label : forall k, errorsLogged label (snd (attempt k)) = O.

Lemma retryLoop_logs_throws N : forall k d v fuel,
  (forall i, (i < N)%nat -> exists e, fst (attempt (k + i)) = Throw e) ->
  fst (attempt (k + N)) = Ret (Some v) ->
  (N < fuel)%nat ->
  fst (retryLoop attempt label fuel k d) = Returned v /\
  errorsLogged label (snd (retryLoop attempt label fuel k d)) = N.
Proof.
  induction N as [|N IH]; intros k d v fuel Hfail Hok Hfuel;
    (destruct fuel as [|fuel]; [lia|]); simpl.
  - rewrite Nat.add_0_r in Hok. specialize (attempt_label k).
    destruct (attempt k) as [[[x|]|e] ev]; simpl in *; try discriminate.
    inversion Hok; subst. auto.
  - destruct (Hfail O) as [e0 Hk]; [lia|]. rewrite Nat.add_0_r in Hk.
    destruct (IH (S k) (d * 2) v fuel) as [Hr Hl].
    { intros i Hi. replace (S k + i)%nat with (k + S i)%nat by lia.
      apply Hfail. lia. }
    { replace (S k + N)%nat with (k + S N)%nat by lia. exact Hok. }
    { lia. }
    specialize (attempt_label k).
    destruct (attempt k) as [[[x|]|e] ev]; simpl in *; try discriminate.
    destruct (retryLoop attempt label fuel (S k) (d * 2)) as [r ev'].
    simpl in *. split; [assumption|].
    rewrite errorsLogged_app, attempt_label. simpl.
    rewrite bool_decide_eq_true_2 by reflexivity. now rewrite Hl.
Qed.
End RetryLoopFacts.

Section MessageLoopFacts.
Variable im : Imports.
Variable tp : Transport.
Variable req : TextRequest.

Let attempt := textAttempt tp req (parseMessage im).

Lemma messageLoop_nulls N : forall k d v fuel,
  (forall i, (i < N)%nat -> fst (attempt (k + i)) = Ret None) ->
  fst (attempt (k + N)) = Ret (Some v) ->
  (N < fuel)%nat ->
  fst (messageLoop im tp req fuel k d) = Returned v /\
  waits (snd (messageLoop im tp req fuel k d)) = [].
Proof.
  subst attempt. unfold textAttempt.
  induction N as [|N IH]; intros k d v fuel Hnull Hok Hfuel;
    (destruct fuel as [|fuel]; [lia|]); simpl.
  - rewrite Nat.add_0_r in Hok.
    pose proof (proj1 (generateText_events tp k req)) as Hw.
    destruct (generateText tp k req) as [[r|e] ev]; simpl in *;
      [|discriminate].
    destruct (parseMessage im r); inversion Hok; subst. auto.
  - pose proof (Hnull O ltac:(lia)) as Hk. rewrite Nat.add_0_r in Hk.
    destruct (IH (S k) d v fuel) as [Hr Hw'].
    { intros i Hi. replace (S k + i)%nat with (k + S i)%nat by lia.
      apply Hnull. lia. }
    { replace (S k + N)%nat with (k + S N)%nat by lia. exact Hok. }
    { lia. }
    pose proof (proj1 (generateText_events tp k req)) as Hw.
    destruct (generateText tp k req) as [[r|e] ev]; simpl in *;
      [|discriminate].
    destruct (parseMessage im r); [discriminate|].
    destruct (messageLoop im tp req fuel (S k) d) as [res ev']. simpl in *.
    split; [assumption|]. rewrite waits_app, Hw, Hw'. reflexivity.
Qed.

Lemma messageLoop_throws N : forall k d v fuel,
  (forall i, (i < N)%nat ->
     exists e, fst (generateText tp (k + i) req) = Throw e) ->
  fst (attempt (k + N)) = Ret (Some v) ->
  (N < fuel)%nat ->
  fst (messageLoop im tp req fuel k d) = Returned v /\
  waits (snd (messageLoop im tp req fuel k d)) =
    map (fun i => 2 * d * 2 ^ Z.of_nat i) (seq 0 N) /\
  errorsLogged "ERROR:" (snd (messageLoop im tp req fuel k d)) = N.
Proof.
  subst attempt. unfold textAttempt.
  induction N as [|N IH]; intros k d v fuel Hthrow Hok Hfuel;
    (destruct fuel as [|fuel]; [lia|]); simpl.
  - rewrite Nat.add_0_r in Hok.
    destruct (generateText_events tp k req) as [Hw Hl].
    specialize (Hl "ERROR:"%string ltac:(discriminate) ltac:(discriminate)).
    destruct (generateText tp k req) as [[r|e] ev]; simpl in *;
      [|discriminate].
    destruct (parseMessage im r); inversion Hok; subst. auto.
  - destruct (Hthrow O ltac:(lia)) as [e0 Hk]. rewrite Nat.add_0_r in Hk.
    destruct (IH (S k) (d * 2) v fuel) as (Hr & Hw' & Hl').
    { intros i Hi. replace (S k + i)%nat with (k + S i)%nat by lia.
      apply Hthrow. lia. }
    { replace (S k + N)%nat with (k + S N)%nat by lia. exact Hok. }
    { lia. }
    assert (Hshift : map (fun i => 2 * (d * 2) * 2 ^ Z.of_nat i) (seq 0 N) =
                     map (fun i => 2 * d * 2 ^ Z.of_nat i) (seq 1 N)).
    { rewrite <- seq_shift, map_map. apply map_ext. intros i.
      rewrite Nat2Z.inj_succ, Z.pow_succ_r by lia. lia. }
    destruct (generateText_events tp k req) as [Hw Hl].
    specialize (Hl "ERROR:"%string ltac:(discriminate) ltac:(discriminate)).
    destruct (generateText tp k req) as [[r|e] ev]; simpl in *;
      [discriminate|].
    destruct (messageLoop im tp req fuel (S k) (d * 2)) as [res ev'].
    simpl in *. split; [assumption|]. split.
    + rewrite waits_app, Hw. simpl. rewrite Hw', Hshift.
      f_equal. lia.
    + rewrite errorsLogged_app, Hl. simpl. now rewrite Hl'.
Qed.

Lemma messageLoop_all_fail fuel : forall k d,
  (forall i, failedAttempt (fst (attempt (k + i)))) ->
  fst (messageLoop im tp req fuel k d) = Running.
Proof.
  subst attempt. unfold textAttempt.
  induction fuel as [|fuel IH]; intros k d Hfail; simpl; [reflexivity|].
  pose proof (Hfail O) as Hk. rewrite Nat.add_0_r in Hk.
  assert (Hrec : forall d', fst (messageLoop im tp req fuel (S k) d') = Running).
  { intros d'. apply IH. intros i.
    replace (S k + i)%nat with (k + S i)%nat by lia. apply Hfail. }
  destruct (generateText tp k req) as [[r|e] ev]; simpl in *.
  - destruct (parseMessage im r).
    + destruct Hk as [Hk|[e Hk]]; discriminate.
    + specialize (Hrec d).
      destruct (messageLoop im tp req fuel (S k) d); assumption.
  - specialize (Hrec (d * 2)).
    destruct (messageLoop im tp req fuel (S k) (d * 2)); assumption.
Qed.

Lemma messageLoop_never_thrown fuel : forall k d e,
  fst (messageLoop im tp req fuel k d) <> Thrown e.
Proof.
  induction fuel as [|fuel IH]; intros k d e; simpl; [discriminate|].
  destruct (generateText tp k req) as [[r|e'] ev]; simpl.
  - destruct (parseMessage im r); [discriminate|].
    specialize (IH (S k) d e).
    destruct (messageLoop im tp req fuel (S k) d); assumption.
  - specialize (IH (S k) (d * 2) e).
    destruct (messageLoop im tp req fuel (S k) (d * 2)); assumption.
Qed.
End MessageLoopFacts.

Lemma textAttempt_waits {A : Type} tp req (parse : jsstring -> option A) k :
  waits (snd (textAttempt tp req parse k)) = [].
Proof.
  rewrite textAttempt_events. apply generateText_events.
Qed.

Lemma textAttempt_label {A : Type} tp req (parse : jsstring -> option A)
    (label : string) k :
  label <> "Error in generateText:"%string ->
  label <> "generateText context is empty"%string ->
  errorsLogged label (snd (textAttempt tp req parse k)) = O.
Proof.
  intros H1 H2. rewrite textAttempt_events.
  now apply generateText_events.
Qed.

Lemma textAttempt_throw {A : Type} tp req (parse : jsstring -> option A) k e :
  fst (generateText tp k req) = Throw e ->
  fst (textAttempt tp req parse k) = Throw e.
Proof.
  unfold textAttempt. destruct (generateText tp k req) as [[r|e'] ev];
    simpl; congruence.
Qed.

Lemma wrapper_backs_off {A : Type} tp req (parse : jsstring -> option A) label :
  BacksOff (textAttempt tp req parse)
    (fun fuel => retryLoop (textAttempt tp req parse) label fuel 0 1000).
Proof.
  apply retryLoop_backs_off. intros k. apply textAttempt_waits.
Qed.

Lemma wrapper_swallows {A : Type} tp req (parse : jsstring -> option A)
    (label : string) :
  label <> "Error in generateText:"%string ->
  label <> "generateText context is empty"%string ->
  SwallowsThrows tp req (textAttempt tp req parse)
    (fun fuel => retryLoop (textAttempt tp req parse) label fuel 0 1000) label.
Proof.
  intros H1 H2. split.
  - intros fuel e. apply retryLoop_never_thrown.
  - intros N v Hthrow Hok fuel Hfuel.
    apply (retryLoop_logs_throws (textAttempt tp req parse) label
             (fun k => textAttempt_label tp req parse label k H1 H2)
             N 0%nat 1000 v fuel); auto.
    intros i Hi. destruct (Hthrow i Hi) as [e He]. exists e. simpl.
    now apply textAttempt_throw.
Qed.

(** C3, as stated, fails for [generateMessageResponse]: a response that
    does not parse is retried at once.  Here the first attempt yields
    nothing, the second yields an object, and no wait lies between them,
    where the claim has one wait of 1000 ms. *)
Lemma generateMessageResponse_retries_at_once :
  let req := request (lit "hello") (lit "large") None in
  let run := generateMessageResponse sampleImports sampleRuntime
               proseThenObject 5 (lit "hello") (lit "large") in
  fst (textAttempt proseThenObject req (parseMessage sampleImports) 0)
    = Ret None /\
  fst run = Returned {| c_user := Some (lit "Eliza");
                        c_text := Some (lit "hi");
                        c_action := Some (lit "NONE");
                        c_rest := [] |} /\
  waits (snd run) = [] /\
  backoffDelays 1 = [1000].
Proof. vm_compute. auto. Qed.

(** C3 (amended): [generateShouldRespond], [generateTrueOrFalse],
    [generateTweetActions] and, on a non-empty context,
    [generateTextArray], [generateObjectDeprecated] and
    [generateObjectArray] return the first successful value after [N]
    failed attempts, having waited [1000 * 2^0 ... 1000 * 2^(N-1)] ms in
    between, and never stop retrying while attempts fail.
    [generateMessageResponse] never stops retrying either, but it retries
    a response that does not parse at once: after [N] such responses it
    returns the first successful value without having waited. *)
Theorem retry_wrappers_back_off im rt tp context modelClass :
  BacksOff
    (textAttempt tp (request context modelClass None)
       (fun response => parseShouldRespondFromText im (trim response)))
    (fun fuel => generateShouldRespond im tp fuel context modelClass) /\
  BacksOff
    (textAttempt tp
       (request context modelClass
          (Some (trueOrFalseStop
                   (getModelSettings im (modelProvider rt) modelClass))))
       (fun response => parseBooleanFromText im (trim response)))
    (fun fuel => generateTrueOrFalse im rt tp fuel context modelClass) /\
  BacksOff
    (textAttempt tp (request context modelClass None)
       (fun response => parseActionResponseFromText im (trim response)))
    (fun fuel => generateTweetActions im tp fuel context modelClass) /\
  (context <> [] ->
   BacksOff
     (textAttempt tp (request context modelClass None)
        (parseJsonArrayFromText im))
     (fun fuel => generateTextArray im tp fuel context modelClass) /\
   BacksOff
     (textAttempt tp (request context modelClass None)
        (fun response => Some <$> parseJSONObjectFromText im response))
     (fun fuel => generateObjectDeprecated im tp fuel context modelClass) /\
   BacksOff
     (textAttempt tp (request context modelClass None)
        (parseJsonArrayFromText im))
     (fun fuel => generateObjectArray im tp fuel context modelClass)) /\
  (forall context',
     trimTokens im rt context
       (maxInputTokens (getModelSettings im (modelProvider rt) modelClass))
       = Ret context' ->
     let attempt := textAttempt tp (request context' modelClass None)
                      (parseMessage im) in
     let run fuel := generateMessageResponse im rt tp fuel context modelClass in
     (forall N v,
        (forall i, (i < N)%nat -> fst (attempt i) = Ret None) ->
        fst (attempt N) = Ret (Some v) ->
        forall fuel, (N < fuel)%nat ->
          fst (run fuel) = Returned v /\ waits (snd (run fuel)) = []) /\
     ((forall i, failedAttempt (fst (attempt i))) ->
        forall fuel, fst (run fuel) = Running)).
Proof.
  repeat split_and; try apply wrapper_backs_off.
  - intros Hc. unfold generateTextArray, generateObjectDeprecated,
      generateObjectArray.
    destruct context as [|c cs]; [congruence|]. simpl.
    repeat split_and; apply wrapper_backs_off.
  - intros context' Htrim attempt run. subst attempt run.
    unfold generateMessageResponse. cbv zeta. rewrite Htrim. split.
    + intros N v Hnull Hok fuel Hfuel.
      apply (messageLoop_nulls im tp _ N 0%nat 1000 v fuel); auto.
    + intros Hfail fuel. apply messageLoop_all_fail. intros i. apply Hfail.
Qed.

Lemma retry_wrappers_back_off_witness :
  fst (generateShouldRespond sampleImports flakyTransport 3
         (lit "should I answer?") (lit "small")) = Returned RESPOND /\
  waits (snd (generateShouldRespond sampleImports flakyTransport 3
                (lit "should I answer?") (lit "small"))) = [1000; 2000].
Proof.
  refine (proj1 (proj1 (retry_wrappers_back_off sampleImports sampleRuntime
    flakyTransport (lit "should I answer?") (lit "small"))) 2%nat RESPOND
    _ _ 3%nat _).
  - intros i Hi. destruct i as [|[|i]]; [left; reflexivity | | lia].
    right. eexists. reflexivity.
  - reflexivity.
  - lia.
Defined.

(** C4: the raw [generateText] logs and re-throws what its transport
    throws, whereas every retrying wrapper catches what [generateText]
    throws, logs it under its own label and goes on: it never throws, and
    after [N] throwing calls and a successful attempt it returns the
    value with [N] errors logged.  ([generateTextArray],
    [generateObjectDeprecated] and [generateObjectArray] enter their loop
    on a non-empty context only; [generateMessageResponse] enters it once
    [trimTokens] has returned.) *)
Theorem transport_errors_two_policies im rt tp context modelClass :
  (forall k req e,
     tr_context req <> [] -> tp k req = Throw e ->
     generateText tp k req = (Throw e, [LogError "Error in generateText:"])) /\
  SwallowsThrows tp (request context modelClass None)
    (textAttempt tp (request context modelClass None)
       (fun response => parseShouldRespondFromText im (trim response)))
    (fun fuel => generateShouldRespond im tp fuel context modelClass)
    "Error in generateShouldRespond:" /\
  (let req := request context modelClass
                (Some (trueOrFalseStop
                         (getModelSettings im (modelProvider rt) modelClass))) in
   SwallowsThrows tp req
     (textAttempt tp req
        (fun response => parseBooleanFromText im (trim response)))
     (fun fuel => generateTrueOrFalse im rt tp fuel context modelClass)
     "Error in generateTrueOrFalse:") /\
  SwallowsThrows tp (request context modelClass None)
    (textAttempt tp (request context modelClass None)
       (fun response => parseActionResponseFromText im (trim response)))
    (fun fuel => generateTweetActions im tp fuel context modelClass)
    "Error in generateTweetActions:" /\
  (context <> [] ->
   SwallowsThrows tp (request context modelClass None)
     (textAttempt tp (request context modelClass None)
        (parseJsonArrayFromText im))
     (fun fuel => generateTextArray im tp fuel context modelClass)
     "Error in generateTextArray:" /\
   SwallowsThrows tp (request context modelClass None)
     (textAttempt tp (request context modelClass None)
        (fun response => Some <$> parseJSONObjectFromText im response))
     (fun fuel => generateObjectDeprecated im tp fuel context modelClass)
     "Error in generateObject:" /\
   SwallowsThrows tp (request context modelClass None)
     (textAttempt tp (request context modelClass None)
        (parseJsonArrayFromText im))
     (fun fuel => generateObjectArray im tp fuel context modelClass)
     "Error in generateTextArray:") /\
  (forall context',
     trimTokens im rt context
       (maxInputTokens (getModelSettings im (modelProvider rt) modelClass))
       = Ret context' ->
     SwallowsThrows tp (request context' modelClass None)
       (textAttempt tp (request context' modelClass None) (parseMessage im))
       (fun fuel => generateMessageResponse im rt tp fuel context modelClass)
       "ERROR:").
Proof.
  repeat split_and; try (apply wrapper_swallows; discriminate).
  - intros k req e Hc Ht. unfold generateText.
    destruct (tr_context req); [congruence|]. simpl. now rewrite Ht.
  - intros Hc. unfold generateTextArray, generateObjectDeprecated,
      generateObjectArray.
    destruct context as [|c cs]; [congruence|]. simpl.
    repeat split_and; apply wrapper_swallows; discriminate.
  - intros context' Htrim. unfold generateMessageResponse. cbv zeta.
    rewrite Htrim. split.
    + intros fuel e. apply messageLoop_never_thrown.
    + intros N v Hthrow Hok fuel Hfuel.
      destruct (messageLoop_throws im tp (request context' modelClass None)
                  N 0%nat 1000 v fuel) as (Hr & _ & Hl); auto.
Qed.

Lemma transport_errors_two_policies_witness :
  generateText failingTwice 0 (request (lit "is it so?") (lit "small") None)
    = (Throw (MkError "ECONNRESET"), [LogError "Error in generateText:"]) /\
  fst (generateTrueOrFalse sampleImports sampleRuntime failingTwice 3
         (lit "is it so?") (lit "small")) = Returned true /\
  errorsLogged "Error in generateTrueOrFalse:"
    (snd (generateTrueOrFalse sampleImports sampleRuntime failingTwice 3
            (lit "is it so?") (lit "small"))) = 2%nat.
Proof.
  pose proof (transport_errors_two_policies sampleImports sampleRuntime
                failingTwice (lit "is it so?") (lit "small"))
    as (Hraw & _ & Hbool & _).
  split.
  - apply Hraw; [discriminate | reflexivity].
  - refine (proj2 Hbool 2%nat true _ _ 3%nat _).
    + intros i Hi. destruct i as [|[|i]]; [| |lia]; eexists; reflexivity.
    + reflexivity.
    + lia.
Defined.

(* ----------------------------------------------------------------- *)
(** ** The image job poller *)

Lemma polls_app a b : polls (a ++ b) = (polls a + polls b)%nat.
Proof. unfold polls. now rewrite List.filter_app, length_app. Qed.

Lemma requests_app a b : requests (a ++ b) = requests a ++ requests b.
Proof. unfold requests. apply List.filter_app. Qed.

Section PollLoopFacts.
Variable rn : RenderNet.
Variables url apiKey : jsstring.

Let answer (k : nat) := poll rn k url apiKey.

Lemma pollLoop_budget remaining : forall attempts g0,
  (polls (snd (pollLoop rn url apiKey remaining attempts g0)) <= remaining)%nat.
Proof.
  induction remaining as [|r IH]; intros attempts g0; simpl;
    [unfold polls; simpl; lia|].
  destruct (poll rn (S attempts) url apiKey) as [[st tx|[g|e]]|e]; simpl;
    try (unfold polls; simpl; lia).
  - specialize (IH (S attempts) g0).
    destruct (pollLoop rn url apiKey r (S attempts) g0) as [x ev].
    simpl in *. unfold polls in *. simpl. lia.
  - destruct (bool_decide (sb_result g = Some (lit "completed")));
      [unfold polls; simpl; lia|].
    destruct (bool_decide (sb_result g = Some (lit "failed")));
      [unfold polls; simpl; lia|].
    specialize (IH (S attempts) (Some g)).
    destruct (pollLoop rn url apiKey r (S attempts) (Some g)) as [x ev].
    simpl in *. unfold polls in *. simpl. lia.
Qed.

Lemma pollLoop_completed k : forall remaining attempts g0 g,
  (forall j, (attempts < j < attempts + k)%nat -> pending (answer j)) ->
  answer (attempts + k) = Ret (OkBody (Ret g)) ->
  sb_result g = Some (lit "completed") ->
  (1 <= k <= remaining)%nat ->
  pollLoop rn url apiKey remaining attempts g0 =
    (LoopDone (Some g),
     snd (pollLoop rn url apiKey remaining attempts g0)) /\
  polls (snd (pollLoop rn url apiKey remaining attempts g0)) = k.
Proof.
  subst answer.
  induction k as [|k IH]; intros remaining attempts g0 g Hpend Hk Hres Hrange;
    [lia|].
  destruct remaining as [|r]; [lia|]. simpl.
  destruct k as [|k].
  - replace (attempts + 1)%nat with (S attempts) in Hk by lia.
    rewrite Hk. rewrite bool_decide_eq_true_2 by assumption. auto.
  - assert (Hp : pending (poll rn (S attempts) url apiKey)) by (apply Hpend; lia).
    assert (Hrec : forall g1,
      pollLoop rn url apiKey r (S attempts) g1 =
        (LoopDone (Some g), snd (pollLoop rn url apiKey r (S attempts) g1)) /\
      polls (snd (pollLoop rn url apiKey r (S attempts) g1)) = S k).
    { intros g1. apply IH; try assumption; try lia.
      - intros j Hj. apply Hpend. lia.
      - replace (S attempts + S k)%nat with (attempts + S (S k))%nat by lia.
        assumption. }
    destruct (poll rn (S attempts) url apiKey) as [[st tx|[g1|e]]|e];
      simpl in Hp; try contradiction.
    + destruct (Hrec g0) as [He Hn].
      destruct (pollLoop rn url apiKey r (S attempts) g0) as [x ev].
      simpl in *. inversion He; subst. split; [reflexivity|].
      unfold polls in *. simpl. lia.
    + destruct Hp as [Hc Hf].
      rewrite !bool_decide_eq_false_2 by assumption.
      destruct (Hrec (Some g1)) as [He Hn].
      destruct (pollLoop rn url apiKey r (S attempts) (Some g1)) as [x ev].
      simpl in *. inversion He; subst. split; [reflexivity|].
      unfold polls in *. simpl. lia.
Qed.

Lemma pollLoop_failed k : forall remaining attempts g0 g,
  (forall j, (attempts < j < attempts + k)%nat -> pending (answer j)) ->
  answer (attempts + k) = Ret (OkBody (Ret g)) ->
  sb_result g = Some (lit "failed") ->
  (1 <= k <= remaining)%nat ->
  pollLoop rn url apiKey remaining attempts g0 =
    (JobFailed (sb_err g),
     snd (pollLoop rn url apiKey remaining attempts g0)) /\
  polls (snd (pollLoop rn url apiKey remaining attempts g0)) = k.
Proof.
  subst answer.
  induction k as [|k IH]; intros remaining attempts g0 g Hpend Hk Hres Hrange;
    [lia|].
  destruct remaining as [|r]; [lia|]. simpl.
  destruct k as [|k].
  - replace (attempts + 1)%nat with (S attempts) in Hk by lia.
    rewrite Hk. rewrite bool_decide_eq_false_2 by (rewrite Hres; discriminate).
    rewrite bool_decide_eq_true_2 by assumption. auto.
  - assert (Hp : pending (poll rn (S attempts) url apiKey)) by (apply Hpend; lia).
    assert (Hrec : forall g1,
      pollLoop rn url apiKey r (S attempts) g1 =
        (JobFailed (sb_err g), snd (pollLoop rn url apiKey r (S attempts) g1)) /\
      polls (snd (pollLoop rn url apiKey r (S attempts) g1)) = S k).
    { intros g1. apply IH; try assumption; try lia.
      - intros j Hj. apply Hpend. lia.
      - replace (S attempts + S k)%nat with (attempts + S (S k))%nat by lia.
        assumption. }
    destruct (poll rn (S attempts) url apiKey) as [[st tx|[g1|e]]|e];
      simpl in Hp; try contradiction.
    + destruct (Hrec g0) as [He Hn].
      destruct (pollLoop rn url apiKey r (S attempts) g0) as [x ev].
      simpl in *. inversion He; subst. split; [reflexivity|].
      unfold polls in *. simpl. lia.
    + destruct Hp as [Hc Hf].
      rewrite !bool_decide_eq_false_2 by assumption.
      destruct (Hrec (Some g1)) as [He Hn].
      destruct (pollLoop rn url apiKey r (S attempts) (Some g1)) as [x ev].
      simpl in *. inversion He; subst. split; [reflexivity|].
      unfold polls in *. simpl. lia.
Qed.

Lemma pollLoop_pending remaining : forall attempts g0,
  (forall j, (attempts < j <= attempts + remaining)%nat -> pending (answer j)) ->
  exists g',
    pollLoop rn url apiKey remaining attempts g0 =
      (LoopDone g', snd (pollLoop rn url apiKey remaining attempts g0)) /\
    polls (snd (pollLoop rn url apiKey remaining attempts g0)) = remaining /\
    (carriesNoMedia g0 ->
     (forall j, (attempts < j <= attempts + remaining)%nat -> noMedia (answer j)) ->
     carriesNoMedia g').
Proof.
  subst answer.
  induction remaining as [|r IH]; intros attempts g0 Hpend; simpl.
  - exists g0. auto.
  - assert (Hp : pending (poll rn (S attempts) url apiKey)) by (apply Hpend; lia).
    assert (Hrec : forall g1, exists g',
      pollLoop rn url apiKey r (S attempts) g1 =
        (LoopDone g', snd (pollLoop rn url apiKey r (S attempts) g1)) /\
      polls (snd (pollLoop rn url apiKey r (S attempts) g1)) = r /\
      (carriesNoMedia g1 ->
       (forall j, (S attempts < j <= S attempts + r)%nat ->
          noMedia (poll rn j url apiKey)) ->
       carriesNoMedia g')).
    { intros g1. apply IH. intros j Hj. apply Hpend. lia. }
    pose proof (fun H : forall j, (attempts < j <= attempts + S r)%nat ->
                  noMedia (poll rn j url apiKey) => H (S attempts) ltac:(lia))
      as Hnm.
    destruct (poll rn (S attempts) url apiKey) as [[st tx|[g1|e]]|e];
      simpl in Hp; try contradiction.
    + destruct (Hrec g0) as (g' & He & Hn & Hm). exists g'.
      destruct (pollLoop rn url apiKey r (S attempts) g0) as [x ev].
      simpl in *. inversion He; subst. split; [reflexivity|]. split.
      * unfold polls in *. simpl. lia.
      * intros H0 Hall. apply Hm; [assumption|]. intros j Hj. apply Hall. lia.
    + destruct Hp as [Hc Hf].
      rewrite !bool_decide_eq_false_2 by assumption.
      destruct (Hrec (Some g1)) as (g' & He & Hn & Hm). exists g'.
      destruct (pollLoop rn url apiKey r (S attempts) (Some g1)) as [x ev].
      simpl in *. inversion He; subst. split; [reflexivity|]. split.
      * unfold polls in *. simpl. lia.
      * intros H0 Hall. apply Hm; [apply Hnm; assumption|].
        intros j Hj. apply Hall. lia.
Qed.
End PollLoopFacts.

Lemma firstRejection_none {A : Type} (l : list (nat * outcome A)) :
  firstRejection l = None <-> Forall (fun p => exists a, snd p = Ret a) l.
Proof.
  induction l as [|[t [a|e]] l IH]; cbn [firstRejection].
  - split; [constructor | reflexivity].
  - rewrite IH. split.
    + intros H. constructor; [now exists a | exact H].
    + intros H. now inversion H.
  - split.
    + destruct (firstRejection l) as [[t' e']|]; [destruct (t' <? t)%nat|];
        discriminate.
    + intros H. inversion H as [|? ? [a Ha] _]. discriminate Ha.
Qed.

Lemma fulfilled_all {A : Type} (l : list (nat * outcome A)) :
  Forall (fun p => exists a, snd p = Ret a) l ->
  Forall2 (fun p a => snd p = Ret a) l (fulfilled l).
Proof.
  induction 1 as [|[t o] l [a Ha] _ IH]; [constructor|].
  cbn [snd] in Ha. subst o.
  change (fulfilled ((t, Ret a) :: l)) with (a :: fulfilled l).
  constructor; [reflexivity | exact IH].
Qed.

Lemma fulfilled_unique {A : Type} (l : list (nat * outcome A)) r :
  Forall2 (fun p a => snd p = Ret a) l r -> fulfilled l = r.
Proof.
  induction 1 as [|[t o] a l r Ha _ IH]; [reflexivity|].
  cbn [snd] in Ha. subst o.
  change (fulfilled ((t, Ret a) :: l)) with (a :: fulfilled l).
  now rewrite IH.
Qed.

Lemma promiseAll_Ret {A : Type} (l : list (nat * outcome A)) r :
  promiseAll l = Ret r <-> Forall2 (fun p a => snd p = Ret a) l r.
Proof.
  unfold promiseAll. split.
  - destruct (firstRejection l) as [[t e]|] eqn:Hf; [discriminate|].
    intros [= <-]. apply fulfilled_all. now apply firstRejection_none.
  - intros H.
    assert (Hall : Forall (fun p => exists a, snd p = Ret a) l).
    { clear -H. induction H; constructor; eauto. }
    apply firstRejection_none in Hall. rewrite Hall.
    now rewrite (fulfilled_unique l r H).
Qed.

Lemma promiseAll_all_ok rn (images : list MediaItem) :
  Forall (fun item => exists b,
            fetchImage rn (default [] (mi_url item)) = Ret (OkBody (Ret b)))
         images ->
  exists base64s,
    promiseAll (map (download rn) images) = Ret base64s /\
    length base64s = length images.
Proof.
  intros Hall.
  assert (H : exists base64s,
            Forall2 (fun p a => snd p = Ret a) (map (download rn) images) base64s).
  { induction Hall as [|item images [b Hb] _ (l & Hl)].
    - exists []. constructor.
    - exists ((lit "data:image/png;base64," ++ b) :: l).
      cbn [map]. constructor; [|exact Hl].
      cbn [download snd]. unfold fetchBase64. now rewrite Hb. }
  destruct H as [base64s H]. exists base64s. split.
  - now apply promiseAll_Ret.
  - apply Forall2_length in H. rewrite length_map in H. auto.
Qed.

Lemma generateImage_submitted im rt rn d key jobId :
  getSetting rt "RENDERNET_API_KEY" = Some key -> key <> [] ->
  submit rn rendernetUrl key (rendernetBody (renderNetModel im) d)
    = Ret (OkBody (Ret {| generation_id := Some jobId |})) ->
  jobId <> [] ->
  let header :=
    [ILog "info" (lit "Original provider setting was: " ++ imageModelProvider rt);
     ILog "info" (lit "FORCING IMAGE GENERATION WITH RENDERNET.AI - NEVER USING OPENAI");
     ILog "info" (lit "Generating image with RenderNet.ai, requestedProvider: "
                  ++ imageModelProvider rt ++ lit ", model: " ++ renderNetModel im);
     ILog "info" (lit "Generating image with RenderNet");
     HttpPost rendernetUrl key (rendernetBody (renderNetModel im) d)] in
  generateImage im rt rn d =
    match pollLoop rn (rendernetUrl ++ lit "/" ++ jobId) key maxAttempts 0 None with
    | (PollThrew e, ev) => (failure (Caught e), header ++ ev)
    | (JobFailed err, ev) => (failure (GenerationFailed err), header ++ ev)
    | (LoopDone generationResult, ev) =>
      (fst (collectImages rn generationResult),
       header ++ ev ++ snd (collectImages rn generationResult))
    end.
Proof.
  intros Hkey Hk Hsub Hid header. subst header.
  unfold generateImage, generateImageBody. cbv zeta. rewrite Hkey.
  destruct key as [|c key]; [congruence|].
  cbn [opt_falsy str_falsy from_option id]. rewrite Hsub.
  destruct jobId as [|c' jobId]; [congruence|].
  cbn [opt_falsy str_falsy from_option id generation_id].
  destruct (pollLoop rn (rendernetUrl ++ lit "/" ++ c' :: jobId) (c :: key)
              maxAttempts 0 None) as [[g|err|e] ev]; [|reflexivity|reflexivity].
  destruct (collectImages rn g) as [r ev']. reflexivity.
Qed.

(** C7, as stated, fails in its first and in its last clause.  A job that
    is completed only on the 31st poll is never seen completed, and the
    result is [success: false]; a job that is reported completed on the
    first poll but lists no image yields [success: false] too; and a job
    that stays in progress through all 30 polls yields [success: true]
    when its last status answer lists an image, because the check after
    the loop looks at the media only. *)
Lemma generateImage_completed_without_image_fails :
  let late := {| sb_result := Some (lit "completed");
                 sb_media := Some oneImage; sb_err := lit "null" |} in
  let done := {| sb_result := Some (lit "completed");
                 sb_media := Some []; sb_err := lit "null" |} in
  let busy := {| sb_result := Some (lit "processing");
                 sb_media := Some oneImage; sb_err := lit "null" |} in
  let r0 := generateImage sampleImports sampleRuntime
              (renderNetAfter 31 late) sampleImage in
  let r1 := generateImage sampleImports sampleRuntime
              (renderNetAfter 1 done) sampleImage in
  let r2 := generateImage sampleImports sampleRuntime
              (renderNetAfter 1 busy) sampleImage in
  (fst r0 = failure NoValidResult /\ polls (snd r0) = 30%nat) /\
  (fst r1 = failure NoImages /\ polls (snd r1) = 1%nat) /\
  (success (fst r2) = true /\ polls (snd r2) = 30%nat).
Proof. vm_compute. auto 10. Qed.

(** C7 (amended): after a successful submission [generateImage] never
    polls more than 30 times.  If the [k]-th poll ([k <= 30]) is the first
    to leave the job in progress and reports it completed with a media
    array that lists at least one image with a URL, and every such image
    can be fetched, the result is [success: true] with as many assets as
    images (at least one), after exactly [k] polls.  If the [k]-th poll is
    the first to leave the job in progress and reports it failed, the
    result is [success: false] with the job's error, after exactly [k]
    polls.  If the job stays in progress, a poll answered with [ok] false
    counting as in progress, exactly 30 polls are made; the result is then
    [success: false] when no status answer carried a media array. *)
Theorem generateImage_polling im rt rn d key jobId :
  getSetting rt "RENDERNET_API_KEY" = Some key -> key <> [] ->
  submit rn rendernetUrl key (rendernetBody (renderNetModel im) d)
    = Ret (OkBody (Ret {| generation_id := Some jobId |})) ->
  jobId <> [] ->
  let answer k := poll rn k (rendernetUrl ++ lit "/" ++ jobId) key in
  let run := generateImage im rt rn d in
  (polls (snd run) <= 30)%nat /\
  (forall k g media,
     (1 <= k <= 30)%nat ->
     (forall j, (1 <= j < k)%nat -> pending (answer j)) ->
     answer k = Ret (OkBody (Ret g)) ->
     sb_result g = Some (lit "completed") ->
     sb_media g = Some media ->
     List.filter is_image media <> [] ->
     Forall (fun item => exists b,
               fetchImage rn (default [] (mi_url item)) = Ret (OkBody (Ret b)))
            (List.filter is_image media) ->
     success (fst run) = true /\
     (exists assets, data (fst run) = Some assets /\ assets <> [] /\
        length assets = length (List.filter is_image media)) /\
     polls (snd run) = k) /\
  (forall k g,
     (1 <= k <= 30)%nat ->
     (forall j, (1 <= j < k)%nat -> pending (answer j)) ->
     answer k = Ret (OkBody (Ret g)) ->
     sb_result g = Some (lit "failed") ->
     fst run = failure (GenerationFailed (sb_err g)) /\
     polls (snd run) = k) /\
  ((forall j, (1 <= j <= 30)%nat -> pending (answer j)) ->
     polls (snd run) = 30%nat /\
     ((forall j, (1 <= j <= 30)%nat -> noMedia (answer j)) ->
        fst run = failure NoValidResult)).
Proof.
  intros Hkey Hk Hsub Hid answer run. subst answer run.
  rewrite (generateImage_submitted im rt rn d key jobId Hkey Hk Hsub Hid).
  cbv zeta. match goal with |- context [?h ++ _] =>
    match h with (ILog _ _ :: _) => set (header := h) end end.
  assert (Hpolls : polls header = O) by reflexivity.
  clearbody header.
  set (url := rendernetUrl ++ lit "/" ++ jobId).
  repeat split_and.
  - pose proof (pollLoop_budget rn url key maxAttempts 0 None) as Hb.
    destruct (pollLoop rn url key maxAttempts 0 None) as [[g|err|e] ev];
      simpl in *; rewrite ?polls_app, Hpolls; try (unfold maxAttempts in Hb; lia).
    assert (polls (snd (collectImages rn g)) = O).
    { unfold collectImages. destruct g as [g|]; [|reflexivity].
      destruct (sb_media g) as [media|]; [|reflexivity].
      assert (Hf : forall l : list MediaItem,
                polls (map (fun item => GetImage (default [] (mi_url item))) l) = O).
      { induction l; [reflexivity | assumption]. }
      destruct (promiseAll _) as [l|e]; simpl; [|apply Hf].
      destruct (length l =? 0)%nat; simpl; [|apply Hf].
      rewrite polls_app, Hf. reflexivity. }
    unfold maxAttempts in Hb. lia.
  - intros k g media Hrange Hpend Hans Hres Hmedia Hne Hfetch.
    assert (Hpend' : forall j, (0 < j < 0 + k)%nat ->
              pending (poll rn j url key))
      by (intros j Hj; apply Hpend; lia).
    assert (Hrange' : (1 <= k <= maxAttempts)%nat)
      by (unfold maxAttempts; lia).
    destruct (pollLoop_completed rn url key k maxAttempts 0%nat None g
                Hpend' Hans Hres Hrange') as [He Hn].
    destruct (pollLoop rn url key maxAttempts 0 None) as [x ev].
    simpl in He, Hn. inversion He; subst x. clear He.
    simpl. unfold collectImages. rewrite Hmedia.
    destruct (promiseAll_all_ok rn _ Hfetch) as (l & Hl & Hlen).
    rewrite Hl.
    assert (Hlne : l <> []).
    { intros ->. simpl in Hlen. destruct (List.filter is_image media);
        [congruence | discriminate]. }
    destruct l as [|a l]; [congruence|]. simpl.
    split; [reflexivity|]. split.
    + exists (a :: l). auto.
    + rewrite !polls_app, Hpolls, Hn.
      assert (Hf : forall l : list MediaItem,
                polls (map (fun item => GetImage (default [] (mi_url item))) l) = O).
      { induction l0; [reflexivity | assumption]. }
      rewrite Hf. lia.
  - intros k g Hrange Hpend Hans Hres.
    assert (Hpend' : forall j, (0 < j < 0 + k)%nat ->
              pending (poll rn j url key))
      by (intros j Hj; apply Hpend; lia).
    assert (Hrange' : (1 <= k <= maxAttempts)%nat)
      by (unfold maxAttempts; lia).
    destruct (pollLoop_failed rn url key k maxAttempts 0%nat None g
                Hpend' Hans Hres Hrange') as [He Hn].
    destruct (pollLoop rn url key maxAttempts 0 None) as [x ev].
    simpl in He, Hn. inversion He; subst x. clear He.
    simpl. split; [reflexivity|].
    rewrite polls_app, Hpolls, Hn. reflexivity.
  - intros Hpend.
    assert (Hpend' : forall j, (0 < j <= 0 + maxAttempts)%nat ->
              pending (poll rn j url key))
      by (intros j Hj; apply Hpend; unfold maxAttempts in Hj; lia).
    destruct (pollLoop_pending rn url key maxAttempts 0%nat None Hpend')
      as (g' & He & Hn & Hm).
    destruct (pollLoop rn url key maxAttempts 0 None) as [x ev].
    simpl in He, Hn. inversion He; subst x. clear He.
    simpl. rewrite !polls_app, Hpolls, Hn.
    split.
    + assert (polls (snd (collectImages rn g')) = O); [|unfold maxAttempts; lia].
      unfold collectImages. destruct g' as [g'|]; [|reflexivity].
      destruct (sb_media g') as [media|]; [|reflexivity].
      assert (Hf : forall l : list MediaItem,
                polls (map (fun item => GetImage (default [] (mi_url item))) l) = O).
      { induction l; [reflexivity | assumption]. }
      destruct (promiseAll _) as [l|e]; simpl; [|apply Hf].
      destruct (length l =? 0)%nat; simpl; [|apply Hf].
      rewrite polls_app, Hf. reflexivity.
    + intros Hnm.
      assert (Hc : carriesNoMedia g').
      { apply Hm; [exact I|]. intros j Hj. apply Hnm.
        unfold maxAttempts in Hj. lia. }
      unfold collectImages. destruct g' as [g'|]; [|reflexivity].
      simpl in Hc. rewrite Hc. reflexivity.
Qed.

Lemma generateImage_polling_witness :
  let done := {| sb_result := Some (lit "completed");
                 sb_media := Some oneImage; sb_err := lit "null" |} in
  let run := generateImage sampleImports sampleRuntime
               (renderNetAfter 3 done) sampleImage in
  success (fst run) = true /\ polls (snd run) = 3%nat.
Proof.
  intros done run.
  pose proof (generateImage_polling sampleImports sampleRuntime
                (renderNetAfter 3 done) sampleImage (lit "test-key")
                (lit "gen-1") eq_refl ltac:(discriminate) eq_refl
                ltac:(discriminate)) as (_ & Hcompleted & _).
  destruct (Hcompleted 3%nat done oneImage) as (Hs & _ & Hp).
  - lia.
  - intros j Hj. destruct j as [|[|[|j]]]; try lia; vm_compute; split; discriminate.
  - reflexivity.
  - reflexivity.
  - reflexivity.
  - discriminate.
  - repeat constructor. eexists. reflexivity.
  - split; assumption.
Defined.

(* ----------------------------------------------------------------- *)
(** ** [generateImage] and the configured provider *)

(** C10: [generateImage] reads the runtime's [imageModelProvider] for its
    log lines only.  Two runtimes with the same settings get the same
    result and send the same requests (endpoint, key, body with the same
    model settings, status and image requests), whatever their
    providers; and without a [RENDERNET_API_KEY] the result is
    [success: false] and nothing is sent. *)
Theorem generateImage_ignores_provider im rn d rt1 rt2 :
  settings rt1 = settings rt2 ->
  fst (generateImage im rt1 rn d) = fst (generateImage im rt2 rn d) /\
  requests (snd (generateImage im rt1 rn d)) =
    requests (snd (generateImage im rt2 rn d)) /\
  (opt_falsy (getSetting rt1 "RENDERNET_API_KEY") = true ->
     success (fst (generateImage im rt1 rn d)) = false /\
     requests (snd (generateImage im rt1 rn d)) = []).
Proof.
  intros Hs. unfold generateImage, getSetting. rewrite Hs.
  destruct (generateImageBody rn (renderNetModel im)
              (settings rt2 !! "RENDERNET_API_KEY") d) as [r ev] eqn:Hbody.
  simpl. repeat split_and; try reflexivity.
  intros Hkey. unfold generateImageBody in Hbody. rewrite Hkey in Hbody.
  inversion Hbody; subst. auto.
Qed.

Lemma generateImage_ignores_provider_witness :
  let rt2 := {| modelProvider := lit "openai";
                imageModelProvider := lit "rendernet";
                settings := settings sampleRuntime |} in
  let done := {| sb_result := Some (lit "completed");
                 sb_media := Some oneImage; sb_err := lit "null" |} in
  fst (generateImage sampleImports sampleRuntime (renderNetAfter 2 done) sampleImage)
    = fst (generateImage sampleImports rt2 (renderNetAfter 2 done) sampleImage) /\
  requests (snd (generateImage sampleImports sampleRuntime
                   (renderNetAfter 2 done) sampleImage))
    = requests (snd (generateImage sampleImports rt2
                       (renderNetAfter 2 done) sampleImage)).
Proof.
  intros rt2 done.
  destruct (generateImage_ignores_provider sampleImports
              (renderNetAfter 2 done) sampleImage sampleRuntime rt2 eq_refl)
    as (Hr & Hq & _).
  split; assumption.
Defined.

(* ----------------------------------------------------------------- *)
(** ** The scheduled publishing loop *)

Lemma generateImageLoop_due rt env cache dl :
  cacheGetError env = None -> cacheSetError env = None ->
  chosenDelay rt env = Some dl ->
  now env > default 0 (cache !! lastImagePostKey) + dl ->
  generateImageLoop rt env cache =
    (<[lastImagePostKey := now env]> cache,
     (CLog "info" "Generating and posting scheduled image"
      :: generateAndPostImage rt env)
     ++ [CacheSet lastImagePostKey (now env); SetTimeout (Some dl);
         CLog "info" "Next image generation scheduled"]).
Proof.
  intros Hget Hset Hdl Hdue. unfold generateImageLoop, chosenDelay in *.
  rewrite Hget, Hset. cbv zeta. rewrite Hdl.
  replace (now env >? default 0 (cache !! lastImagePostKey) + dl) with true
    by (symmetry; apply Z.gtb_lt; lia).
  reflexivity.
Qed.

Lemma generateImageLoop_not_due rt env cache dl :
  cacheGetError env = None ->
  chosenDelay rt env = Some dl ->
  ~ now env > default 0 (cache !! lastImagePostKey) + dl ->
  generateImageLoop rt env cache =
    (cache, [SetTimeout (Some dl); CLog "info" "Next image generation scheduled"]).
Proof.
  intros Hget Hdl Hdue. unfold generateImageLoop, chosenDelay in *.
  rewrite Hget. cbv zeta. rewrite Hdl.
  destruct (now env >? default 0 (cache !! lastImagePostKey) + dl) eqn:E;
    [|reflexivity].
  apply Z.gtb_lt in E. lia.
Qed.

Lemma watermarkWrites_app a b :
  watermarkWrites (a ++ b) = watermarkWrites a ++ watermarkWrites b.
Proof. apply omap_app. Qed.

Lemma tweets_app a b : tweets (a ++ b) = tweets a ++ tweets b.
Proof. apply omap_app. Qed.

Lemma scheduled_app a b : scheduled (a ++ b) = scheduled a ++ scheduled b.
Proof. apply omap_app. Qed.

Lemma postImageToTwitter_quiet rt env caption :
  watermarkWrites (postImageToTwitter rt env caption) = [] /\
  scheduled (postImageToTwitter rt env caption) = [].
Proof.
  unfold postImageToTwitter.
  repeat match goal with
         | |- context [if ?b then _ else _] => destruct b
         | |- context [match ?x with _ => _ end] => destruct x
         end; split; reflexivity.
Qed.

Lemma generateAndPostImage_quiet rt env :
  watermarkWrites (generateAndPostImage rt env) = [] /\
  scheduled (generateAndPostImage rt env) = [].
Proof.
  unfold generateAndPostImage.
  destruct (generateImagePrompt env) as [p|e]; [|split; reflexivity].
  destruct (imageOutcome env) as [r|e]; [|split; reflexivity].
  destruct (success r); [|split; reflexivity].
  destruct (data r) as [[|url rest]|]; try (split; reflexivity).
  destruct (saveOutcome env) as [path|e]; [|split; reflexivity].
  destruct (postImageToTwitter_quiet rt env p) as [Hw Hs].
  split; simpl; assumption.
Qed.

(** C1 (what the code does): when a cycle is due and the cache can be
    read and written, the watermark is set to the cycle's [now] whatever
    becomes of the pipeline; [generateAndPostImage] swallows every
    failure, so the write that follows it always runs. *)
Theorem watermark_written_whatever_the_pipeline rt env cache dl :
  cacheGetError env = None -> cacheSetError env = None ->
  chosenDelay rt env = Some dl ->
  now env > default 0 (cache !! lastImagePostKey) + dl ->
  fst (generateImageLoop rt env cache) !! lastImagePostKey = Some (now env) /\
  watermarkWrites (snd (generateImageLoop rt env cache)) = [now env].
Proof.
  intros Hget Hset Hdl Hdue.
  rewrite (generateImageLoop_due rt env cache dl) by assumption.
  cbn [fst snd]. split.
  - apply lookup_insert_eq.
  - rewrite watermarkWrites_app.
    change (watermarkWrites (CLog "info" "Generating and posting scheduled image"
                             :: generateAndPostImage rt env))
      with (watermarkWrites (generateAndPostImage rt env)).
    rewrite (proj1 (generateAndPostImage_quiet rt env)). reflexivity.
Qed.

(** The failing input: image generation fails in a due cycle; nothing is
    tweeted and the watermark moves from 1000 to the cycle's [now]. *)
Lemma watermark_written_whatever_the_pipeline_witness :
  let cache := <[lastImagePostKey := 1000]> (∅ : gmap string Z) in
  let after := generateImageLoop twitterRuntime failedImageEnv cache in
  tweets (snd after) = [] /\
  fst after !! lastImagePostKey = Some 1700000000000 /\
  watermarkWrites (snd after) = [1700000000000].
Proof.
  intros cache after. split; [reflexivity|].
  apply (watermark_written_whatever_the_pipeline twitterRuntime failedImageEnv
           cache (180 * 60 * 1000)); try reflexivity.
Defined.

(** Rounding to doubles. *)

Lemma roundHalfEven_bounds a b :
  0 < b -> a / b <= roundHalfEven a b <= a / b + 1.
Proof.
  intros Hb. unfold roundHalfEven. cbv zeta.
  destruct (2 * (a mod b) <? b); [lia|].
  destruct (b <? 2 * (a mod b)); [lia|].
  destruct (Z.even (a / b)); lia.
Qed.

Lemma roundHalfEven_exact a b : 0 < b -> roundHalfEven (a * b) b = a.
Proof.
  intros Hb. unfold roundHalfEven. cbv zeta.
  rewrite Z.mod_mul, Z.div_mul by lia.
  replace (2 * 0 <? b) with true by (symmetry; apply Z.ltb_lt; lia).
  reflexivity.
Qed.


Lemma toDouble_exact z : - 2 ^ 53 < z < 2 ^ 53 -> toDouble z = z.
Proof.
  intros Hz.
  assert (Hpos : forall a, 0 < a < 2 ^ 53 ->
            exists T, 0 < T /\ nearestDouble a 1 = (a * T, T)).
  { intros a Ha. unfold nearestDouble.
    replace (a =? 0) with false by (symmetry; apply Z.eqb_neq; lia).
    cbv zeta. unfold binade.
    replace (1 <=? a) with true by (symmetry; apply Z.leb_le; lia).
    rewrite Z.div_1_r.
    assert (Hk : 0 <= Z.log2 a < 53).
    { split; [apply Z.log2_nonneg|]. apply Z.log2_lt_pow2; lia. }
    replace (Z.log2 a <=? 52) with true by (symmetry; apply Z.leb_le; lia).
    exists (2 ^ Z.min (52 - Z.log2 a) 1074). split.
    - apply Z.pow_pos_nonneg; lia.
    - f_equal. unfold roundHalfEven. cbv zeta.
      rewrite Z.mod_1_r, Z.div_1_r. reflexivity. }
  unfold toDouble, Math_floor, double_of.
  destruct (Z.ltb_spec z 0) as [Hneg|Hnn].
  - destruct (Hpos (- z) ltac:(lia)) as (T & HT & ->). cbn [fst snd].
    replace (- (- z * T)) with (z * T) by lia. apply Z.div_mul. lia.
  - destruct (Z.eq_dec z 0) as [->|Hne]; [reflexivity|].
    destruct (Hpos z ltac:(lia)) as (T & HT & ->). cbn [fst snd].
    apply Z.div_mul. lia.
Qed.


Lemma toDouble_large x : 2 ^ 53 <= x -> 2 ^ 53 <= toDouble x.
Proof.
  intros Hx. unfold toDouble, Math_floor, double_of.
  replace (x <? 0) with false by (symmetry; apply Z.ltb_ge; lia).
  unfold nearestDouble.
  replace (x =? 0) with false by (symmetry; apply Z.eqb_neq; lia).
  cbv zeta. unfold binade.
  replace (1 <=? x) with true by (symmetry; apply Z.leb_le; lia).
  rewrite Z.div_1_r.
  assert (Hk : 53 <= Z.log2 x) by (apply Z.log2_le_pow2; lia).
  replace (Z.log2 x <=? 52) with false by (symmetry; apply Z.leb_gt; lia).
  cbn [fst snd]. rewrite Z.div_1_r, Z.mul_1_l.
  destruct (Z.log2_spec x ltac:(lia)) as [Hl _].
  set (k := Z.log2 x) in *.
  assert (HS : 0 < 2 ^ (k - 52)) by (apply Z.pow_pos_nonneg; lia).
  assert (HKS : 2 ^ 52 * 2 ^ (k - 52) = 2 ^ k).
  { rewrite <- Z.pow_add_r by lia. f_equal. lia. }
  pose proof (roundHalfEven_bounds x (2 ^ (k - 52)) HS) as [Hlo _].
  assert (2 ^ 52 <= x / 2 ^ (k - 52)) by (apply Z.div_le_lower_bound; lia).
  assert (2 ^ 53 <= 2 ^ k) by (apply Z.pow_le_mono_r; lia).
  nia.
Qed.

Lemma toDouble_small x : x <= - 2 ^ 53 -> toDouble x <= - 2 ^ 53.
Proof.
  intros Hx. pose proof (toDouble_large (- x) ltac:(lia)) as Hl.
  unfold toDouble, Math_floor, double_of in *.
  replace (x <? 0) with true by (symmetry; apply Z.ltb_lt; lia).
  replace (- x <? 0) with false in Hl by (symmetry; apply Z.ltb_ge; lia).
  unfold nearestDouble in *.
  replace (- x =? 0) with false in * by (symmetry; apply Z.eqb_neq; lia).
  cbv zeta in *. unfold binade in *.
  replace (1 <=? - x) with true in * by (symmetry; apply Z.leb_le; lia).
  rewrite Z.div_1_r in *.
  assert (Hk : 53 <= Z.log2 (- x)) by (apply Z.log2_le_pow2; lia).
  replace (Z.log2 (- x) <=? 52) with false in *
    by (symmetry; apply Z.leb_gt; lia).
  cbn [fst snd] in *. rewrite Z.div_1_r in *. lia.
Qed.

(** A clock reading, an integer below [2^53] in magnitude, is above the
    double nearest to a sum exactly when it is above the sum. *)
Lemma above_double_sum (now x : Z) :
  - 2 ^ 53 < now < 2 ^ 53 -> (now >? toDouble x) = (now >? x).
Proof.
  intros Hn.
  destruct (Z_le_gt_dec (2 ^ 53) x) as [Hbig|Hbig].
  { pose proof (toDouble_large x Hbig).
    rewrite !Z.gtb_ltb.
    destruct (Z.ltb_spec (toDouble x) now); destruct (Z.ltb_spec x now); lia. }
  destruct (Z_le_gt_dec x (- 2 ^ 53)) as [Hsmall|Hsmall].
  { pose proof (toDouble_small x Hsmall).
    rewrite !Z.gtb_ltb.
    destruct (Z.ltb_spec (toDouble x) now); destruct (Z.ltb_spec x now); lia. }
  now rewrite toDouble_exact by lia.
Qed.

Lemma pipeline_tweets_once rt env :
  pipelineSucceeds rt env ->
  exists text, tweets (generateAndPostImage rt env) = [text].
Proof.
  intros ((p & Hp) & (url & rest & Hi) & (path & Hsave) & Hu & He & Hf & Hc
          & Hr & Hpost).
  unfold generateAndPostImage. rewrite Hp, Hi. cbn [success data].
  rewrite Hsave. unfold postImageToTwitter.
  rewrite Hu, Hf, Hc, Hr, Hpost.
  rewrite bool_decide_eq_false_2 by assumption.
  eexists. reflexivity.
Qed.





(* ----------------------------------------------------------------- *)
(** ** [extractTweetContent] *)

Example extract_sample_1 :
  extractTweetContent
    (qlit "Here is the response in the voice, style, and perspective of Eliza (@pysolver33):{ ~user~: ~Eliza~, ~text~: ~or maybe we're just trying to find a way to encode our own darkness~, ~action~: ~CONTINUE~ }Let me know if you need anything else!")
  = Some (lit "or maybe we're just trying to find a way to encode our own darkness").
Proof. vm_compute. reflexivity. Qed.

Example extract_sample_3 :
  extractTweetContent
    (lit "```json" ++ [10%N] ++
     qlit "{~text~: ~Code is poetry written for machines to execute and humans to understand.~}"
     ++ [10%N] ++ lit "```")
  = Some (lit "Code is poetry written for machines to execute and humans to understand.").
Proof. vm_compute. reflexivity. Qed.

Example extract_hello :
  extractTweetContent (qlit "Here you go: {~text~:~hello~}  thanks!")
  = Some (lit "hello").
Proof. vm_compute. reflexivity. Qed.

Example extract_prefix_only :
  extractTweetContent (qlit "Tweet from @eliza: gm everyone")
  = Some (lit "gm everyone").
Proof. vm_compute. reflexivity. Qed.

Example extract_fence_only :
  extractTweetContent (lit "```json" ++ [10%N] ++ lit "gm" ++ [10%N] ++ lit "```")
  = Some (lit "gm").
Proof. vm_compute. reflexivity. Qed.

Lemma star_k_run {X : Type} (p : N -> bool) (k : jsstring -> option X) s c t x :
  Forall (fun a => p a = true) s -> p c = false ->
  k (c :: t) = Some x ->
  star_k p (s ++ c :: t) k = Some x.
Proof.
  intros Hs Hc Hk. induction Hs as [|a s Ha _ IH]; simpl.
  - now rewrite Hc.
  - now rewrite Ha, IH.
Qed.

Lemma take_app_minus {A : Type} (a b : list A) :
  take (length (a ++ b) - length b) (a ++ b) = a.
Proof.
  rewrite length_app. replace (length a + length b - length b)%nat
    with (length a) by lia.
  now rewrite take_app_length.
Qed.




Lemma search_from_skip r idx prose t :
  Forall (fun c => match_here r idx [c] = None /\
                   forall i u, match_here r i (c :: u) = None) prose ->
  search_from r idx (prose ++ t) = search_from r (idx + length prose) t.
Proof.
  revert idx. induction prose as [|c prose IH]; intros idx Hp; simpl.
  - now rewrite Nat.add_0_r.
  - inversion Hp as [|? ? [_ Hc] Hrest]; subst.
    rewrite Hc. rewrite IH.
    + f_equal. lia.
    + eapply Forall_impl; [exact Hrest|]. intros a [_ Ha]. split; apply Ha.
Qed.

Lemma jsonRegex_needs_brace c i u :
  c <> cu "{" -> match_here jsonRegex i (c :: u) = None.
Proof.
  intros Hc. unfold match_here, jsonRegex. cbn [seqs mre].
  unfold chr_is. now rewrite (proj2 (N.eqb_neq c (cu "{")) Hc).
Qed.

Lemma json_string_body_plain s rest :
  Forall (fun c => plain c = true) s ->
  json_string_body (s ++ dq :: rest) = Some (s, rest).
Proof.
  induction 1 as [|c s Hc _ IH]; [reflexivity|].
  unfold plain in Hc. apply andb_prop in Hc as [Hc H32].
  apply andb_prop in Hc as [Hq Hb].
  apply negb_true_iff in Hq, Hb, H32.
  cbn [app json_string_body]. rewrite Hq, Hb, H32, IH. reflexivity.
Qed.

(** The object whose only member is [text], holding [s]. *)
Lemma textObject_cons s t :
  (qlit "{~text~:~" ++ s ++ qlit "~}") ++ t =
  cu "{" :: dq :: cu "t" :: cu "e" :: cu "x" :: cu "t" :: dq :: cu ":" :: dq
    :: (s ++ dq :: cu "}" :: t).
Proof.
  change (qlit "{~text~:~") with
    [cu "{"; dq; cu "t"; cu "e"; cu "x"; cu "t"; dq; cu ":"; dq].
  change (qlit "~}") with [dq; cu "}"].
  rewrite <- !app_assoc. reflexivity.
Qed.

Section RegexSteps.
Context {X : Type}.
Variable k : jsstring -> option jsstring -> option X.

Lemma mre_seq_seq a b c s cap :
  mre (Seq (Seq a b) c) s cap k = mre (Seq a (Seq b c)) s cap k.
Proof. reflexivity. Qed.

Lemma mre_seq_eps b s cap : mre (Seq Eps b) s cap k = mre b s cap k.
Proof. reflexivity. Qed.

Lemma mre_seq_cls p b c t cap :
  p c = true -> mre (Seq (Cls p) b) (c :: t) cap k = mre b t cap k.
Proof. intros H. simpl. now rewrite H. Qed.

Lemma mre_seq_star_stop p b c t cap :
  p c = false -> mre (Seq (Star p) b) (c :: t) cap k = mre b (c :: t) cap k.
Proof. intros H. simpl. now rewrite H. Qed.

Lemma mre_seq_cap_star_run p b s c t cap x :
  Forall (fun a => p a = true) s -> p c = false ->
  mre b (c :: t) (Some s) k = Some x ->
  mre (Seq (Cap (Star p)) b) (s ++ c :: t) cap k = Some x.
Proof.
  intros Hs Hc Hk. simpl. apply star_k_run; try assumption.
  now rewrite take_app_minus.
Qed.
End RegexSteps.

Ltac regex_step :=
  first [ rewrite mre_seq_seq
        | rewrite mre_seq_eps
        | rewrite mre_seq_cls by reflexivity
        | rewrite mre_seq_star_stop by reflexivity ].

Lemma plain_not_dq s :
  Forall (fun c => plain c = true) s -> Forall (fun c => not_dq c = true) s.
Proof.
  intros H. eapply Forall_impl; [exact H|]. intros c Hc. unfold plain in Hc.
  apply andb_prop in Hc as [Hc _]. apply andb_prop in Hc as [Hq _]. exact Hq.
Qed.

Lemma jsonRegex_run {X : Type} (k : jsstring -> option jsstring -> option X)
    s t x :
  Forall (fun c => plain c = true) s ->
  k t (Some s) = Some x ->
  mre jsonRegex
    (cu "{" :: dq :: cu "t" :: cu "e" :: cu "x" :: cu "t" :: dq :: cu ":" :: dq
       :: (s ++ dq :: cu "}" :: t)) None k = Some x.
Proof.
  intros Hs Hk. unfold jsonRegex.
  change (lit "text") with [cu "t"; cu "e"; cu "x"; cu "t"].
  cbn [seqs str_re].
  repeat regex_step.
  apply mre_seq_cap_star_run; [now apply plain_not_dq | reflexivity |].
  repeat regex_step. simpl. exact Hk.
Qed.

Lemma jsonRegex_on_textObject s t idx :
  Forall (fun c => plain c = true) s ->
  match_here jsonRegex idx ((qlit "{~text~:~" ++ s ++ qlit "~}") ++ t) =
    Some {| m_index := idx;
            m_0 := qlit "{~text~:~" ++ s ++ qlit "~}";
            m_1 := Some s;
            m_rest := t |}.
Proof.
  intros Hs. unfold match_here.
  match goal with |- mre _ _ _ ?f = _ => set (k := f) end.
  rewrite textObject_cons. apply jsonRegex_run; [assumption|].
  subst k. cbv beta. now rewrite take_app_minus.
Qed.

Lemma JSON_parse_textObject s :
  Forall (fun c => plain c = true) s ->
  JSON_parse_text (qlit "{~text~:~" ++ s ++ qlit "~}") = Some s.
Proof.
  intros Hs.
  rewrite <- (app_nil_r (qlit "{~text~:~" ++ s ++ qlit "~}")).
  rewrite textObject_cons. unfold JSON_parse_text.
  change (skip_json_ws (cu "{" :: ?r)) with (cu "{" :: r).
  change (expect (lit "{") (cu "{" :: ?r)) with (Some r).
  cbn [mbind option_bind].
  change (expect (qlit "~text~") (skip_json_ws
            (dq :: cu "t" :: cu "e" :: cu "x" :: cu "t" :: dq :: ?r)))
    with (Some r).
  cbn [mbind option_bind].
  change (expect (lit ":") (skip_json_ws (cu ":" :: ?r))) with (Some r).
  cbn [mbind option_bind].
  change (expect [dq] (skip_json_ws (dq :: ?r))) with (Some r).
  cbn [mbind option_bind].
  rewrite json_string_body_plain by assumption.
  reflexivity.
Qed.

Lemma search_from_here r idx s m :
  match_here r idx s = Some m -> search_from r idx s = Some m.
Proof. intros H. destruct s; simpl; now rewrite H. Qed.

(** C8, as stated, fails: [extractTweetContent] looks for a [text] member
    and returns its characters.  An embedded object without that member
    is not extracted at all, and a [text] member holding an escaped quote
    is cut at the backslash. *)
Lemma extractTweetContent_misses_objects :
  extractTweetContent (qlit "Result: {~a~:~b~}") = None /\
  extractTweetContent (qlit "Here you go: {~text~:~say \~hi\~~}")
    = Some (lit "say \").
Proof. vm_compute. auto. Qed.

(** C8 (amended): for an object [{"text":"s"}] whose string [s] is not
    empty and holds no double quote, backslash or control character,
    embedded after prose without an opening brace and followed by any
    text, [extractTweetContent] returns [s] with the surrounding
    whitespace trimmed: the value of the [text] member, not the object. *)
Theorem extractTweetContent_text_member prose s tail :
  Forall (fun c => c <> cu "{") prose ->
  Forall (fun c => plain c = true) s ->
  s <> [] ->
  extractTweetContent (prose ++ (qlit "{~text~:~" ++ s ++ qlit "~}") ++ tail)
    = Some (trim s).
Proof.
  intros Hprose Hs Hne. unfold extractTweetContent, str_match.
  rewrite search_from_skip.
  - rewrite (search_from_here _ _ _ _
               (jsonRegex_on_textObject s tail (0 + length prose) Hs)).
    cbn [m_0]. rewrite JSON_parse_textObject by assumption.
    destruct s; [congruence | reflexivity].
  - eapply Forall_impl; [exact Hprose|]. intros c Hc.
    split; [|intros i u]; now apply jsonRegex_needs_brace.
Qed.

Lemma extractTweetContent_text_member_witness :
  extractTweetContent (qlit "Here you go: {~text~:~hello~}  thanks!")
    = Some (lit "hello").
Proof.
  apply (extractTweetContent_text_member (lit "Here you go: ") (lit "hello")
           (lit "  thanks!")).
  - repeat constructor; discriminate.
  - repeat constructor.
  - discriminate.
Defined.

(* ================================================================= *)
(** * Further properties *)

(* ----------------------------------------------------------------- *)
(** ** [splitText] without overlap *)

Lemma substring_inside {A : Type} (s e : Z) (l : list A) :
  0 <= s <= e -> e <= Z.of_nat (length l) ->
  substring s e l = take (Z.to_nat (e - s)) (drop (Z.to_nat s) l).
Proof.
  intros Hs He. unfold substring. cbv zeta. f_equal; [|f_equal]; lia.
Qed.

Lemma splitText_loop_no_bleed fuel : forall content chunkSize start chunks,
  0 < chunkSize ->
  0 <= start <= Z.of_nat (length content) ->
  Z.of_nat (length content) - start <= Z.of_nat fuel ->
  exists rest,
    splitText_loop fuel content chunkSize 0 start chunks = Some (chunks ++ rest) /\
    concat rest = drop (Z.to_nat start) content /\
    Forall (fun c => c <> [] /\ Z.of_nat (length c) <= chunkSize) rest.
Proof.
  induction fuel as [|fuel IH]; intros content chunkSize start chunks Hc Hs Hf;
    simpl; destruct (Z.ltb_spec start (Z.of_nat (length content))) as [Hlt|Hge];
    try lia.
  - exists []. rewrite app_nil_r. repeat split; [|constructor].
    rewrite drop_ge by lia. reflexivity.
  - set (e := Z.min (start + chunkSize) (Z.of_nat (length content))).
    assert (He : start < e <= Z.of_nat (length content)) by (subst e; lia).
    destruct (IH content chunkSize e
                (chunks ++ [substring start e content])) as (rest & Hr & Hcat & Hall);
      try lia.
    rewrite Z.sub_0_r. exists (substring start e content :: rest).
    rewrite Hr, <- app_assoc. split; [reflexivity|].
    rewrite substring_inside by lia. split.
    + simpl. rewrite Hcat.
      replace (Z.to_nat e) with (Z.to_nat start + Z.to_nat (e - start))%nat by lia.
      rewrite <- drop_drop. apply take_drop.
    + constructor; [|assumption].
      assert (Hlen : length (take (Z.to_nat (e - start))
                               (drop (Z.to_nat start) content))
                     = Z.to_nat (e - start)).
      { rewrite length_take, length_drop. lia. }
      split.
      * intros Hnil. rewrite Hnil in Hlen. simpl in Hlen. lia.
      * rewrite Hlen. subst e. lia.
  - exists []. rewrite app_nil_r. repeat split; [|constructor].
    rewrite drop_ge by lia. reflexivity.
Qed.

(** X1: with a positive chunk size and no overlap [splitText] leaves its
    loop after at most [content.length] iterations, and the chunks it
    returns are non-empty, at most [chunkSize] long, and concatenate to
    the content. *)
Theorem splitText_no_bleed_partitions fuel content chunkSize :
  0 < chunkSize -> (length content <= fuel)%nat ->
  exists chunks,
    splitText fuel content chunkSize 0 = Some chunks /\
    concat chunks = content /\
    Forall (fun c => c <> [] /\ Z.of_nat (length c) <= chunkSize) chunks.
Proof.
  intros Hc Hf.
  destruct (splitText_loop_no_bleed fuel content chunkSize 0 [] Hc)
    as (rest & Hr & Hcat & Hall); try lia.
  exists rest. auto.
Qed.

Lemma splitText_no_bleed_partitions_witness :
  exists chunks,
    splitText 6 (lit "abcdef") 4 0 = Some chunks /\
    concat chunks = lit "abcdef" /\
    Forall (fun c => c <> [] /\ Z.of_nat (length c) <= 4) chunks.
Proof.
  apply (splitText_no_bleed_partitions 6 (lit "abcdef") 4); [lia | vm_compute; lia].
Defined.

(* ----------------------------------------------------------------- *)
(** ** The tweet text *)

Lemma substring_prefix {A : Type} (n : Z) (l : list A) :
  0 <= n -> substring 0 n l = take (Z.to_nat n) l.
Proof.
  intros Hn. unfold substring. cbv zeta.
  replace (Z.to_nat (Z.min (Z.min (Z.max 0 0) (Z.of_nat (length l)))
                       (Z.min (Z.max n 0) (Z.of_nat (length l))))) with O by lia.
  rewrite drop_0.
  destruct (Z.le_gt_cases n (Z.of_nat (length l))).
  - f_equal. lia.
  - rewrite !take_ge by lia. reflexivity.
Qed.

(** X2: the text [postImageToTwitter] posts always ends with the hashtag
    and never exceeds 209 code units: a caption of at most 200 code units
    is kept whole; a longer one is cut to its first 197 code units
    followed by an ellipsis, which gives exactly 209. *)
Theorem tweetTextOf_shape caption :
  (length (tweetTextOf caption) <= 209)%nat /\
  ((length caption <= 200)%nat ->
     tweetTextOf caption = caption ++ lit " #ElizaAI") /\
  ((200 < length caption)%nat ->
     tweetTextOf caption = take 197 caption ++ lit "... #ElizaAI" /\
     length (tweetTextOf caption) = 209%nat).
Proof.
  assert (Hshort : (length caption <= 200)%nat ->
            tweetTextOf caption = caption ++ lit " #ElizaAI").
  { intros H. unfold tweetTextOf. cbv zeta.
    destruct (Z.gtb_spec (Z.of_nat (length caption)) 200); [lia|reflexivity]. }
  assert (Hlong : (200 < length caption)%nat ->
            tweetTextOf caption = take 197 caption ++ lit "... #ElizaAI").
  { intros H. unfold tweetTextOf. cbv zeta.
    destruct (Z.gtb_spec (Z.of_nat (length caption)) 200); [|lia].
    rewrite substring_prefix by lia. rewrite <- app_assoc. reflexivity. }
  assert (Hlen : (200 < length caption)%nat ->
            length (tweetTextOf caption) = 209%nat).
  { intros H. rewrite Hlong by assumption.
    rewrite length_app, length_take. change (length (lit "... #ElizaAI")) with 12%nat.
    lia. }
  repeat split; auto.
  destruct (le_lt_dec (length caption) 200) as [H|H].
  - rewrite Hshort by assumption. rewrite length_app.
    change (length (lit " #ElizaAI")) with 9%nat. lia.
  - rewrite Hlen by assumption. lia.
Qed.

Lemma tweetTextOf_shape_witness :
  tweetTextOf (lit "a lighthouse at dusk") = lit "a lighthouse at dusk #ElizaAI" /\
  length (tweetTextOf (lit "0123456789012345678901234567890123456789012345678901234567890123456789012345678901234567890123456789012345678901234567890123456789012345678901234567890123456789012345678901234567890123456789012345678901234567890123456789"))
    = 209%nat.
Proof.
  split.
  - apply (proj1 (proj2 (tweetTextOf_shape (lit "a lighthouse at dusk")))).
    vm_compute. lia.
  - apply (proj2 (proj2 (tweetTextOf_shape _))). vm_compute. lia.
Defined.

(* ----------------------------------------------------------------- *)
(** ** What the publishing pipeline never does *)

Ltac split_cases :=
  repeat match goal with
         | |- context [if ?b then _ else _] => destruct b eqn:?
         | |- context [match ?x with _ => _ end] => destruct x eqn:?
         end.

Lemma postImageToTwitter_tweets_le rt env caption :
  (length (tweets (postImageToTwitter rt env caption)) <= 1)%nat.
Proof. unfold postImageToTwitter. split_cases; simpl; lia. Qed.

(** X3: one call of [postImageToTwitter] sends at most one tweet, its
    text is the cut caption with the hashtag, and nothing is sent when
    [TWITTER_USERNAME] is unset, [ENABLE_IMAGE_POSTING] is "false" or the
    image file is missing. *)
Theorem postImageToTwitter_at_most_once rt env caption :
  (length (tweets (postImageToTwitter rt env caption)) <= 1)%nat /\
  Forall (fun t => t = tweetTextOf caption)
         (tweets (postImageToTwitter rt env caption)) /\
  (opt_falsy (getSetting rt "TWITTER_USERNAME") = true \/
   getSetting rt "ENABLE_IMAGE_POSTING" = Some (lit "false") \/
   fileExists env = false ->
   tweets (postImageToTwitter rt env caption) = []).
Proof.
  repeat split_and.
  - apply postImageToTwitter_tweets_le.
  - unfold postImageToTwitter. split_cases; simpl; repeat constructor.
  - intros H. unfold postImageToTwitter.
    destruct (opt_falsy (getSetting rt "TWITTER_USERNAME")) eqn:Hu;
      [reflexivity|].
    destruct (bool_decide (getSetting rt "ENABLE_IMAGE_POSTING"
                           = Some (lit "false"))) eqn:He; [reflexivity|].
    apply bool_decide_eq_false in He.
    destruct (fileExists env) eqn:Hf; [|reflexivity].
    destruct H as [H|[H|H]]; congruence.
Qed.

Lemma postImageToTwitter_at_most_once_witness :
  tweets (postImageToTwitter sampleRuntime workingEnv (lit "a lighthouse")) = [].
Proof.
  apply (proj2 (proj2 (postImageToTwitter_at_most_once sampleRuntime workingEnv
                         (lit "a lighthouse")))).
  left. reflexivity.
Defined.

(** X4: one call of [generateAndPostImage] sends at most one tweet and
    saves at most one image, the first asset; when image generation
    reports no success or returns no asset, nothing is saved and nothing
    is sent. *)
Theorem generateAndPostImage_needs_an_image rt env :
  (length (tweets (generateAndPostImage rt env)) <= 1)%nat /\
  (savedImages (generateAndPostImage rt env) = [] \/
   exists r url rest, imageOutcome env = Ret r /\ success r = true /\
     data r = Some (url :: rest) /\
     savedImages (generateAndPostImage rt env) = [url]) /\
  (forall r, imageOutcome env = Ret r ->
     success r = false \/ data r = None \/ data r = Some [] ->
     tweets (generateAndPostImage rt env) = [] /\
     savedImages (generateAndPostImage rt env) = []).
Proof.
  assert (Hp : forall p, savedImages (postImageToTwitter rt env p) = []).
  { intros p. unfold postImageToTwitter. split_cases; reflexivity. }
  repeat split_and.
  - unfold generateAndPostImage.
    destruct (generateImagePrompt env) as [p|e]; [|simpl; lia].
    destruct (imageOutcome env) as [r|e]; [|simpl; lia].
    destruct (success r); [|simpl; lia].
    destruct (data r) as [[|url rest]|]; try (simpl; lia).
    destruct (saveOutcome env) as [path|e]; [|simpl; lia].
    apply postImageToTwitter_tweets_le.
  - unfold generateAndPostImage.
    destruct (generateImagePrompt env) as [p|e]; [|left; reflexivity].
    destruct (imageOutcome env) as [r|e]; [|left; reflexivity].
    destruct (success r) eqn:Hs; [|left; reflexivity].
    destruct (data r) as [[|url rest]|] eqn:Hd; try (left; reflexivity).
    right. exists r, url, rest. repeat split_and; try assumption; try reflexivity.
    destruct (saveOutcome env) as [path|e]; [|reflexivity].
    change (savedImages (SaveImage url :: postImageToTwitter rt env p))
      with (url :: savedImages (postImageToTwitter rt env p)).
    now rewrite Hp.
  - intros r Hr Hbad. unfold generateAndPostImage. rewrite Hr.
    destruct (generateImagePrompt env) as [p|e]; [|split; reflexivity].
    destruct Hbad as [H|[H|H]]; rewrite H; destruct (success r);
      split; reflexivity.
Qed.

Lemma generateAndPostImage_needs_an_image_witness :
  tweets (generateAndPostImage twitterRuntime failedImageEnv) = [] /\
  savedImages (generateAndPostImage twitterRuntime failedImageEnv) = [].
Proof.
  apply (proj2 (proj2 (generateAndPostImage_needs_an_image twitterRuntime
                         failedImageEnv)) (failure NoValidResult) eq_refl).
  left. reflexivity.
Defined.

(** X5: every run of [generateImageLoop] arms exactly one timer: after 15
    minutes when a cache access throws, after the delay the cycle chose
    otherwise.  It writes the watermark at most once, and the cache it
    leaves is the one it found or that one with the watermark set to the
    cycle's [now]. *)
Theorem generateImageLoop_arms_one_timer rt env cache :
  (exists ms, scheduled (snd (generateImageLoop rt env cache)) = [ms] /\
     (ms = Some recoveryDelay \/ ms = chosenDelay rt env)) /\
  (length (watermarkWrites (snd (generateImageLoop rt env cache))) <= 1)%nat /\
  (fst (generateImageLoop rt env cache) = cache \/
   fst (generateImageLoop rt env cache) = <[lastImagePostKey := now env]> cache).
Proof.
  destruct (generateAndPostImage_quiet rt env) as [Hw Hs].
  unfold generateImageLoop, chosenDelay.
  destruct (cacheGetError env) as [e|].
  { repeat split_and; [eexists; split; [reflexivity|left; reflexivity]
                      | simpl; lia | left; reflexivity]. }
  cbv zeta.
  set (delay := minutesToMs <$> _).
  destruct (match delay with
            | Some dl => now env >? default 0 (cache !! lastImagePostKey) + dl
            | None => false
            end).
  - destruct (cacheSetError env) as [e|]; cbn [fst snd];
      rewrite scheduled_app, watermarkWrites_app;
      change (scheduled (CLog "info" "Generating and posting scheduled image"
                         :: generateAndPostImage rt env))
        with (scheduled (generateAndPostImage rt env));
      change (watermarkWrites (CLog "info" "Generating and posting scheduled image"
                               :: generateAndPostImage rt env))
        with (watermarkWrites (generateAndPostImage rt env));
      rewrite Hw, Hs.
    + repeat split_and; [eexists; split; [reflexivity|left; reflexivity]
                        | simpl; lia | left; reflexivity].
    + repeat split_and; [eexists; split; [reflexivity|right; reflexivity]
                        | simpl; lia | right; reflexivity].
  - repeat split_and; [eexists; split; [reflexivity|right; reflexivity]
                      | simpl; lia | left; reflexivity].
Qed.

(** X6: when an interval setting is not a number the chosen delay is
    [NaN]; the cycle then never runs the pipeline, whatever the
    watermark and the clock, leaves the cache alone and arms its timer
    with [NaN]. *)
Theorem generateImageLoop_nan_never_publishes rt env cache :
  cacheGetError env = None ->
  parseInt (str_or (getSetting rt "IMAGE_POST_INTERVAL_MIN")
              DEFAULT_IMAGE_INTERVAL_MIN) = None \/
  parseInt (str_or (getSetting rt "IMAGE_POST_INTERVAL_MAX")
              DEFAULT_IMAGE_INTERVAL_MAX) = None ->
  generateImageLoop rt env cache =
    (cache, [SetTimeout None; CLog "info" "Next image generation scheduled"]).
Proof.
  intros Hget Hnan. unfold generateImageLoop. rewrite Hget. cbv zeta.
  destruct Hnan as [H|H]; rewrite H; [reflexivity|].
  destruct (parseInt (str_or (getSetting rt "IMAGE_POST_INTERVAL_MIN") _));
    reflexivity.
Qed.

Lemma generateImageLoop_nan_never_publishes_witness :
  generateImageLoop wordyRuntime workingEnv ∅ =
    (∅, [SetTimeout None; CLog "info" "Next image generation scheduled"]).
Proof.
  apply (generateImageLoop_nan_never_publishes wordyRuntime workingEnv ∅);
    [reflexivity | left; reflexivity].
Defined.

(** X7: when reading the watermark throws, the cycle does nothing but
    arm the 15-minute timer.  When the cycle is due and writing the
    watermark throws, the tweet has already been sent: the watermark
    keeps its old value and the next run comes after 15 minutes. *)
Theorem generateImageLoop_cache_failures rt env cache :
  (forall e, cacheGetError env = Some e ->
     generateImageLoop rt env cache =
       (cache, [CLog "error" "Error in image generation loop:";
                SetTimeout (Some recoveryDelay)])) /\
  (forall e dl, cacheGetError env = None -> cacheSetError env = Some e ->
     chosenDelay rt env = Some dl ->
     now env > default 0 (cache !! lastImagePostKey) + dl ->
     pipelineSucceeds rt env ->
     length (tweets (snd (generateImageLoop rt env cache))) = 1%nat /\
     fst (generateImageLoop rt env cache) = cache /\
     watermarkWrites (snd (generateImageLoop rt env cache)) = [] /\
     scheduled (snd (generateImageLoop rt env cache)) = [Some recoveryDelay]).
Proof.
  split.
  - intros e He. unfold generateImageLoop. now rewrite He.
  - intros e dl Hget Hset Hdl Hdue Hpipe.
    destruct (generateAndPostImage_quiet rt env) as [Hw Hs].
    destruct (pipeline_tweets_once rt env Hpipe) as [text Ht].
    unfold generateImageLoop, chosenDelay in *. rewrite Hget, Hset. cbv zeta.
    rewrite Hdl.
    replace (now env >? default 0 (cache !! lastImagePostKey) + dl) with true
      by (symmetry; apply Z.gtb_lt; lia).
    cbn [fst snd]. rewrite tweets_app, scheduled_app, watermarkWrites_app.
    change (tweets (CLog "info" "Generating and posting scheduled image"
                    :: generateAndPostImage rt env))
      with (tweets (generateAndPostImage rt env)).
    change (scheduled (CLog "info" "Generating and posting scheduled image"
                       :: generateAndPostImage rt env))
      with (scheduled (generateAndPostImage rt env)).
    change (watermarkWrites (CLog "info" "Generating and posting scheduled image"
                             :: generateAndPostImage rt env))
      with (watermarkWrites (generateAndPostImage rt env)).
    rewrite Ht, Hw, Hs. repeat split_and; reflexivity.
Qed.

Lemma generateImageLoop_cache_failures_witness :
  let cache := <[lastImagePostKey := 1000]> (∅ : gmap string Z) in
  length (tweets (snd (generateImageLoop twitterRuntime readOnlyCacheEnv cache)))
    = 1%nat /\
  fst (generateImageLoop twitterRuntime readOnlyCacheEnv cache) = cache /\
  scheduled (snd (generateImageLoop twitterRuntime readOnlyCacheEnv cache))
    = [Some 900000].
Proof.
  intros cache.
  assert (Hpipe : pipelineSucceeds twitterRuntime readOnlyCacheEnv).
  { unfold pipelineSucceeds. repeat split_and; try reflexivity;
      try discriminate; repeat eexists; reflexivity. }
  destruct (proj2 (generateImageLoop_cache_failures twitterRuntime
                     readOnlyCacheEnv cache)
              (MkError "EROFS") (180 * 60 * 1000) eq_refl eq_refl eq_refl
              eq_refl Hpipe) as (Ht & Hc & _ & Hs).
  repeat split_and; assumption.
Defined.

(** X8: two cycles in a row.  The first is due and publishes, choosing
    the delay [d1]; its timer fires [d1 + lag] ms after its own clock
    reading.  The second cycle draws a fresh delay [d2] and compares it
    with the watermark the first one wrote: it publishes when
    [d2 < d1 + lag] and otherwise only re-arms the timer, leaving the
    watermark as it is. *)
Theorem second_cycle_publishes_iff_sooner rt env1 env2 cache d1 d2 lag :
  cacheGetError env1 = None -> cacheSetError env1 = None ->
  chosenDelay rt env1 = Some d1 ->
  now env1 > default 0 (cache !! lastImagePostKey) + d1 ->
  cacheGetError env2 = None -> cacheSetError env2 = None ->
  chosenDelay rt env2 = Some d2 ->
  now env2 = now env1 + d1 + lag ->
  pipelineSucceeds rt env2 ->
  let cache1 := fst (generateImageLoop rt env1 cache) in
  let run2 := generateImageLoop rt env2 cache1 in
  scheduled (snd (generateImageLoop rt env1 cache)) = [Some d1] /\
  (d2 < d1 + lag ->
     length (tweets (snd run2)) = 1%nat /\
     fst run2 !! lastImagePostKey = Some (now env2)) /\
  (d1 + lag <= d2 ->
     tweets (snd run2) = [] /\ fst run2 = cache1 /\
     fst run2 !! lastImagePostKey = Some (now env1) /\
     scheduled (snd run2) = [Some d2]).
Proof.
  intros Hg1 Hs1 Hd1 Hdue1 Hg2 Hs2 Hd2 Hnow Hpipe cache1 run2.
  subst run2 cache1.
  rewrite (generateImageLoop_due rt env1 cache d1 Hg1 Hs1 Hd1 Hdue1).
  cbn [fst snd].
  assert (Hl : default 0 (<[lastImagePostKey := now env1]> cache
                          !! lastImagePostKey) = now env1)
    by now rewrite lookup_insert_eq.
  destruct (generateAndPostImage_quiet rt env1) as [_ Hq1].
  repeat split_and.
  - rewrite scheduled_app.
    change (scheduled (CLog "info" "Generating and posting scheduled image"
                       :: generateAndPostImage rt env1))
      with (scheduled (generateAndPostImage rt env1)).
    now rewrite Hq1.
  - intros Hlt.
    rewrite (generateImageLoop_due rt env2 _ d2 Hg2 Hs2 Hd2) by (rewrite Hl; lia).
    cbn [fst snd]. destruct (pipeline_tweets_once rt env2 Hpipe) as [text Ht].
    rewrite tweets_app.
    change (tweets (CLog "info" "Generating and posting scheduled image"
                    :: generateAndPostImage rt env2))
      with (tweets (generateAndPostImage rt env2)).
    rewrite Ht. split; [reflexivity|]. now rewrite lookup_insert_eq.
  - intros Hge.
    rewrite (generateImageLoop_not_due rt env2 _ d2 Hg2 Hd2) by (rewrite Hl; lia).
    cbn [fst snd]. repeat split_and; try reflexivity.
    now rewrite lookup_insert_eq.
Qed.

Lemma second_cycle_publishes_iff_sooner_witness :
  let cache0 : gmap string Z := ∅ in
  let cache1 := fst (generateImageLoop twitterRuntime workingEnv cache0) in
  length (tweets (snd (generateImageLoop twitterRuntime
                         (laterEnv 10800000 0) cache1))) = 1%nat /\
  tweets (snd (generateImageLoop twitterRuntime
                 (laterEnv 10800000 127) cache1)) = [].
Proof.
  intros cache0 cache1. subst cache1.
  assert (Hpipe : forall n, pipelineSucceeds twitterRuntime (laterEnv 10800000 n)).
  { intros n. unfold pipelineSucceeds. repeat split_and; try reflexivity;
      try discriminate; repeat eexists; reflexivity. }
  split.
  - apply (second_cycle_publishes_iff_sooner twitterRuntime workingEnv
             (laterEnv 10800000 0) cache0 10800000 7200000 0
             eq_refl eq_refl eq_refl eq_refl eq_refl eq_refl eq_refl eq_refl
             (Hpipe 0)).
    lia.
  - apply (second_cycle_publishes_iff_sooner twitterRuntime workingEnv
             (laterEnv 10800000 127) cache0 10800000 14400000 0
             eq_refl eq_refl eq_refl eq_refl eq_refl eq_refl eq_refl eq_refl
             (Hpipe 127)).
    lia.
Defined.

(* ----------------------------------------------------------------- *)
(** ** [generateImage]: results and requests in every run *)

Lemma sleeps_app a b : sleeps (a ++ b) = sleeps a ++ sleeps b.
Proof. apply omap_app. Qed.

Lemma submissions_app a b : submissions (a ++ b) = submissions a ++ submissions b.
Proof. apply omap_app. Qed.

Lemma imageFetches_app a b :
  imageFetches (a ++ b) = imageFetches a ++ imageFetches b.
Proof. apply omap_app. Qed.

Ltac trace_app :=
  rewrite ?polls_app, ?sleeps_app, ?submissions_app, ?imageFetches_app.

(** The polling loop sleeps 2 s before each status request and does
    nothing else. *)
Lemma pollLoop_trace rn url apiKey remaining : forall attempts g0,
  let ev := snd (pollLoop rn url apiKey remaining attempts g0) in
  sleeps ev = replicate (polls ev) 2000 /\ submissions ev = [] /\
  imageFetches ev = [].
Proof.
  induction remaining as [|r IH]; intros attempts g0; [cbn; auto|].
  cbn [pollLoop]. cbv zeta.
  destruct (poll rn (S attempts) url apiKey) as [[st tx|[g|e]]|e];
    try (cbn; auto).
  - specialize (IH (S attempts) g0).
    destruct (pollLoop rn url apiKey r (S attempts) g0) as [x ev].
    cbn [fst snd] in *. destruct IH as (H1 & H2 & H3).
    cbn [app]. repeat split_and; [|exact H2|exact H3].
    change (2000 :: sleeps ev = 2000 :: replicate (polls ev) 2000).
    now rewrite H1.
  - destruct (bool_decide (sb_result g = Some (lit "completed")));
      [cbn; auto|].
    destruct (bool_decide (sb_result g = Some (lit "failed")));
      [cbn; auto|].
    specialize (IH (S attempts) (Some g)).
    destruct (pollLoop rn url apiKey r (S attempts) (Some g)) as [x ev].
    cbn [fst snd] in *. destruct IH as (H1 & H2 & H3).
    cbn [app]. repeat split_and; [|exact H2|exact H3].
    change (2000 :: sleeps ev = 2000 :: replicate (polls ev) 2000).
    now rewrite H1.
Qed.

(** The loop hands on a status body only if it was given one or has
    asked for one. *)
Lemma pollLoop_result_seen rn url apiKey remaining : forall attempts g0 g,
  fst (pollLoop rn url apiKey remaining attempts g0) = LoopDone (Some g) ->
  g0 = Some g \/
  (1 <= polls (snd (pollLoop rn url apiKey remaining attempts g0)))%nat.
Proof.
  induction remaining as [|r IH]; intros attempts g0 g.
  - cbn. intros [= ->]. now left.
  - cbn [pollLoop]. cbv zeta.
    destruct (poll rn (S attempts) url apiKey) as [[st tx|[g1|e]]|e];
      try (cbn; discriminate).
    + specialize (IH (S attempts) g0 g).
      destruct (pollLoop rn url apiKey r (S attempts) g0) as [x ev].
      cbn [fst snd] in *. intros _. right. cbn [app].
      change (1 <= S (polls ev))%nat. lia.
    + destruct (bool_decide (sb_result g1 = Some (lit "completed")));
        [intros _; right; cbn; lia|].
      destruct (bool_decide (sb_result g1 = Some (lit "failed")));
        [cbn; discriminate|].
      destruct (pollLoop rn url apiKey r (S attempts) (Some g1)) as [x ev].
      cbn [fst snd] in *. intros _. right. cbn [app].
      change (1 <= S (polls ev))%nat. lia.
Qed.

Lemma promiseAll_length {A : Type} (l : list (nat * outcome A)) : forall r,
  promiseAll l = Ret r -> length r = length l.
Proof.
  intros r H. apply promiseAll_Ret in H. apply Forall2_length in H. auto.
Qed.

Lemma promiseAll_Forall2 rn (l : list MediaItem) :
  forall r, promiseAll (map (download rn) l) = Ret r
            <-> Forall2 (fun item s => fetchBase64 rn item = Ret s) l r.
Proof.
  intros r. rewrite promiseAll_Ret. revert r.
  induction l as [|a l IH]; intros r; cbn [map].
  - split; intros H; inversion H; constructor.
  - split; intros H; inversion H as [|? ? ? ? Ha Hr]; subst;
      (constructor; [exact Ha | now apply IH]).
Qed.

Lemma promiseAll_rejects rn (l : list MediaItem) item e :
  In item l -> fetchBase64 rn item = Throw e ->
  exists e', promiseAll (map (download rn) l) = Throw e'.
Proof.
  intros Hin Hthrow.
  destruct (promiseAll (map (download rn) l)) as [r|e'] eqn:Hp; [|eauto].
  apply promiseAll_Forall2 in Hp. exfalso.
  induction Hp as [|a b l r Ha _ IH]; [destruct Hin|].
  destruct Hin as [->|Hin]; [congruence | auto].
Qed.

Lemma fetchBase64_dataUrl rn item s : fetchBase64 rn item = Ret s -> dataUrl s.
Proof.
  unfold fetchBase64.
  destruct (fetchImage rn _) as [[st tx|[b|e]]|e]; try discriminate.
  intros [= <-]. now exists b.
Qed.

Lemma imageFetches_map (l : list MediaItem) :
  imageFetches (map (fun item => GetImage (default [] (mi_url item))) l)
  = map (fun item => default [] (mi_url item)) l.
Proof. induction l as [|a l IH]; [reflexivity|]. cbn. f_equal. exact IH. Qed.

Lemma fetches_only (l : list MediaItem) :
  let ev := map (fun item => GetImage (default [] (mi_url item))) l in
  polls ev = O /\ sleeps ev = [] /\ submissions ev = [].
Proof. induction l as [|a l IH]; [cbn; auto | exact IH]. Qed.

(** What follows the loop: downloads only, and a well-formed result. *)
Lemma collectImages_trace rn g :
  let r := fst (collectImages rn g) in
  let ev := snd (collectImages rn g) in
  polls ev = O /\ sleeps ev = [] /\ submissions ev = [] /\
  (success r = true -> g <> None /\ imageFetches ev <> []) /\
  match success r with
  | true => error r = None /\
            exists imgs, data r = Some imgs /\ imgs <> [] /\ Forall dataUrl imgs
  | false => data r = None /\ error r <> None
  end.
Proof.
  unfold collectImages.
  destruct g as [g|]; [|cbn; repeat split_and; auto; discriminate].
  destruct (sb_media g) as [media|]; [|cbn; repeat split_and; auto; discriminate].
  cbv zeta.
  destruct (fetches_only (List.filter is_image media)) as (F1 & F2 & F3).
  cbv zeta in F1, F2, F3.
  destruct (promiseAll (map (download rn) (List.filter is_image media)))
    as [bs|e] eqn:Hp.
  - pose proof (promiseAll_length _ _ Hp) as Hlen. rewrite length_map in Hlen.
    destruct bs as [|b bs].
    + cbn [length Nat.eqb fst snd]. trace_app. rewrite F1, F2, F3.
      cbn; repeat split_and; auto; discriminate.
    + cbn [length Nat.eqb fst snd success data error].
      repeat split_and; auto; try discriminate.
      * intros _. split; [discriminate|]. rewrite imageFetches_map.
        destruct (List.filter is_image media); [discriminate|discriminate].
      * exists (b :: bs). repeat split_and; [reflexivity|discriminate|].
        apply promiseAll_Forall2 in Hp.
        clear -Hp. induction Hp; constructor; eauto using fetchBase64_dataUrl.
  - cbn [fst snd failure success data error].
    repeat split_and; auto; discriminate.
Qed.

Lemma generateImageBody_trace rn model apiKey d :
  let r := fst (generateImageBody rn model apiKey d) in
  let ev := snd (generateImageBody rn model apiKey d) in
  (polls ev <= 30)%nat /\
  sleeps ev = replicate (polls ev) 2000 /\
  (submissions ev = [] \/
   exists key, apiKey = Some key /\
     submissions ev = [(rendernetUrl, key, rendernetBody model d)]) /\
  (success r = true -> (1 <= polls ev)%nat /\ imageFetches ev <> []) /\
  match success r with
  | true => error r = None /\
            exists imgs, data r = Some imgs /\ imgs <> [] /\ Forall dataUrl imgs
  | false => data r = None /\ error r <> None
  end.
Proof.
  unfold generateImageBody.
  destruct (opt_falsy apiKey) eqn:Hkey;
    [cbn; repeat split_and; auto; (lia || discriminate)|].
  destruct apiKey as [key|]; [|discriminate]. cbv zeta.
  cbn [from_option id].
  set (post := [ILog "info" (lit "Generating image with RenderNet");
                HttpPost rendernetUrl key (rendernetBody model d)]).
  assert (P1 : polls post = O) by reflexivity.
  assert (P2 : sleeps post = []) by reflexivity.
  assert (P3 : submissions post = [(rendernetUrl, key, rendernetBody model d)])
    by reflexivity.
  assert (P4 : imageFetches post = []) by reflexivity.
  assert (Hsub : submissions post = [] \/
            exists key0, Some key = Some key0 /\
              submissions post = [(rendernetUrl, key0, rendernetBody model d)])
    by (right; eauto).
  destruct (submit rn rendernetUrl key (rendernetBody model d))
    as [[st tx|[result|e]]|e].
  - cbn [fst snd failure success data error]. trace_app. rewrite P1, P2.
    cbn. rewrite ?app_nil_r.
    repeat split_and; auto; (lia || discriminate).
  - destruct (opt_falsy (generation_id result)).
    + cbn [fst snd failure success data error]. trace_app. rewrite P1, P2.
      cbn. rewrite ?app_nil_r.
      repeat split_and; auto; (lia || discriminate).
    + set (url := rendernetUrl ++ lit "/" ++ _).
      pose proof (pollLoop_budget rn url key maxAttempts 0 None) as Hb.
      pose proof (pollLoop_trace rn url key maxAttempts 0 None) as (T1 & T2 & T3).
      pose proof (pollLoop_result_seen rn url key maxAttempts 0 None) as Hseen.
      unfold maxAttempts in Hb at 2.
      destruct (pollLoop rn url key maxAttempts 0 None) as [[g|err|e] ev].
      * cbn [fst snd] in *.
        destruct (collectImages_trace rn g) as (C1 & C2 & C3 & C4 & C5).
        cbv zeta in C1, C2, C3, C4, C5.
        destruct (collectImages rn g) as [r ev'].
        cbn [fst snd] in *. trace_app.
        rewrite P1, P2, P3, T1, T2, C1, C2, C3, !app_nil_r, Nat.add_0_r.
        cbn [Nat.add app].
        repeat split_and; auto.
        intros Hs. destruct (C4 Hs) as [Hg Hf]. split.
        -- destruct g as [g|]; [|congruence].
           destruct (Hseen g eq_refl) as [?|?]; [discriminate|assumption].
        -- rewrite P4, T3. exact Hf.
      * cbn [fst snd failure success data error] in *. trace_app.
        rewrite P1, P2, P3, T1, T2. cbn [Nat.add app].
        repeat split_and; auto; discriminate.
      * cbn [fst snd failure success data error] in *. trace_app.
        rewrite P1, P2, P3, T1, T2. cbn [Nat.add app].
        repeat split_and; auto; discriminate.
  - cbn [fst snd failure success data error].
    repeat split_and; auto; (cbn; lia) || discriminate.
  - cbn [fst snd failure success data error].
    repeat split_and; auto; (cbn; lia) || discriminate.
Qed.

Lemma generateImage_unfold im rt rn d :
  generateImage im rt rn d =
    (fst (generateImageBody rn (renderNetModel im)
            (getSetting rt "RENDERNET_API_KEY") d),
     [ILog "info" (lit "Original provider setting was: " ++ imageModelProvider rt);
      ILog "info" (lit "FORCING IMAGE GENERATION WITH RENDERNET.AI - NEVER USING OPENAI");
      ILog "info" (lit "Generating image with RenderNet.ai, requestedProvider: "
                   ++ imageModelProvider rt ++ lit ", model: " ++ renderNetModel im)]
     ++ snd (generateImageBody rn (renderNetModel im)
               (getSetting rt "RENDERNET_API_KEY") d)).
Proof.
  unfold generateImage. cbv zeta.
  now destruct (generateImageBody _ _ _ _) as [r ev].
Qed.

(** X9: whatever the service does, the result of [generateImage] is well
    formed: with [success: true] it carries no error and a non-empty list
    of assets, each a PNG data URL; with [success: false] it carries an
    error and no data. *)
Theorem generateImage_result_shape im rt rn d :
  let r := fst (generateImage im rt rn d) in
  match success r with
  | true => error r = None /\
            exists imgs, data r = Some imgs /\ imgs <> [] /\ Forall dataUrl imgs
  | false => data r = None /\ error r <> None
  end.
Proof.
  rewrite generateImage_unfold. cbn [fst].
  apply (generateImageBody_trace rn (renderNetModel im)
           (getSetting rt "RENDERNET_API_KEY") d).
Qed.

(** X10: in every run [generateImage] makes at most 30 status requests,
    sleeps 2000 ms before each of them and at no other time (60 s at
    most), and submits at most one job, to the RenderNet endpoint with
    the configured key; a [success: true] result comes only after at
    least one status request and one image download. *)
Theorem generateImage_requests_bounded im rt rn d :
  let run := generateImage im rt rn d in
  (polls (snd run) <= 30)%nat /\
  sleeps (snd run) = replicate (polls (snd run)) 2000 /\
  (submissions (snd run) = [] \/
   exists key, getSetting rt "RENDERNET_API_KEY" = Some key /\
     submissions (snd run)
       = [(rendernetUrl, key, rendernetBody (renderNetModel im) d)]) /\
  (success (fst run) = true ->
     (1 <= polls (snd run))%nat /\ imageFetches (snd run) <> []).
Proof.
  rewrite generateImage_unfold. cbn [fst snd].
  destruct (generateImageBody_trace rn (renderNetModel im)
              (getSetting rt "RENDERNET_API_KEY") d) as (B1 & B2 & B3 & B4 & _).
  cbv zeta in B1, B2, B3, B4.
  set (body := generateImageBody _ _ _ _) in *.
  trace_app.
  change (polls [ILog "info" _; ILog "info" _; ILog "info" _]) with O.
  change (sleeps [ILog "info" _; ILog "info" _; ILog "info" _]) with (@nil Z).
  change (submissions [ILog "info" _; ILog "info" _; ILog "info" _])
    with (@nil (jsstring * jsstring * RenderNetBody)).
  change (imageFetches [ILog "info" _; ILog "info" _; ILog "info" _])
    with (@nil jsstring).
  cbn [Nat.add app]. auto.
Qed.

Lemma generateImage_requests_bounded_witness :
  let done := {| sb_result := Some (lit "completed");
                 sb_media := Some oneImage; sb_err := lit "null" |} in
  let run := generateImage sampleImports sampleRuntime
               (renderNetAfter 3 done) sampleImage in
  (1 <= polls (snd run))%nat /\ imageFetches (snd run) <> [].
Proof.
  intros done run.
  apply (proj2 (proj2 (proj2 (generateImage_requests_bounded sampleImports
                                sampleRuntime (renderNetAfter 3 done)
                                sampleImage)))).
  reflexivity.
Defined.

Lemma collectImages_fetches rn g media :
  sb_media g = Some media ->
  imageFetches (snd (collectImages rn (Some g)))
  = map (fun item => default [] (mi_url item)) (List.filter is_image media).
Proof.
  intros Hm. unfold collectImages. rewrite Hm. cbv zeta.
  destruct (promiseAll _) as [bs|e]; cbn [snd]; [|apply imageFetches_map].
  destruct (length bs =? 0)%nat; cbn [snd]; [|apply imageFetches_map].
  rewrite imageFetches_app, imageFetches_map. apply app_nil_r.
Qed.

(** X11: when the job is reported completed with a media array,
    [generateImage] requests every listed image that has a URL, in the
    order of the array.  If all downloads succeed the assets are their
    data URLs in that same order; if one download fails the whole result
    is a failure carrying the caught error, the other images being
    dropped. *)
Theorem generateImage_assets_all_or_nothing im rt rn d key jobId k g media :
  getSetting rt "RENDERNET_API_KEY" = Some key -> key <> [] ->
  submit rn rendernetUrl key (rendernetBody (renderNetModel im) d)
    = Ret (OkBody (Ret {| generation_id := Some jobId |})) ->
  jobId <> [] ->
  let answer j := poll rn j (rendernetUrl ++ lit "/" ++ jobId) key in
  (1 <= k <= 30)%nat ->
  (forall j, (1 <= j < k)%nat -> pending (answer j)) ->
  answer k = Ret (OkBody (Ret g)) ->
  sb_result g = Some (lit "completed") ->
  sb_media g = Some media ->
  let images := List.filter is_image media in
  let run := generateImage im rt rn d in
  imageFetches (snd run) = map (fun item => default [] (mi_url item)) images /\
  (forall assets,
     Forall2 (fun item s => fetchBase64 rn item = Ret s) images assets ->
     assets <> [] ->
     fst run = {| success := true; data := Some assets; error := None |}) /\
  (forall item e,
     In item images -> fetchBase64 rn item = Throw e ->
     exists e', fst run = failure (Caught e')).
Proof.
  intros Hkey Hk Hsub Hid answer Hrange Hpend Hans Hres Hmedia images run.
  subst answer run images.
  rewrite (generateImage_submitted im rt rn d key jobId Hkey Hk Hsub Hid).
  cbv zeta. match goal with |- context [?h ++ _] =>
    match h with (ILog _ _ :: _) => set (header := h) end end.
  assert (Hhead : imageFetches header = []) by reflexivity.
  clearbody header.
  set (url := rendernetUrl ++ lit "/" ++ jobId) in *.
  assert (Hpend' : forall j, (0 < j < 0 + k)%nat -> pending (poll rn j url key))
    by (intros j Hj; apply Hpend; lia).
  assert (Hrange' : (1 <= k <= maxAttempts)%nat) by (unfold maxAttempts; lia).
  destruct (pollLoop_completed rn url key k maxAttempts 0%nat None g
              Hpend' Hans Hres Hrange') as [He _].
  pose proof (pollLoop_trace rn url key maxAttempts 0 None) as (_ & _ & Hf).
  destruct (pollLoop rn url key maxAttempts 0 None) as [x ev].
  cbn [fst snd] in He, Hf. inversion He; subst x. clear He.
  cbn [fst snd]. repeat split_and.
  - rewrite !imageFetches_app, Hhead, Hf. cbn [app].
    now apply collectImages_fetches.
  - intros assets Hall Hne. unfold collectImages. rewrite Hmedia. cbv zeta.
    apply promiseAll_Forall2 in Hall. rewrite Hall.
    destruct assets as [|a assets]; [congruence|]. reflexivity.
  - intros item e Hin Hthrow. unfold collectImages. rewrite Hmedia. cbv zeta.
    destruct (promiseAll_rejects rn _ item e Hin Hthrow)
      as [e' ->].
    now exists e'.
Qed.

Lemma generateImage_assets_all_or_nothing_witness :
  let done := {| sb_result := Some (lit "completed");
                 sb_media := Some oneImage; sb_err := lit "null" |} in
  fst (generateImage sampleImports sampleRuntime (renderNetAfter 3 done)
         sampleImage)
    = {| success := true;
         data := Some [lit "data:image/png;base64,iVBORw0KGgo="];
         error := None |} /\
  exists e', fst (generateImage sampleImports sampleRuntime
                    renderNetLosingSecond sampleImage)
             = failure (Caught e').
Proof.
  intros done. split.
  - refine (proj1 (proj2 (generateImage_assets_all_or_nothing sampleImports
              sampleRuntime (renderNetAfter 3 done) sampleImage
              (lit "test-key") (lit "gen-1") 3 done oneImage
              eq_refl ltac:(discriminate) eq_refl ltac:(discriminate)
              ltac:(lia) _ eq_refl eq_refl eq_refl)) _ _ _).
    + intros j Hj. destruct j as [|[|[|j]]]; try lia; vm_compute;
        split; discriminate.
    + repeat constructor.
    + discriminate.
  - pose (done2 := {| sb_result := Some (lit "completed");
                      sb_media := Some twoImages; sb_err := lit "null" |}).
    refine (proj2 (proj2 (generateImage_assets_all_or_nothing sampleImports
              sampleRuntime renderNetLosingSecond sampleImage
              (lit "test-key") (lit "gen-1") 1 done2 twoImages
              eq_refl ltac:(discriminate) eq_refl ltac:(discriminate)
              ltac:(lia) _ eq_refl eq_refl eq_refl))
              {| mi_type := Some (lit "image");
                 mi_url := Some (lit "https://cdn.rendernet.ai/b.png") |}
              (ErrorText (lit "Failed to fetch image: Not Found")) _ _).
    + intros j Hj. lia.
    + right. left. reflexivity.
    + reflexivity.
Defined.

(** X12: the body [generateImage] submits never carries a zero or an
    empty field: a missing or zero [count], [guidanceScale] or
    [numIterations] is sent as 1, 7 and 30, and the model and the
    negative prompt are never empty.  The prompt is passed on as given,
    and the aspect ratio is one of three, chosen by comparing width and
    height only. *)
Theorem rendernetBody_never_blank im d :
  let b := rendernetBody (renderNetModel im) d in
  (batch_size b <> 0 /\ cfg_scale b <> 0 /\ steps b <> 0) /\
  (batch_size b = 1 \/ count d = Some (batch_size b)) /\
  (cfg_scale b = 7 \/ guidanceScale d = Some (cfg_scale b)) /\
  (steps b = 30 \/ numIterations d = Some (steps b)) /\
  rn_model b = renderNetModel im /\ rn_model b <> [] /\ negative b <> [] /\
  positive b = prompt d /\
  (width d = height d /\ aspect_ratio b = lit "1:1" \/
   width d > height d /\ aspect_ratio b = lit "3:2" \/
   width d < height d /\ aspect_ratio b = lit "2:3").
Proof.
  assert (Hnum : forall v dflt, dflt <> 0 ->
            num_or v dflt <> 0 /\ (num_or v dflt = dflt \/ v = Some (num_or v dflt))).
  { intros [n|] dflt Hd; cbn; [|auto].
    destruct (n =? 0) eqn:E; [auto|]. apply Z.eqb_neq in E. auto. }
  assert (Hstr : forall v dflt, dflt <> [] -> str_or v dflt <> []).
  { intros [[|c s]|] dflt Hd; cbn; auto; discriminate. }
  assert (Hmodel : renderNetModel im <> []).
  { unfold renderNetModel. cbv zeta. apply Hstr. discriminate. }
  cbv zeta. unfold rendernetBody. cbn [batch_size cfg_scale steps rn_model
    negative positive aspect_ratio].
  destruct (Hnum (count d) 1 ltac:(lia)) as [? ?].
  destruct (Hnum (guidanceScale d) 7 ltac:(lia)) as [? ?].
  destruct (Hnum (numIterations d) 30 ltac:(lia)) as [? ?].
  repeat split_and; auto; try (apply Hstr; discriminate).
  - cbn. destruct (renderNetModel im) as [|c s]; [congruence|reflexivity].
  - unfold standardizedAspectRatio.
    destruct (width d =? height d) eqn:E1; [apply Z.eqb_eq in E1; auto|].
    apply Z.eqb_neq in E1.
    destruct (width d >? height d) eqn:E2.
    + right. left. split; [|reflexivity]. apply Z.gtb_lt in E2. lia.
    + right. right. split; [|reflexivity].
      assert (~ height d < width d) by (rewrite <- Z.gtb_lt; congruence). lia.
Qed.

(* ----------------------------------------------------------------- *)
(** ** The context budgeter when the tokenizer fails *)

Lemma charFallback_lastn (context : jsstring) maxTokens :
  0 < maxTokens -> charFallback context maxTokens = lastn (4 * maxTokens) context.
Proof.
  intros Hm. unfold charFallback.
  replace (- maxTokens * 4) with (- (4 * maxTokens)) by lia.
  apply slice_from_neg_lastn. lia.
Qed.

(** X13: with a positive budget [trimTokens] never throws, whatever the
    tokenizer does.  When the tokenizer cannot be loaded, cannot encode
    the context, or cannot decode the tokens kept, the result is the last
    [4 * maxTokens] code units of the context (all of it when it is
    shorter). *)
Theorem trimTokens_survives_tokenizer im rt T maxTokens :
  0 < maxTokens ->
  let model := tokenizerModelOf im rt in
  let tail := lastn (4 * maxTokens) T in
  (exists r, trimTokens im rt T maxTokens = Ret r) /\
  (forall e, encodingForModel im model = Throw e ->
     trimTokens im rt T maxTokens = Ret tail) /\
  (forall enc e, encodingForModel im model = Ret enc ->
     encode enc T = Throw e -> trimTokens im rt T maxTokens = Ret tail) /\
  (forall enc toks e, encodingForModel im model = Ret enc ->
     encode enc T = Ret toks -> maxTokens < Z.of_nat (length toks) ->
     decode enc (lastn maxTokens toks) = Throw e ->
     trimTokens im rt T maxTokens = Ret tail) /\
  (exists dropped, T = dropped ++ tail) /\
  Z.of_nat (length tail) = Z.min (Z.of_nat (length T)) (4 * maxTokens).
Proof.
  intros Hm model tail. subst model tail.
  assert (Hsuffix : exists dropped, T = dropped ++ lastn (4 * maxTokens) T).
  { exists (take (length T - Z.to_nat (4 * maxTokens))%nat T).
    unfold lastn. symmetry. apply take_drop. }
  assert (Hlen : Z.of_nat (length (lastn (4 * maxTokens) T))
                 = Z.min (Z.of_nat (length T)) (4 * maxTokens)).
  { unfold lastn. rewrite length_drop. lia. }
  destruct T as [|c cs].
  { repeat split_and; try (intros; reflexivity); try assumption.
    now exists []. }
  clear Hsuffix Hlen.
  rewrite trimTokens_nonempty by (congruence || lia).
  repeat split_and.
  - eauto.
  - intros e He. unfold truncateTiktoken. rewrite He.
    now rewrite charFallback_lastn.
  - intros enc e He Hc. unfold truncateTiktoken. rewrite He, Hc.
    now rewrite charFallback_lastn.
  - intros enc toks e He Hc Hlt Hd. unfold truncateTiktoken. rewrite He, Hc.
    replace (Z.of_nat (length toks) <=? maxTokens) with false
      by (symmetry; apply Z.leb_gt; lia).
    cbv zeta. rewrite slice_from_neg_lastn by lia. rewrite Hd.
    now rewrite charFallback_lastn.
  - exists (take (length (c :: cs) - Z.to_nat (4 * maxTokens))%nat (c :: cs)).
    unfold lastn. symmetry. apply take_drop.
  - unfold lastn. rewrite length_drop. lia.
Qed.

Lemma trimTokens_survives_tokenizer_witness :
  trimTokens noTokenizerImports sampleRuntime (lit "0123456789") 2
    = Ret (lit "23456789").
Proof.
  apply (proj1 (proj2 (trimTokens_survives_tokenizer noTokenizerImports
                         sampleRuntime (lit "0123456789") 2 ltac:(lia)))
           (MkError "Unknown model")).
  reflexivity.
Defined.

(* ----------------------------------------------------------------- *)
(** ** When [splitText] returns *)

Lemma splitText_loop_returns fuel : forall content chunkSize bleed start chunks,
  bleed <= 0 -> bleed < chunkSize ->
  Z.of_nat (length content) - start <= Z.of_nat fuel ->
  exists r, splitText_loop fuel content chunkSize bleed start chunks = Some r.
Proof.
  induction fuel as [|fuel IH]; intros content chunkSize bleed start chunks Hb Hc Hf;
    simpl; destruct (Z.ltb_spec start (Z.of_nat (length content))); try lia; eauto.
  apply IH; lia.
Qed.

Lemma splitText_loop_stuck fuel : forall content chunkSize bleed start chunks,
  0 < bleed \/ chunkSize <= bleed ->
  start < Z.of_nat (length content) ->
  splitText_loop fuel content chunkSize bleed start chunks = None.
Proof.
  induction fuel as [|fuel IH]; intros content chunkSize bleed start chunks Hb Hs;
    simpl; destruct (Z.ltb_spec start (Z.of_nat (length content))); try lia.
  - reflexivity.
  - apply IH; lia.
Qed.

(** X14: on a non-empty content [splitText] returns exactly when the
    overlap is zero or negative and smaller than the chunk size; in every
    other case (a positive overlap, or a chunk size not above the
    overlap) its loop never ends. *)
Theorem splitText_returns_iff content chunkSize bleed :
  content <> [] ->
  ((exists fuel chunks, splitText fuel content chunkSize bleed = Some chunks)
   <-> bleed <= 0 /\ bleed < chunkSize) /\
  (bleed <= 0 -> bleed < chunkSize ->
   exists chunks, splitText (length content) content chunkSize bleed = Some chunks).
Proof.
  intros Hc.
  assert (Hlen : 0 < Z.of_nat (length content)).
  { destruct content; [congruence | simpl; lia]. }
  assert (Hret : bleed <= 0 -> bleed < chunkSize ->
            exists chunks,
              splitText (length content) content chunkSize bleed = Some chunks).
  { intros Hb Hlt. apply splitText_loop_returns; lia. }
  split; [split|exact Hret].
  - intros (fuel & chunks & Hrun).
    destruct (Z_le_gt_dec bleed 0) as [Hb|Hb];
      [destruct (Z_lt_le_dec bleed chunkSize) as [Hlt|Hge]; [auto|]|].
    + unfold splitText in Hrun.
      rewrite splitText_loop_stuck in Hrun by (auto; lia). discriminate.
    + unfold splitText in Hrun.
      rewrite splitText_loop_stuck in Hrun by (try left; lia). discriminate.
  - intros [Hb Hlt]. exists (length content). now apply Hret.
Qed.

Lemma splitText_returns_iff_witness :
  (exists chunks, splitText 5 (lit "hello") 2 (-1) = Some chunks) /\
  ~ (exists fuel chunks, splitText fuel (lit "hello") 0 0 = Some chunks).
Proof.
  destruct (splitText_returns_iff (lit "hello") 2 (-1) ltac:(discriminate))
    as [_ Hret].
  destruct (splitText_returns_iff (lit "hello") 0 0 ltac:(discriminate))
    as [Hiff _].
  split.
  - apply Hret; lia.
  - intros H. apply Hiff in H. lia.
Defined.

(* ----------------------------------------------------------------- *)
(** ** The wrappers on an empty context and on a zero budget *)

Lemma generateText_empty tp k modelClass stop :
  generateText tp k (request [] modelClass stop)
  = (Ret [], [LogError "generateText context is empty"]).
Proof. reflexivity. Qed.

Lemma seq_pow_shift (d : Z) (n : nat) :
  map (fun i => d * 2 * 2 ^ Z.of_nat i) (seq 0 n)
  = map (fun i => d * 2 ^ Z.of_nat i) (seq 1 n).
Proof.
  rewrite <- seq_shift, map_map. apply map_ext. intros i.
  rewrite Nat2Z.inj_succ, Z.pow_succ_r by lia. lia.
Qed.

Lemma textAttempt_empty {A : Type} tp (parse : jsstring -> option A) k
    modelClass stop :
  textAttempt tp (request [] modelClass stop) parse k
  = (Ret (parse []), [LogError "generateText context is empty"]).
Proof. reflexivity. Qed.

(** The shared loop when every attempt is the empty-context answer and
    the parser rejects the empty text. *)
Lemma retryLoop_empty_context {A : Type} tp (parse : jsstring -> option A)
    label modelClass stop fuel : forall k d,
  parse [] = None ->
  let run := retryLoop (textAttempt tp (request [] modelClass stop) parse)
               label fuel k d in
  fst run = Running /\
  waits (snd run) = map (fun i => d * 2 ^ Z.of_nat i) (seq 0 fuel).
Proof.
  induction fuel as [|fuel IH]; intros k d Hp; [split; reflexivity|].
  cbn [retryLoop]. rewrite textAttempt_empty, Hp.
  destruct (IH (S k) (d * 2) Hp) as [Hr Hw]. cbv zeta in Hr, Hw.
  destruct (retryLoop _ label fuel (S k) (d * 2)) as [r ev].
  cbn [fst snd] in *. split; [assumption|].
  cbn [app waits]. rewrite Hw, seq_pow_shift. cbn [seq map].
  f_equal. lia.
Qed.

Lemma messageLoop_empty_context im tp modelClass fuel : forall k d,
  parseJSONObjectFromText im [] = None ->
  messageLoop im tp (request [] modelClass None) fuel k d
  = (Running, replicate fuel (LogError "generateText context is empty")).
Proof.
  induction fuel as [|fuel IH]; intros k d Hp; [reflexivity|].
  cbn [messageLoop]. rewrite generateText_empty.
  assert (Hm : parseMessage im [] = None).
  { unfold parseMessage. rewrite Hp. reflexivity. }
  rewrite Hm, (IH (S k) d Hp). reflexivity.
Qed.

(** X15: what the wrappers do with an empty context, whatever the
    transport would answer.  [generateTextArray],
    [generateObjectArray] and [generateObjectDeprecated] return at once
    (the empty array, [null]).  The other wrappers have no such guard:
    each attempt gets the empty text from [generateText], so when the
    parser rejects the empty text [generateShouldRespond],
    [generateTrueOrFalse] and [generateTweetActions] retry for ever with
    doubling waits, and [generateMessageResponse] retries for ever
    without waiting at all. *)
Theorem empty_context_wrappers im rt tp modelClass fuel :
  fst (generateTextArray im tp fuel [] modelClass) = Returned [] /\
  fst (generateObjectArray im tp fuel [] modelClass) = Returned [] /\
  fst (generateObjectDeprecated im tp fuel [] modelClass) = Returned None /\
  (parseShouldRespondFromText im [] = None ->
     fst (generateShouldRespond im tp fuel [] modelClass) = Running /\
     waits (snd (generateShouldRespond im tp fuel [] modelClass))
       = backoffDelays fuel) /\
  (parseBooleanFromText im [] = None ->
     fst (generateTrueOrFalse im rt tp fuel [] modelClass) = Running /\
     waits (snd (generateTrueOrFalse im rt tp fuel [] modelClass))
       = backoffDelays fuel) /\
  (parseActionResponseFromText im [] = None ->
     fst (generateTweetActions im tp fuel [] modelClass) = Running /\
     waits (snd (generateTweetActions im tp fuel [] modelClass))
       = backoffDelays fuel) /\
  (parseJSONObjectFromText im [] = None ->
     generateMessageResponse im rt tp fuel [] modelClass
       = (Running, replicate fuel (LogError "generateText context is empty"))).
Proof.
  repeat split_and; try reflexivity.
  - intros Hp. unfold generateShouldRespond, backoffDelays.
    now apply retryLoop_empty_context.
  - intros Hp. unfold generateTrueOrFalse, backoffDelays. cbv zeta.
    now apply retryLoop_empty_context.
  - intros Hp. unfold generateTweetActions, backoffDelays.
    now apply retryLoop_empty_context.
  - intros Hp. unfold generateMessageResponse. cbv zeta.
    change (trimTokens im rt [] _) with (Ret (@nil N) : outcome jsstring).
    now apply messageLoop_empty_context.
Qed.

Lemma empty_context_wrappers_witness :
  fst (generateShouldRespond sampleImports flakyTransport 4 [] (lit "small"))
    = Running /\
  waits (snd (generateShouldRespond sampleImports flakyTransport 4 []
                (lit "small"))) = [1000; 2000; 4000; 8000] /\
  generateMessageResponse sampleImports sampleRuntime flakyTransport 3 []
    (lit "small")
    = (Running, replicate 3 (LogError "generateText context is empty")).
Proof.
  pose proof (empty_context_wrappers sampleImports sampleRuntime flakyTransport
                (lit "small") 4) as (_ & _ & _ & Hs & _).
  pose proof (empty_context_wrappers sampleImports sampleRuntime flakyTransport
                (lit "small") 3) as (_ & _ & _ & _ & _ & _ & Hm).
  destruct (Hs eq_refl) as [H1 H2].
  repeat split_and; [exact H1 | exact H2 | exact (Hm eq_refl)].
Defined.

(** X16: [generateMessageResponse] throws in one case only, a non-empty
    context with a model whose [maxInputTokens] is zero or negative; it
    then throws "maxTokens must be positive" before any attempt is made
    and nothing is logged.  In every other case it never throws, whatever
    the tokenizer and the transport do. *)
Theorem generateMessageResponse_throws_iff im rt tp fuel context modelClass :
  let budget :=
    maxInputTokens (getModelSettings im (modelProvider rt) modelClass) in
  let run := generateMessageResponse im rt tp fuel context modelClass in
  ((exists e, fst run = Thrown e) <-> context <> [] /\ budget <= 0) /\
  (context <> [] -> budget <= 0 ->
   run = (Thrown (MkError "maxTokens must be positive"), [])).
Proof.
  cbv zeta. unfold generateMessageResponse. cbv zeta.
  set (budget := maxInputTokens _).
  assert (Hthrow : context <> [] -> budget <= 0 ->
            trimTokens im rt context budget
            = Throw (MkError "maxTokens must be positive")).
  { intros Hc Hb. unfold trimTokens. destruct context as [|c cs]; [congruence|].
    cbn [str_falsy].
    replace (budget <=? 0) with true by (symmetry; apply Z.leb_le; lia).
    reflexivity. }
  split; [split|].
  - intros [e He].
    destruct context as [|c cs].
    + change (trimTokens im rt [] budget) with (Ret (@nil N) : outcome jsstring)
        in He.
      now apply messageLoop_never_thrown in He.
    + split; [discriminate|].
      destruct (Z_le_gt_dec budget 0) as [Hb|Hb]; [assumption|].
      rewrite trimTokens_nonempty in He by (discriminate || lia).
      now apply messageLoop_never_thrown in He.
  - intros [Hc Hb]. rewrite (Hthrow Hc Hb). eauto.
  - intros Hc Hb. now rewrite (Hthrow Hc Hb).
Qed.

Lemma generateMessageResponse_throws_iff_witness :
  generateMessageResponse zeroBudgetImports sampleRuntime flakyTransport 5
    (lit "hello") (lit "large")
  = (Thrown (MkError "maxTokens must be positive"), []).
Proof.
  apply (proj2 (generateMessageResponse_throws_iff zeroBudgetImports
                  sampleRuntime flakyTransport 5 (lit "hello") (lit "large")));
    [discriminate | cbn; lia].
Defined.

(* ----------------------------------------------------------------- *)
(** ** How long the wrappers wait *)

Lemma backoff_sum (N : nat) :
  foldr Z.add 0 (backoffDelays N) = 1000 * (2 ^ Z.of_nat N - 1).
Proof.
  unfold backoffDelays. induction N as [|N IH]; [reflexivity|].
  rewrite seq_S, map_app, foldr_app. cbn [map foldr Nat.add].
  assert (Hshift : forall (l : list Z) a, foldr Z.add a l = foldr Z.add 0 l + a).
  { induction l as [|x l IHl]; intros a; cbn; [lia|]. rewrite IHl. lia. }
  rewrite Hshift, IH, Nat2Z.inj_succ, Z.pow_succ_r by lia. lia.
Qed.

(** X17: the waits of the retrying wrappers are not capped.  When
    [generateShouldRespond] succeeds after [N] failed attempts it has
    waited [1000 * (2^N - 1)] ms in all, and the last of these waits
    alone, [1000 * 2^(N-1)] ms, is longer than all the earlier ones
    together. *)
Theorem generateShouldRespond_total_wait im tp context modelClass N v fuel :
  let attempt :=
    textAttempt tp (request context modelClass None)
      (fun response => parseShouldRespondFromText im (trim response)) in
  let run := generateShouldRespond im tp fuel context modelClass in
  (forall i, (i < N)%nat -> failedAttempt (fst (attempt i))) ->
  fst (attempt N) = Ret (Some v) ->
  (N < fuel)%nat ->
  fst run = Returned v /\
  foldr Z.add 0 (waits (snd run)) = 1000 * (2 ^ Z.of_nat N - 1) /\
  (forall earlier last, waits (snd run) = earlier ++ [last] ->
     last = 1000 * 2 ^ (Z.of_nat N - 1) /\ foldr Z.add 0 earlier < last).
Proof.
  intros attempt run Hfail Hok Hfuel. subst attempt run.
  destruct (proj1 (wrapper_backs_off tp (request context modelClass None)
                     (fun response => parseShouldRespondFromText im (trim response))
                     "Error in generateShouldRespond:")
              N v Hfail Hok fuel Hfuel) as [Hr Hw].
  unfold generateShouldRespond. cbv beta in Hr, Hw. rewrite Hr, Hw.
  repeat split_and; [reflexivity | apply backoff_sum |].
  intros earlier last Hsplit.
  destruct N as [|N].
  { destruct earlier; discriminate. }
  unfold backoffDelays in Hsplit. rewrite seq_S, map_app in Hsplit.
  apply app_inj_tail in Hsplit. destruct Hsplit as [He Hl].
  cbn [Nat.add] in Hl. subst last.
  replace (Z.of_nat (S N) - 1) with (Z.of_nat N) by lia.
  split; [reflexivity|].
  rewrite <- He. fold (backoffDelays N). rewrite backoff_sum.
  assert (0 < 2 ^ Z.of_nat N) by (apply Z.pow_pos_nonneg; lia). lia.
Qed.

Lemma generateShouldRespond_total_wait_witness :
  fst (generateShouldRespond sampleImports flakyTransport 5 (lit "hello")
         (lit "small")) = Returned RESPOND /\
  foldr Z.add 0 (waits (snd (generateShouldRespond sampleImports flakyTransport
                               5 (lit "hello") (lit "small")))) = 3000.
Proof.
  destruct (generateShouldRespond_total_wait sampleImports flakyTransport
              (lit "hello") (lit "small") 2 RESPOND 5) as (H1 & H2 & _).
  - intros i Hi. destruct i as [|[|i]]; [left; reflexivity | | lia].
    right. eexists. reflexivity.
  - reflexivity.
  - lia.
  - split; [exact H1 | exact H2].
Defined.

(* ----------------------------------------------------------------- *)
(** ** What [extractTweetContent] returns *)

Lemma trimStart_head s c r : trimStart s = c :: r -> is_space c = false.
Proof.
  induction s as [|a s IH]; cbn; [discriminate|].
  destruct (is_space a) eqn:Ha; [exact IH|].
  intros [= -> _]. exact Ha.
Qed.

Lemma trimStart_suffix s : exists p, s = p ++ trimStart s.
Proof.
  induction s as [|a s [p IH]]; cbn; [now exists []|].
  destruct (is_space a).
  - exists (a :: p). cbn. now rewrite <- IH.
  - now exists [].
Qed.

Lemma trim_trimmed s : trimmed (trim s).
Proof.
  unfold trim, trimEnd. set (a := trimStart s).
  destruct (trimStart_suffix (rev a)) as [p Hp].
  set (b := trimStart (rev a)) in *.
  split.
  - intros c r Hr.
    assert (Hb : b = rev r ++ [c]).
    { rewrite <- (rev_involutive b), Hr. reflexivity. }
    rewrite Hb in Hp.
    assert (Ha : a = c :: rev (p ++ rev r)).
    { rewrite <- (rev_involutive a), Hp, app_assoc, rev_app_distr. reflexivity. }
    exact (trimStart_head s c _ Ha).
  - intros r c Hr.
    assert (Hb : b = c :: rev r).
    { rewrite <- (rev_involutive b), Hr, rev_app_distr. reflexivity. }
    exact (trimStart_head (rev a) c _ Hb).
Qed.

Lemma strategy3_trimmed r t : strategy3 r = Some t -> trimmed t.
Proof.
  unfold strategy3. destruct (_ <? 280); [|discriminate]. cbv zeta.
  destruct (bool_decide _); [discriminate|].
  intros [= <-]. apply trim_trimmed.
Qed.

Lemma strategy2_trimmed r t : strategy2 r = Some t -> trimmed t.
Proof.
  unfold strategy2.
  destruct (str_match actionJsonRegex r) as [m|]; [|apply strategy3_trimmed].
  destruct (opt_falsy (m_1 m)); [apply strategy3_trimmed|].
  intros [= <-]. apply trim_trimmed.
Qed.

(** X18: whatever the response, a text returned by
    [extractTweetContent] has no white space at its start or at its
    end. *)
Theorem extractTweetContent_trimmed responseText t :
  extractTweetContent responseText = Some t -> trimmed t.
Proof.
  unfold extractTweetContent.
  destruct (str_match jsonRegex responseText) as [m|]; [|apply strategy2_trimmed].
  destruct (JSON_parse_text (m_0 m)) as [text|].
  - destruct (str_falsy text); [apply strategy2_trimmed|].
    intros [= <-]. apply trim_trimmed.
  - destruct (opt_falsy (m_1 m)); [apply strategy2_trimmed|].
    intros [= <-]. apply trim_trimmed.
Qed.

Lemma extractTweetContent_trimmed_witness :
  trimmed (lit "hello").
Proof.
  apply (extractTweetContent_trimmed
           (qlit "Here you go: {~text~:~  hello ~}  thanks!") (lit "hello")).
  vm_compute. reflexivity.
Defined.

Lemma actionJsonRegex_needs_brace c i u :
  c <> cu "{" -> match_here actionJsonRegex i (c :: u) = None.
Proof.
  intros Hc. unfold match_here, actionJsonRegex. cbn [seqs mre].
  unfold chr_is. now rewrite (proj2 (N.eqb_neq c (cu "{")) Hc).
Qed.

Lemma str_match_no_brace r s :
  (forall c i u, c <> cu "{" -> match_here r i (c :: u) = None) ->
  (forall i, match_here r i [] = None) ->
  Forall (fun c => c <> cu "{") s ->
  str_match r s = None.
Proof.
  intros Hstep Hnil Hs. unfold str_match. generalize 0%nat.
  induction Hs as [|c s Hc _ IH]; intros idx; cbn [search_from].
  - now rewrite Hnil.
  - rewrite (Hstep c idx s Hc). apply IH.
Qed.

(** X19: a response without an opening brace is never read as JSON:
    only the prefix clean-up applies to it, so it is rejected ([null])
    when it has 280 code units or more, and also when none of the known
    prefixes and fences occurs in it. *)
Theorem extractTweetContent_without_brace responseText :
  Forall (fun c => c <> cu "{") responseText ->
  extractTweetContent responseText = strategy3 responseText /\
  (280 <= Z.of_nat (length responseText) ->
   extractTweetContent responseText = None) /\
  (fold_left (fun text p => replace_empty (fst p) (snd p) text)
     prefixesToRemove responseText = responseText ->
   extractTweetContent responseText = None).
Proof.
  intros Hs.
  assert (H1 : str_match jsonRegex responseText = None).
  { apply str_match_no_brace; [apply jsonRegex_needs_brace | reflexivity | exact Hs]. }
  assert (H2 : str_match actionJsonRegex responseText = None).
  { apply str_match_no_brace;
      [apply actionJsonRegex_needs_brace | reflexivity | exact Hs]. }
  assert (H3 : extractTweetContent responseText = strategy3 responseText).
  { unfold extractTweetContent, strategy2. now rewrite H1, H2. }
  rewrite H3. repeat split_and; [reflexivity | |].
  - intros Hlen. unfold strategy3.
    replace (Z.of_nat (length responseText) <? 280) with false
      by (symmetry; apply Z.ltb_ge; lia).
    reflexivity.
  - intros Hsame. unfold strategy3. cbv zeta.
    destruct (_ <? 280); [|reflexivity].
    now rewrite bool_decide_eq_true_2.
Qed.

Lemma extractTweetContent_without_brace_witness :
  extractTweetContent (lit "Just a thought about the stars tonight.") = None.
Proof.
  apply (proj2 (proj2 (extractTweetContent_without_brace
                         (lit "Just a thought about the stars tonight.")
                         ltac:(repeat constructor; discriminate)))).
  vm_compute. reflexivity.
Defined.

(* ----------------------------------------------------------------- *)
(** ** Saving an asset *)

Lemma dataUrlHeader_stripped payload :
  replace_empty true dataUrlHeader (lit "data:image/png;base64," ++ payload)
  = payload.
Proof.
  unfold replace_empty.
  assert (H : exists whole cap,
            match_here dataUrlHeader 0 (lit "data:image/png;base64," ++ payload)
            = Some {| m_index := 0; m_0 := whole; m_1 := cap; m_rest := payload |}).
  { eexists _, _. vm_compute. reflexivity. }
  destruct H as (whole & cap & ->). reflexivity.
Qed.

Lemma writeImage_trace env filepath bytes done :
  let run := writeImage env filepath bytes done in
  fetched (snd run) = fetched done /\
  written (snd run) = written done ++ [(filepath, bytes)] /\
  (forall path, fst run = Ret path -> path = filepath) /\
  (writeFileSync env filepath bytes = Ret () -> fst run = Ret filepath).
Proof.
  unfold writeImage, fetched, written.
  destruct (writeFileSync env filepath bytes) as [[]|e]; cbn [fst snd];
    rewrite !omap_app; cbn [omap]; rewrite ?app_nil_r;
    repeat split_and; try reflexivity; try congruence.
Qed.

(** X20: [saveImageLocally] and the assets of [generateImage].  A PNG
    data URL is never downloaded: the header is cut off and the
    Base64 decoding of exactly the payload is written, once, to
    [<cwd>/agent/generatedImages/<filename>.png], which is the path
    returned.  A text starting with "http" is downloaded instead and the
    bytes received are written as they are; when the download is
    answered with [ok] false the function throws "Failed to fetch image: "
    followed by the status text of the answer, and writes nothing. *)
Theorem saveImageLocally_writes env filename :
  let imageDir := pathJoin env [cwd env; lit "agent"; lit "generatedImages"] in
  let filepath := pathJoin env [imageDir; filename ++ lit ".png"] in
  existsSync env imageDir = true \/ mkdirSync env imageDir = Ret () ->
  (forall payload,
     let run := saveImageLocally env (lit "data:image/png;base64," ++ payload)
                  filename in
     fetched (snd run) = [] /\
     written (snd run) = [(filepath, fromBase64 env payload)] /\
     (forall path, fst run = Ret path -> path = filepath) /\
     (writeFileSync env filepath (fromBase64 env payload) = Ret () ->
      fst run = Ret filepath)) /\
  (forall url bytes,
     startsWith (lit "http") url = true ->
     httpGet env url = Ret (OkBody (Ret bytes)) ->
     let run := saveImageLocally env url filename in
     fetched (snd run) = [url] /\ written (snd run) = [(filepath, bytes)]) /\
  (forall url status statusText,
     startsWith (lit "http") url = true ->
     httpGet env url = Ret (NotOk status statusText) ->
     let run := saveImageLocally env url filename in
     fst run = Throw (ErrorText (lit "Failed to fetch image: " ++ statusText)) /\
     written (snd run) = []).
Proof.
  intros imageDir filepath Hdir.
  assert (Hrun : forall imageData, exists done,
            saveImageLocally env imageData filename
            = saveImageTo env imageData filepath done /\
            fetched done = [] /\ written done = []).
  { intros imageData. unfold saveImageLocally. fold imageDir. fold filepath.
    cbv zeta. destruct (existsSync env imageDir) eqn:He.
    - exists []. auto.
    - destruct Hdir as [Hd|Hd]; [discriminate|]. rewrite Hd.
      exists [Mkdir imageDir]. auto. }
  repeat split_and.
  - intros payload. cbv zeta.
    destruct (Hrun (lit "data:image/png;base64," ++ payload))
      as (done & -> & Hf & Hw).
    unfold saveImageTo.
    change (startsWith (lit "http") (lit "data:image/png;base64," ++ payload))
      with false.
    cbv zeta. rewrite dataUrlHeader_stripped.
    destruct (writeImage_trace env filepath (fromBase64 env payload) done)
      as (T1 & T2 & T3 & T4).
    cbv zeta in T1, T2, T3, T4. rewrite T1, T2, Hf, Hw. auto.
  - intros url bytes Hhttp Hget. cbv zeta.
    destruct (Hrun url) as (done & -> & Hf & Hw).
    unfold saveImageTo. rewrite Hhttp, Hget.
    destruct (writeImage_trace env filepath bytes (done ++ [Fetch url]))
      as (T1 & T2 & _).
    cbv zeta in T1, T2. rewrite T1, T2. unfold fetched, written in *.
    rewrite !omap_app, Hf, Hw. auto.
  - intros url status statusText Hhttp Hget. cbv zeta.
    destruct (Hrun url) as (done & -> & Hf & Hw).
    unfold saveImageTo. rewrite Hhttp, Hget. cbn [fst snd].
    split; [reflexivity|]. unfold written in *. now rewrite omap_app, Hw.
Qed.

Lemma saveImageLocally_writes_witness :
  saveImageLocally freshDisk (lit "data:image/png;base64,iVBORw0KGgo=")
    (lit "scheduled_image_1")
  = (Ret (lit "/srv/eliza/agent/generatedImages/scheduled_image_1.png"),
     [Mkdir (lit "/srv/eliza/agent/generatedImages");
      WriteFile (lit "/srv/eliza/agent/generatedImages/scheduled_image_1.png")
        (lit "iVBORw0KGgo=");
      SLog (lit "Image saved to: /srv/eliza/agent/generatedImages/scheduled_image_1.png")]) /\
  fst (saveImageLocally freshDisk (lit "https://cdn.rendernet.ai/a.png")
         (lit "scheduled_image_2"))
  = Throw (ErrorText (lit "Failed to fetch image: Not Found")).
Proof.
  pose proof (saveImageLocally_writes freshDisk (lit "scheduled_image_2")
                (or_intror eq_refl)) as (_ & _ & Hbad).
  split.
  - vm_compute. reflexivity.
  - apply (Hbad (lit "https://cdn.rendernet.ai/a.png") 404 (lit "Not Found"));
      reflexivity.
Defined.

(* ----------------------------------------------------------------- *)
(** ** The two provider dispatchers *)

(** X21: [handleProvider] and the provider [switch] of [generateText]
    do not cover the same providers.  Every provider [handleProvider]
    accepts has a case in [generateText]; the ten providers HYPERBOLIC,
    NINETEEN_AI, HEURIST, GAIANET, ATOMA, GALADRIEL, INFERA, VENICE, NVIDIA
    and BEDROCK have a case in [generateText] but make [handleProvider]
    throw "Unsupported provider: " followed by the provider, and they are
    the only ones; in particular [handleBedrock], though defined, is
    never called.  LLAMALOCAL is the one provider sent to
    [generateObjectDeprecated]. *)
Theorem provider_dispatch_coverage memberOf provider :
  let member := memberOf provider in
  (forall handler, handleProvider memberOf provider = Ret handler ->
     generateText_case member <> None) /\
  (generateText_case member <> None /\
   handleProvider memberOf provider
     = Throw (ErrorText (lit "Unsupported provider: " ++ provider))
   <-> In member [HYPERBOLIC; NINETEEN_AI; HEURIST; GAIANET; ATOMA;
                  GALADRIEL; INFERA; VENICE; NVIDIA; BEDROCK]) /\
  handleProvider memberOf provider <> Ret handleBedrock /\
  (handleProvider memberOf provider = Ret callGenerateObjectDeprecated
   <-> member = LLAMALOCAL).
Proof.
  cbv zeta. unfold handleProvider.
  destruct (memberOf provider); cbn [generateText_case In];
    intuition (try discriminate; try congruence).
Qed.

Lemma provider_dispatch_coverage_witness :
  generateText_case (sampleMemberOf (lit "bedrock")) <> None /\
  handleProvider sampleMemberOf (lit "bedrock")
    = Throw (ErrorText (lit "Unsupported provider: bedrock")).
Proof.
  apply (proj2 (proj1 (proj2 (provider_dispatch_coverage sampleMemberOf
                                (lit "bedrock"))))).
  cbn. auto 12.
Defined.

(** X22: [generateObject] neither retries nor swallows.  An empty
    context makes it throw, where [generateText] returns the empty text
    and [generateObjectDeprecated] returns [null]; a non-empty context
    with a budget of zero or less makes it throw before any handler is
    called; an unsupported provider makes it throw; and otherwise the
    handler is called once on the trimmed context and its outcome, value
    or error, is the outcome of [generateObject]. *)
Theorem generateObject_outcomes {R : Type} im rt memberOf
    (call : ObjectHandler -> jsstring -> outcome R) context modelClass :
  let budget :=
    maxInputTokens (getModelSettings im (modelProvider rt) modelClass) in
  let run := generateObject im rt memberOf call context modelClass in
  (context = [] ->
     fst run = Throw (MkError "generateObject context is empty") /\
     (forall tp k stop,
        fst (generateText tp k (request context modelClass stop)) = Ret []) /\
     (forall tp fuel,
        fst (generateObjectDeprecated im tp fuel context modelClass)
          = Returned None)) /\
  (context <> [] -> budget <= 0 ->
     run = (Throw (MkError "maxTokens must be positive"),
            [LogError "Error in generateObject:"])) /\
  (context <> [] -> 0 < budget ->
     let trimmed_context :=
       truncateTiktoken im (tokenizerModelOf im rt) context budget in
     match handleProvider memberOf (modelProvider rt) with
     | Throw e => fst run = Throw e
     | Ret handler =>
       fst run = call handler trimmed_context /\
       errorsLogged "Error in generateObject:" (snd run)
         = match call handler trimmed_context with
           | Ret _ => O
           | Throw _ => 1%nat
           end
     end).
Proof.
  cbv zeta. unfold generateObject. cbv zeta.
  set (budget := maxInputTokens _).
  repeat split_and.
  - intros ->. repeat split_and; reflexivity.
  - intros Hc Hb. destruct context as [|c cs]; [congruence|].
    cbn [str_falsy]. unfold trimTokens. cbn [str_falsy].
    replace (budget <=? 0) with true by (symmetry; apply Z.leb_le; lia).
    reflexivity.
  - intros Hc Hb. rewrite trimTokens_nonempty by (assumption || lia).
    destruct context as [|c cs]; [congruence|]. cbn [str_falsy].
    destruct (handleProvider _ _) as [handler|e]; [|reflexivity].
    destruct (call handler _) as [r|e]; split; reflexivity.
Qed.

Lemma generateObject_outcomes_witness :
  fst (generateObject sampleImports bedrockRuntime sampleMemberOf
         (fun _ context => Ret context) (lit "describe the scene")
         (lit "large"))
  = Throw (ErrorText (lit "Unsupported provider: bedrock")) /\
  fst (generateObject sampleImports sampleRuntime sampleMemberOf
         (fun _ context => Ret context) (lit "describe the scene")
         (lit "large"))
  = Ret (lit "describe the scene").
Proof.
  split.
  - exact (proj2 (proj2 (generateObject_outcomes sampleImports bedrockRuntime
                           sampleMemberOf (fun _ context => Ret context)
                           (lit "describe the scene") (lit "large")))
             ltac:(discriminate) ltac:(cbn; lia)).
  - exact (proj1 (proj2 (proj2 (generateObject_outcomes sampleImports
                                  sampleRuntime sampleMemberOf
                                  (fun _ context => Ret context)
                                  (lit "describe the scene") (lit "large")))
                    ltac:(discriminate) ltac:(cbn; lia))).
Defined.

(* ----------------------------------------------------------------- *)
(** ** The pipeline with [TextGenerationService] as its text service *)

Lemma TextGenerationService_has_no_generateText tp q arg :
  callMethod (TextGenerationService tp q) "generateText" arg
  = Throw (MkError "TypeError: not a function").
Proof.
  unfold callMethod, TextGenerationService, ServiceObject.
  rewrite !lookup_insert_ne by discriminate.
  now rewrite lookup_empty.
Qed.

(** X23: [generateImagePrompt] calls [generateText] on the registered
    text service, a method [TextGenerationService] does not have (it
    offers [queueTextCompletion]).  So when the registered service is an
    instance of [TextGenerationService], whatever model is behind it,
    the prompt is never produced: [generateAndPostImage] logs one error,
    saves no image and sends no tweet, and a due cycle of the loop still
    moves the watermark. *)
Theorem pipeline_with_TextGenerationService rt env tp q :
  textService env = promptFrom (Some (TextGenerationService tp q)) ->
  generateImagePrompt env = Throw (MkError "TypeError: not a function") /\
  generateAndPostImage rt env = pipelineErrorLog /\
  tweets (generateAndPostImage rt env) = [] /\
  savedImages (generateAndPostImage rt env) = [] /\
  (forall cache dl,
     cacheGetError env = None -> cacheSetError env = None ->
     chosenDelay rt env = Some dl ->
     now env > default 0 (cache !! lastImagePostKey) + dl ->
     tweets (snd (generateImageLoop rt env cache)) = [] /\
     watermarkWrites (snd (generateImageLoop rt env cache)) = [now env]).
Proof.
  intros Hsvc.
  assert (Hp : generateImagePrompt env = Throw (MkError "TypeError: not a function")).
  { unfold generateImagePrompt. rewrite Hsvc. unfold promptFrom.
    cbn [fmap option_fmap option_map].
    now rewrite TextGenerationService_has_no_generateText. }
  assert (Hg : generateAndPostImage rt env = pipelineErrorLog).
  { unfold generateAndPostImage. now rewrite Hp. }
  repeat split_and; try assumption; try (rewrite Hg; reflexivity).
  intros cache dl Hget Hset Hdl Hdue.
  rewrite (generateImageLoop_due rt env cache dl Hget Hset Hdl Hdue).
  cbn [snd]. rewrite Hg. split; reflexivity.
Qed.

Lemma pipeline_with_TextGenerationService_witness :
  generateAndPostImage twitterRuntime serviceEnv = pipelineErrorLog /\
  tweets (generateAndPostImage twitterRuntime serviceEnv) = [].
Proof.
  destruct (pipeline_with_TextGenerationService twitterRuntime serviceEnv
              (fun _ _ => Ret (lit "a lighthouse at dusk"))
              (fun _ => Ret (lit "{}")) eq_refl) as (_ & Hg & Ht & _).
  split; assumption.
Defined.
